(** * cc-snapshot-viewer: the transcript parser, embedded and verified

    A shallow embedding of [src/transcriptParser.ts] (class
    [TranscriptParser]) together with the properties of it that the
    specification states.

    Conventions of the embedding.
    - A JavaScript string is a [string]; a truthy string is a non-empty one.
      [truncateText], which counts the characters of a label and replaces
      its white space, takes a string as the list of its UTF-16 code units.
    - A field that may be absent ([undefined] or [null]) is an [option].
      The one field whose [null] the code tells from [undefined],
      [toolUseResult.originalFile], is an [option OriginalFile]: [None] is
      [undefined] and [Some NullContent] is [null].
    - A plain object used as a dictionary ([TrackedFileBackups]) and a [Map]
      that the code enumerates are association lists in enumeration order,
      with pairwise distinct keys; a [Map] or [Set] that is only probed is a
      [gmap] or [gset]; a [Set] that is enumerated is a duplicate-free list
      in insertion order.  The keys of a snapshot are file paths, none of
      them the name of a member of [Object.prototype].
    - Entries and snapshots have the shapes [src/types.ts] declares, with
      every field optional that the code probes before use; a line that
      [JSON.parse] accepts is taken to decode to an object.
    - A [while] loop whose termination depends on the log is a function with
      fuel; [None] is "the fuel ran out". *)

From Stdlib Require Import ZArith Ascii String.
From stdpp Require Import gmap strings list fin_maps pretty sorting.

Local Open Scope string_scope.
Local Open Scope list_scope.

(** ** Strings *)

Definition truthy (s : string) : bool := negb (String.eqb s "").

Definition truthyO (o : option string) : option string :=
  match o with
  | Some s => if truthy s then Some s else None
  | None => None
  end.

(** ** Data model ([src/types.ts]) *)

Record FileBackup := {
  backupFileName : string;
  version : Z;
  backupTime : option string;
}.

(** [{ [filePath: string]: FileBackup }], own properties in enumeration order. *)
Definition TrackedFileBackups := list (string * FileBackup).

Record ContentBlock := {
  cb_type : string;
  cb_name : option string;
}.

(** [message.content] is a string or an array of content blocks. *)
Inductive MessageContent :=
  | ContentString (s : string)
  | ContentBlocks (bs : list ContentBlock).

(** The content of a file before an edit, as a tool result reports it: a
    string, or [null] for a file the tool creates. *)
Inductive OriginalFile :=
  | NullContent
  | TextContent (s : string).

Record ToolUseResult := {
  filePath : option string;
  originalFile : option OriginalFile;
}.

(** One decoded line of the log.  The code discriminates on [type] and probes
    the other fields dynamically, so every entry carries all of them. *)
Record TranscriptEntry := {
  type : string;
  uuid : option string;
  parentUuid : option string;
  timestamp : string;
  sessionId : option string;
  cwd : string;
  isMeta : bool;
  content : option MessageContent;
  toolUseResult : option ToolUseResult;
  messageId : string;
  trackedFileBackups : TrackedFileBackups;
}.

Record ParsedPrompt := {
  promptNumber : nat;
  p_messageId : string;
  parentMessageId : option string;
  text : string;
  p_timestamp : string;
  beforeSnapshot : TrackedFileBackups;
  afterSnapshot : TrackedFileBackups;
  toolsUsed : list string;
  editedFiles : list string;
  originalFileContents : list (string * OriginalFile);
}.

Record ParsedSession := {
  s_sessionId : string;
  projectPath : string;
  transcriptPath : string;
  prompts : list ParsedPrompt;
  lastUpdated : Z;
}.

Inductive ChangeType := modified | added | deleted.

Record FileChange := {
  fc_filePath : string;
  changeType : ChangeType;
  beforeBackup : option FileBackup;
  afterBackup : option FileBackup;
  fc_promptNumber : nat;
  promptText : string;
  originalContent : option OriginalFile;
}.

#[global] Instance FileBackup_eq_dec : EqDecision FileBackup.
Proof. solve_decision. Defined.
#[global] Instance ChangeType_eq_dec : EqDecision ChangeType.
Proof. solve_decision. Defined.
#[global] Instance OriginalFile_eq_dec : EqDecision OriginalFile.
Proof. solve_decision. Defined.
#[global] Instance FileChange_eq_dec : EqDecision FileChange.
Proof. solve_decision. Defined.

(** ** Conversation tree resolver: [findActiveConversationPath] *)

Definition getUuid (entry : TranscriptEntry) : option string :=
  truthyO (uuid entry).

Definition getParentUuid (entry : TranscriptEntry) : option string :=
  truthyO (parentUuid entry).

(** [entryByUuid.set(uuid, entry)] for every entry with an id, in log order:
    a later entry with the same id replaces an earlier one. *)
Definition entryByUuid (entries : list TranscriptEntry)
  : gmap string TranscriptEntry :=
  foldl (fun m entry =>
           match getUuid entry with
           | Some u => <[u := entry]> m
           | None => m
           end) ∅ entries.

(** The scan [for (i = entries.length - 1; i >= 0; i--)]. *)
Definition lastEntry (entries : list TranscriptEntry) : option TranscriptEntry :=
  List.find (fun entry => bool_decide (is_Some (getUuid entry))) (rev entries).

(** The loop [while (current) { ... }]; one unit of fuel per iteration. *)
Fixpoint walkActivePath (fuel : nat) (byUuid : gmap string TranscriptEntry)
    (current : TranscriptEntry) (activeUuids : gset string)
  : option (gset string) :=
  match fuel with
  | O => None
  | S fuel' =>
      let activeUuids' :=
        match getUuid current with
        | Some u => {[u]} ∪ activeUuids
        | None => activeUuids
        end in
      match getParentUuid current with
      | Some p =>
          match byUuid !! p with
          | Some parent => walkActivePath fuel' byUuid parent activeUuids'
          | None => Some activeUuids'
          end
      | None => Some activeUuids'
      end
  end.

Definition findActiveConversationPath (fuel : nat)
    (entries : list TranscriptEntry) : option (gset string) :=
  match lastEntry entries with
  | None => Some ∅
  | Some last => walkActivePath fuel (entryByUuid entries) last ∅
  end.

(** ** Event log loader: [content.trim().split('\n').filter(line => line.trim())] *)

(** [String.prototype.trim] strips white space and line terminators; of
    these the tab, line feed, vertical tab, form feed, carriage return and
    space are the ones a one-byte character can be. *)
Definition isWhiteSpace (c : ascii) : bool :=
  let n := nat_of_ascii c in
  (Nat.leb 9 n && Nat.leb n 13) || Nat.eqb n 32.

Fixpoint trimStart (s : string) : string :=
  match s with
  | String c s' => if isWhiteSpace c then trimStart s' else s
  | EmptyString => EmptyString
  end.

(** Drops trailing white space: a character is kept when it is not white
    space or when something is kept after it. *)
Fixpoint trimEnd (s : string) : string :=
  match s with
  | String c s' =>
      match trimEnd s' with
      | EmptyString => if isWhiteSpace c then EmptyString else String c EmptyString
      | rest => String c rest
      end
  | EmptyString => EmptyString
  end.

Definition trim (s : string) : string := trimEnd (trimStart s).

(** [s.split(sep)] for a one-character separator; never returns the empty
    list: [''.split('\n')] is [['']]. *)
Fixpoint split (sep : ascii) (s : string) : list string :=
  match s with
  | EmptyString => [EmptyString]
  | String c s' =>
      if Ascii.eqb c sep then EmptyString :: split sep s'
      else match split sep s' with
           | piece :: pieces => String c piece :: pieces
           | [] => [String c EmptyString]
           end
  end.

Definition newline : ascii := ascii_of_nat 10.

Definition splitLines (fileContent : string) : list string :=
  List.filter (fun line => truthy (trim line)) (split newline (trim fileContent)).

(** ** Backup file names: [/^(.+)@v(\d+)$/] *)

Definition isDigit (c : ascii) : bool :=
  let n := nat_of_ascii c in Nat.leb 48 n && Nat.leb n 57.

(** [.] matches any character but a line terminator. *)
Definition isLineTerminator (c : ascii) : bool :=
  let n := nat_of_ascii c in Nat.eqb n 10 || Nat.eqb n 13.

Definition digitValue (c : ascii) : N := N.of_nat (nat_of_ascii c - 48).

(** [parseInt(digits, 10)] on a string of decimal digits; the value is exact
    here, as it is in JavaScript below 2^53. *)
Definition parseInt (digits : list ascii) : N :=
  foldl (fun acc c => (10 * acc + digitValue c)%N) 0%N digits.

(** Longest run of digits at the front of a list. *)
Fixpoint spanDigits (l : list ascii) : list ascii * list ascii :=
  match l with
  | c :: l' =>
      if isDigit c then let '(ds, rest) := spanDigits l' in (c :: ds, rest)
      else ([], l)
  | [] => ([], [])
  end.

(** The match of [/^(.+)@v(\d+)$/] against a file name: the groups
    [(match[1], parseInt(match[2], 10))].  The digits are the trailing digit
    run, which "@v" must precede, after a non-empty prefix with no line
    terminator.  The name is scanned from its end. *)
Definition matchBackupName (file : string) : option (string * N) :=
  let '(revDigits, rest) := spanDigits (rev (list_ascii_of_string file)) in
  match revDigits, rest with
  | _ :: _, v :: at_ :: revHash =>
      if Ascii.eqb v "v" && Ascii.eqb at_ "@"
         && negb (bool_decide (revHash = []))
         && forallb (fun c => negb (isLineTerminator c)) revHash
      then Some (string_of_list_ascii (rev revHash), parseInt (rev revDigits))
      else None
  | _, _ => None
  end.

(** [s.split('@')[0]]: the part of [s] before its first '@'. *)
Fixpoint beforeFirstAt (s : string) : string :=
  match s with
  | String c s' => if Ascii.eqb c "@" then EmptyString else String c (beforeFirstAt s')
  | EmptyString => EmptyString
  end.

(** ** The environment: Node's [path], [fs], [os] and [JSON] *)

(** The functions of Node's [path] module that the parser calls. *)
Class PathOps := {
  normalize : string -> string;
  basename : string -> string;
  isAbsolute : string -> bool;
  join : list string -> string;
}.

(** What the parser reads from the disk.  [readdirSync] is [None] when the
    call throws; the transcript is read only after [existsSync] answered
    that it exists, and that read is taken to succeed. *)
Record FileSystem := {
  existsSync : string -> bool;
  readFileSync : string -> string;
  readdirSync : string -> option (list string);
  statSync_mtime : string -> Z;
}.

(** ** Backup store reconciler: [getLatestSnapshotFromDisk] *)

(** [filesByHash]: the [{version, fileName}] records of each hash, in
    directory order. *)
Definition groupByHash (files : list string) : gmap string (list (N * string)) :=
  foldl (fun filesByHash file =>
           match matchBackupName file with
           | Some (hash, v) =>
               <[hash := default [] (filesByHash !! hash) ++ [(v, file)]]> filesByHash
           | None => filesByHash
           end) ∅ files.

(** [versions.reduce((max, curr) => curr.version > max.version ? curr : max)]
    on a non-empty array. *)
Definition latestVersion (first : N * string) (others : list (N * string))
  : N * string :=
  foldl (fun max curr => if (max.1 <? curr.1)%N then curr else max) first others.

(** The body of [for (const [filePath, backup] of Object.entries(result))]:
    the value stored under [filePath] when the iteration ends. *)
Definition reconcileBackup (filesByHash : gmap string (list (N * string)))
    (backup : FileBackup) : FileBackup :=
  if negb (truthy (backupFileName backup)) then backup
  else match matchBackupName (backupFileName backup) with
       | None => backup
       | Some _ =>
           let hash := beforeFirstAt (backupFileName backup) in
           match filesByHash !! hash with
           | Some (first :: others) =>
               let latest := latestVersion first others in
               if (version backup <? Z.of_N latest.1)%Z
               then {| backupFileName := latest.2;
                       version := Z.of_N latest.1;
                       backupTime := backupTime backup |}
               else backup
           | _ => backup
           end
       end.

Definition reconcile (files : list string) (baseSnapshot : TrackedFileBackups)
  : TrackedFileBackups :=
  let filesByHash := groupByHash files in
  List.map (fun '(path, backup) => (path, reconcileBackup filesByHash backup))
           baseSnapshot.

(** ** Snapshot correlator: the passes of [parseTranscript] over [entries] *)

(** [entries.find(e => 'uuid' in e && e.uuid === id)]: the first entry whose
    [uuid] is the string [id]; nothing when [id] is [undefined] or [null]. *)
Definition findByUuid (entries : list TranscriptEntry) (id : option string)
  : option TranscriptEntry :=
  match id with
  | Some u => List.find (fun e => bool_decide (uuid e = Some u)) entries
  | None => None
  end.

(** Lines 96-106: [snapshotMap] and [latestSnapshot]. *)
Definition isSnapshotEntry (entry : TranscriptEntry) : bool :=
  bool_decide (type entry = "file-history-snapshot").

Definition snapshotMapOf (entries : list TranscriptEntry)
  : gmap string TrackedFileBackups :=
  foldl (fun snapshotMap entry =>
           if isSnapshotEntry entry
           then <[messageId entry := trackedFileBackups entry]> snapshotMap
           else snapshotMap) ∅ entries.

Definition latestSnapshotOf (entries : list TranscriptEntry) : TrackedFileBackups :=
  foldl (fun latestSnapshot entry =>
           if isSnapshotEntry entry then trackedFileBackups entry
           else latestSnapshot) [] entries.

(** [set.add(x)] on a set kept in insertion order. *)
Definition setAdd (x : string) (set : list string) : list string :=
  if bool_decide (x ∈ set) then set else set ++ [x].

(** [map.get(k)] and [map.has(k)] on a [Map] kept in insertion order. *)
Fixpoint mapGet {V} (k : string) (map : list (string * V)) : option V :=
  match map with
  | (k', v) :: map' => if String.eqb k' k then Some v else mapGet k map'
  | [] => None
  end.

Record Attribution := {
  toolsPerPrompt : gmap string (list string);
  editedFilesPerPrompt : gmap string (list string);
  originalContentsPerPrompt : gmap string (list (string * OriginalFile));
}.

Definition noAttribution : Attribution :=
  {| toolsPerPrompt := ∅; editedFilesPerPrompt := ∅;
     originalContentsPerPrompt := ∅ |}.

Definition isUser (entry : TranscriptEntry) : bool :=
  bool_decide (type entry = "user").

(** [typeof message?.content === 'string']. *)
Definition hasTextContent (entry : TranscriptEntry) : bool :=
  match content entry with
  | Some (ContentString _) => true
  | _ => false
  end.

(** Lines 129-134, the walk of the tool-usage attribution:
    [while (current && current.type !== 'user')
       { rootId = current.parentUuid || rootId; current = find(rootId) }].
    The result is the final [rootId]. *)
Fixpoint walkToolRoot (fuel : nat) (entries : list TranscriptEntry)
    (rootId : option string) (current : option TranscriptEntry)
  : option (option string) :=
  match current with
  | None => Some rootId
  | Some c =>
      if isUser c then Some rootId
      else match fuel with
           | O => None
           | S fuel' =>
               let rootId' :=
                 match truthyO (parentUuid c) with
                 | Some p => Some p
                 | None => rootId
                 end in
               walkToolRoot fuel' entries rootId' (findByUuid entries rootId')
           end
  end.

Definition toolRootOf (fuel : nat) (entries : list TranscriptEntry)
    (assistantEntry : TranscriptEntry) : option (option string) :=
  let parentId := parentUuid assistantEntry in
  walkToolRoot fuel entries parentId (findByUuid entries parentId).

(** Lines 156-162, the walk of the edited-file attribution:
    [while (current && (current.type !== 'user' || typeof content !== 'string'))
       { rootId = current.parentUuid || undefined; if (!rootId) break;
         current = find(rootId) }]. *)
Fixpoint walkEditRoot (fuel : nat) (entries : list TranscriptEntry)
    (rootId : option string) (current : option TranscriptEntry)
  : option (option string) :=
  match current with
  | None => Some rootId
  | Some c =>
      if isUser c && hasTextContent c then Some rootId
      else match truthyO (parentUuid c) with
           | None => Some None
           | Some p =>
               match fuel with
               | O => None
               | S fuel' =>
                   walkEditRoot fuel' entries (Some p) (findByUuid entries (Some p))
               end
           end
  end.

Definition editRootOf (fuel : nat) (entries : list TranscriptEntry)
    (toolResult : TranscriptEntry) : option (option string) :=
  let rootId := parentUuid toolResult in
  walkEditRoot fuel entries rootId (findByUuid entries rootId).

(** Lines 136-141. *)
Definition recordTool (rootId : option string) (name : string)
    (a : Attribution) : Attribution :=
  match truthyO rootId with
  | Some r =>
      {| toolsPerPrompt :=
           <[r := setAdd name (default [] (toolsPerPrompt a !! r))]> (toolsPerPrompt a);
         editedFilesPerPrompt := editedFilesPerPrompt a;
         originalContentsPerPrompt := originalContentsPerPrompt a |}
  | None => a
  end.

(** Lines 164-186.  [originalFile !== undefined] lets [null] through: it is
    stored like a text, and like a text it keeps a later one out. *)
Definition recordEdit (rootId : option string) (file : string)
    (original : option OriginalFile) (a : Attribution) : Attribution :=
  match truthyO rootId with
  | Some r =>
      {| toolsPerPrompt := toolsPerPrompt a;
         editedFilesPerPrompt :=
           <[r := setAdd file (default [] (editedFilesPerPrompt a !! r))]>
             (editedFilesPerPrompt a);
         originalContentsPerPrompt :=
           match original with
           | Some stored =>
               let promptOriginals := default [] (originalContentsPerPrompt a !! r) in
               <[r := match mapGet file promptOriginals with
                      | Some _ => promptOriginals
                      | None => promptOriginals ++ [(file, stored)]
                      end]> (originalContentsPerPrompt a)
           | None => originalContentsPerPrompt a
           end |}
  | None => a
  end.

Definition isToolUse (block : ContentBlock) : option string :=
  if bool_decide (cb_type block = "tool_use") then truthyO (cb_name block) else None.

(** Lines 121-145: the tool invocations of one assistant entry. *)
Fixpoint attributeTools (fuel : nat) (entries : list TranscriptEntry)
    (assistantEntry : TranscriptEntry) (blocks : list ContentBlock)
    (a : Attribution) : option Attribution :=
  match blocks with
  | [] => Some a
  | block :: blocks' =>
      match isToolUse block with
      | Some name =>
          rootId ← toolRootOf fuel entries assistantEntry;
          attributeTools fuel entries assistantEntry blocks' (recordTool rootId name a)
      | None => attributeTools fuel entries assistantEntry blocks' a
      end
  end.

(** Lines 120-189: the body of the first pass for one entry. *)
Definition firstPassEntry (fuel : nat) (entries : list TranscriptEntry)
    (entry : TranscriptEntry) (a : Attribution) : option Attribution :=
  a1 ← (if bool_decide (type entry = "assistant") then
          match content entry with
          | Some (ContentBlocks blocks) => attributeTools fuel entries entry blocks a
          | _ => Some a
          end
        else Some a);
  if isUser entry then
    match toolUseResult entry with
    | Some result =>
        match truthyO (filePath result) with
        | Some file =>
            rootId ← editRootOf fuel entries entry;
            Some (recordEdit rootId file (originalFile result) a1)
        | None => Some a1
        end
    | None => Some a1
    end
  else Some a1.

Fixpoint firstPassFrom (fuel : nat) (entries : list TranscriptEntry)
    (rest : list TranscriptEntry) (a : Attribution) : option Attribution :=
  match rest with
  | [] => Some a
  | entry :: rest' =>
      a' ← firstPassEntry fuel entries entry a;
      firstPassFrom fuel entries rest' a'
  end.

Definition firstPass (fuel : nat) (entries : list TranscriptEntry)
  : option Attribution :=
  firstPassFrom fuel entries entries noAttribution.

(** ** Session assembler *)

(** Lines 197-213: the entries the second pass turns into prompts. *)
Definition isPromptEntry (activeUuids : gset string) (entry : TranscriptEntry)
  : option string :=
  if isUser entry then
    if negb (hasTextContent entry) then None
    else if isMeta entry then None
    else match uuid entry with
         | Some u => if bool_decide (u ∈ activeUuids) then Some u else None
         | None => None
         end
  else None.

Definition contentText (entry : TranscriptEntry) : string :=
  match content entry with
  | Some (ContentString s) => s
  | _ => ""
  end.

(** Lines 215-234: [promptNumber++] and the prompt record. *)
Definition buildPrompt (snapshotMap : gmap string TrackedFileBackups)
    (a : Attribution) (promptNumber : nat) (messageId : string)
    (userEntry : TranscriptEntry) : ParsedPrompt :=
  {| promptNumber := promptNumber;
     p_messageId := messageId;
     parentMessageId := parentUuid userEntry;
     text := contentText userEntry;
     p_timestamp := timestamp userEntry;
     beforeSnapshot := default [] (snapshotMap !! messageId);
     afterSnapshot := [];
     toolsUsed := default [] (toolsPerPrompt a !! messageId);
     editedFiles := default [] (editedFilesPerPrompt a !! messageId);
     originalFileContents := default [] (originalContentsPerPrompt a !! messageId) |}.

(** Lines 196-236: the loop state is [(prompts, promptNumber)]. *)
Definition secondPassStep (activeUuids : gset string)
    (snapshotMap : gmap string TrackedFileBackups) (a : Attribution)
    (state : list ParsedPrompt * nat) (entry : TranscriptEntry)
  : list ParsedPrompt * nat :=
  match isPromptEntry activeUuids entry with
  | Some messageId =>
      let promptNumber := S state.2 in
      (state.1 ++ [buildPrompt snapshotMap a promptNumber messageId entry],
       promptNumber)
  | None => state
  end.

Definition secondPass (activeUuids : gset string)
    (snapshotMap : gmap string TrackedFileBackups) (a : Attribution)
    (entries : list TranscriptEntry) : list ParsedPrompt :=
  (foldl (secondPassStep activeUuids snapshotMap a) ([], 0) entries).1.

Definition setAfterSnapshot (snapshot : TrackedFileBackups) (p : ParsedPrompt)
  : ParsedPrompt :=
  {| promptNumber := promptNumber p;
     p_messageId := p_messageId p;
     parentMessageId := parentMessageId p;
     text := text p;
     p_timestamp := p_timestamp p;
     beforeSnapshot := beforeSnapshot p;
     afterSnapshot := snapshot;
     toolsUsed := toolsUsed p;
     editedFiles := editedFiles p;
     originalFileContents := originalFileContents p |}.

(** Lines 240-250: [prompts[i].afterSnapshot = ...] for each index [i]; the
    loop writes [afterSnapshot] only and reads [beforeSnapshot] only. *)
Definition thirdPass (latestFromDisk : TrackedFileBackups)
    (prompts : list ParsedPrompt) : list ParsedPrompt :=
  imap (fun i p =>
          if bool_decide (i < length prompts - 1)
          then setAfterSnapshot
                 (default [] (beforeSnapshot <$> prompts !! (i + 1))) p
          else setAfterSnapshot latestFromDisk p) prompts.

Section Parser.
Context `{PathOps}.
(** [os.homedir()] and [JSON.parse]; a line decodes to an entry or the
    decoder throws ([None]). *)
Variable homedir : string.
Variable JSON_parse : string -> option TranscriptEntry.

Definition claudeDir : string := join [homedir; ".claude"].

Definition getLatestSnapshotFromDisk (fs : FileSystem) (sessionId : string)
    (baseSnapshot : TrackedFileBackups) : TrackedFileBackups :=
  let historyDir := join [claudeDir; "file-history"; sessionId] in
  if negb (existsSync fs historyDir) then baseSnapshot
  else match readdirSync fs historyDir with
       | Some files => reconcile files baseSnapshot
       | None => baseSnapshot
       end.

(** *** Lines 63-74: decoding the log *)

(** [try { entries.push(JSON.parse(line)) } catch { continue }]. *)
Definition decodeLines (lines : list string) : list TranscriptEntry :=
  foldl (fun entries line =>
           match JSON_parse line with
           | Some entry => entries ++ [entry]
           | None => entries
           end) [] lines.

Definition loadEntries (fileContent : string) : list TranscriptEntry :=
  decodeLines (splitLines fileContent).

(** *** [parseTranscript]

    [None] when the fuel given to the parent walks runs out; otherwise the
    returned value, [None] for [null].  [assembleSession] is lines 76-262,
    what happens once [entries] is known. *)
Definition assembleSession (fuel : nat) (fs : FileSystem)
    (transcriptPath : string) (entries : list TranscriptEntry)
  : option (option ParsedSession) :=
  if bool_decide (length entries = 0) then Some None
  else
    let firstUser :=
      List.find (fun e => isUser e && bool_decide (is_Some (sessionId e)))
                entries in
    let sessionId := default "" (firstUser ≫= sessionId) in
    let projectPath := default "" (cwd <$> firstUser) in
    activeUuids ← findActiveConversationPath fuel entries;
    let snapshotMap := snapshotMapOf entries in
    let latestSnapshot := latestSnapshotOf entries in
    a ← firstPass fuel entries;
    let prompts := secondPass activeUuids snapshotMap a entries in
    let latestFromDisk := getLatestSnapshotFromDisk fs sessionId latestSnapshot in
    Some (Some {| s_sessionId := sessionId;
                  projectPath := projectPath;
                  transcriptPath := transcriptPath;
                  prompts := thirdPass latestFromDisk prompts;
                  lastUpdated := statSync_mtime fs transcriptPath |}).

Definition parseTranscript (fuel : nat) (fs : FileSystem)
    (transcriptPath : string) : option (option ParsedSession) :=
  if negb (existsSync fs transcriptPath) then Some None
  else assembleSession fuel fs transcriptPath
         (loadEntries (readFileSync fs transcriptPath)).
End Parser.

(** ** Change-set deriver: [getFileChangesForPrompt] *)

Section ChangeSet.
Context `{PathOps}.

(** The optional argument [projectPath]. *)
Variable projectRoot : option string.

Definition toAbsolutePath (p : string) : string :=
  if isAbsolute p then normalize p
  else match truthyO projectRoot with
       | Some root => join [root; p]
       | None => p
       end.

(** [new Set([...Object.keys(before).map(normalize),
              ...Object.keys(after).map(normalize)])]. *)
Definition allFiles (prompt : ParsedPrompt) : list string :=
  foldl (fun set p => setAdd p set) []
        (List.map (fun kv => normalize kv.1) (beforeSnapshot prompt)
         ++ List.map (fun kv => normalize kv.1) (afterSnapshot prompt)).

(** [Object.entries(o).find(([k]) => pred(k))?.[1]], also for
    [Array.from(map.entries())]. *)
Definition findEntry {V} (pred : string -> bool) (o : list (string * V))
  : option V :=
  snd <$> List.find (fun kv => pred kv.1) o.

(** [snapshot[filePath] || Object.entries(snapshot).find(([k]) =>
    normalizeFilePath(k) === filePath)?.[1]]. *)
Definition lookupBackup (snapshot : TrackedFileBackups) (filePath : string)
  : option FileBackup :=
  match mapGet filePath snapshot with
  | Some backup => Some backup
  | None => findEntry (fun k => String.eqb (normalize k) filePath) snapshot
  end.

(** The text of a stored content that is truthy: a non-empty string.  [null]
    and the empty string are falsy. *)
Definition truthyContent (o : option OriginalFile) : option string :=
  match o with
  | Some (TextContent s) => if truthy s then Some s else None
  | _ => None
  end.

(** [originals.get(first) || originals.get(second) ||
    Array.from(originals.entries()).find(([k]) => normalizeFilePath(k) ===
    normalized || getBasename(k) === base)?.[1]]: a falsy value of the first
    two lookups gives way to the next one; the value of the last is taken as
    it is, [null] and the empty string included. *)
Definition resolveOriginal (originals : list (string * OriginalFile))
    (first second normalized base : string) : option OriginalFile :=
  match truthyContent (mapGet first originals) with
  | Some text => Some (TextContent text)
  | None =>
      match truthyContent (mapGet second originals) with
      | Some text => Some (TextContent text)
      | None =>
          findEntry (fun k => String.eqb (normalize k) normalized
                              || String.eqb (basename k) base) originals
      end
  end.

Definition mkChange (prompt : ParsedPrompt) (path : string) (kind : ChangeType)
    (before after : option FileBackup) (original : option OriginalFile)
  : FileChange :=
  {| fc_filePath := path; changeType := kind;
     beforeBackup := before; afterBackup := after;
     fc_promptNumber := promptNumber prompt; promptText := text prompt;
     originalContent := original |}.

(** Lines 295-376: what one candidate path pushes onto [changes]. *)
Definition classifyCandidate (prompt : ParsedPrompt) (filePath : string)
  : option FileChange :=
  let before := lookupBackup (beforeSnapshot prompt) filePath in
  let after := lookupBackup (afterSnapshot prompt) filePath in
  let absoluteFilePath := toAbsolutePath filePath in
  match before, after with
  | None, Some _ =>
      match resolveOriginal (originalFileContents prompt) filePath
              absoluteFilePath filePath (basename filePath) with
      | Some original =>
          Some (mkChange prompt absoluteFilePath modified None None (Some original))
      | None => Some (mkChange prompt absoluteFilePath added None None None)
      end
  | Some b, None =>
      Some (mkChange prompt absoluteFilePath deleted (Some b) None None)
  | Some b, Some a =>
      if bool_decide (version b ≠ version a)
      then Some (mkChange prompt absoluteFilePath modified (Some b) (Some a) None)
      else None
  | None, None => None
  end.

(** The loop state is [(changes, detectedFiles)]. *)
Definition snapshotStep (prompt : ParsedPrompt)
    (state : list FileChange * gset string) (filePath : string)
  : list FileChange * gset string :=
  match classifyCandidate prompt filePath with
  | Some change =>
      (state.1 ++ [change],
       {[filePath; toAbsolutePath filePath; basename filePath]} ∪ state.2)
  | None => state
  end.

(** Lines 386-407: the change pushed for an edited file. *)
Definition editedChange (prompt : ParsedPrompt) (editedFile : string)
  : FileChange :=
  let normalizedEditedFile := normalize editedFile in
  let editedBasename := basename editedFile in
  let backup :=
    match mapGet editedFile (beforeSnapshot prompt) with
    | Some b => Some b
    | None =>
        match mapGet editedBasename (beforeSnapshot prompt) with
        | Some b => Some b
        | None =>
            findEntry (fun k => String.eqb (normalize k) normalizedEditedFile
                                || String.eqb (basename k) editedBasename)
                      (beforeSnapshot prompt)
        end
    end in
  let original :=
    resolveOriginal (originalFileContents prompt) editedFile
      normalizedEditedFile normalizedEditedFile editedBasename in
  mkChange prompt normalizedEditedFile
    (match backup, original with None, None => added | _, _ => modified end)
    backup None
    (match backup with None => original | Some _ => None end).

(** Lines 380-411. *)
Definition editedStep (prompt : ParsedPrompt)
    (state : list FileChange * gset string) (editedFile : string)
  : list FileChange * gset string :=
  if bool_decide (normalize editedFile ∉ state.2)
     && bool_decide (basename editedFile ∉ state.2)
  then (state.1 ++ [editedChange prompt editedFile],
        {[normalize editedFile; basename editedFile]} ∪ state.2)
  else state.

Definition snapshotChanges (prompt : ParsedPrompt)
  : list FileChange * gset string :=
  foldl (snapshotStep prompt) ([], ∅) (allFiles prompt).

Definition getFileChangesForPrompt (prompt : ParsedPrompt) : list FileChange :=
  (foldl (editedStep prompt) (snapshotChanges prompt) (editedFiles prompt)).1.
End ChangeSet.

(** ** Node's [path.posix]

    The path functions as Node documents them for POSIX paths, used for the
    concrete logs below. *)
Module Posix.
Definition slash : ascii := "/"%char.

Definition segments (p : string) : list string := split slash p.

Fixpoint joinSegments (segs : list string) : string :=
  match segs with
  | [] => ""
  | [s] => s
  | s :: rest => s +:+ "/" +:+ joinSegments rest
  end.

(** [normalizeString]: drops empty and "." segments and resolves ".."
    against the segment before it; above the root of a relative path ".."
    is kept. *)
Definition pushSegment (allowAboveRoot : bool) (stack : list string)
    (seg : string) : list string :=
  if String.eqb seg "" || String.eqb seg "." then stack
  else if String.eqb seg ".." then
    match rev stack with
    | top :: below =>
        if String.eqb top ".." then stack ++ [seg] else rev below
    | [] => if allowAboveRoot then [seg] else []
    end
  else stack ++ [seg].

Definition startsWithSlash (p : string) : bool :=
  match p with String c _ => Ascii.eqb c slash | EmptyString => false end.

Definition endsWithSlash (p : string) : bool :=
  match rev (list_ascii_of_string p) with
  | c :: _ => Ascii.eqb c slash
  | [] => false
  end.

Definition normalize (p : string) : string :=
  if String.eqb p "" then "."
  else
    let absolute := startsWithSlash p in
    let body := joinSegments (foldl (pushSegment (negb absolute)) [] (segments p)) in
    if String.eqb body "" then
      if absolute then "/" else if endsWithSlash p then "./" else "."
    else
      let body := if endsWithSlash p then body +:+ "/" else body in
      if absolute then "/" +:+ body else body.

(** [path.basename(p)]: the last non-empty segment. *)
Definition basename (p : string) : string :=
  default "" (head (rev (List.filter truthy (segments p)))).

Definition join (parts : list string) : string :=
  match List.filter truthy parts with
  | [] => "."
  | parts' => normalize (joinSegments parts')
  end.

#[export] Instance ops : PathOps :=
  Build_PathOps normalize basename startsWithSlash join.
End Posix.

(** ** Transcript discovery and backup files: the rest of [TranscriptParser] *)

(** [workspacePath.replace(/\//g, '-')]. *)
Fixpoint encodePath (workspacePath : string) : string :=
  match workspacePath with
  | String c rest =>
      String (if Ascii.eqb c "/" then "-"%char else c) (encodePath rest)
  | EmptyString => EmptyString
  end.

(** [s.endsWith(suffix)] and [s.startsWith(prefix)]. *)
Definition endsWith (s suffix : string) : bool :=
  bool_decide (list_ascii_of_string suffix `suffix_of` list_ascii_of_string s).

Definition startsWith (s pre : string) : bool :=
  bool_decide (list_ascii_of_string pre `prefix_of` list_ascii_of_string s).

(** [array.sort(compare)] for a comparator that orders by a key:
    [compare a b < 0] puts [a] first, and elements that compare equal keep
    their order (the sort is stable).  An element is inserted before the
    first one it does not have to follow. *)
Fixpoint sortInsert {A} (compare : A -> A -> Z) (x : A) (sorted : list A) : list A :=
  match sorted with
  | y :: rest =>
      if (compare x y <=? 0)%Z then x :: y :: rest
      else y :: sortInsert compare x rest
  | [] => [x]
  end.

Fixpoint sortWith {A} (compare : A -> A -> Z) (l : list A) : list A :=
  match l with
  | x :: rest => sortInsert compare x (sortWith compare rest)
  | [] => []
  end.

(** [f.endsWith('.jsonl') && !f.startsWith('agent-')]. *)
Definition isTranscriptName (f : string) : bool :=
  endsWith f ".jsonl" && negb (startsWith f "agent-").

Section Discovery.
Context `{PathOps}.
Variable homedir : string.

(** Lines 28-53.  [None] when [readdirSync] throws: nothing catches it. *)
Definition findTranscriptsForWorkspace (fs : FileSystem) (workspacePath : string)
  : option (list string) :=
  let projectsDir := join [claudeDir homedir; "projects"] in
  if negb (existsSync fs projectsDir) then Some []
  else
    let encodedPath := encodePath workspacePath in
    let projectDir := join [projectsDir; encodedPath] in
    if negb (existsSync fs projectDir) then Some []
    else
      files ← readdirSync fs projectDir;
      Some (sortWith (fun a b => (statSync_mtime fs b - statSync_mtime fs a)%Z)
              (List.map (fun f => join [projectDir; f])
                 (List.filter isTranscriptName files))).

(** Lines 419-421. *)
Definition getBackupFilePath (sessionId backupFileName : string) : string :=
  join [claudeDir homedir; "file-history"; sessionId; backupFileName].

(** Lines 426-432; [None] is [null]. *)
Definition readBackupFile (fs : FileSystem) (sessionId backupFileName : string)
  : option string :=
  let backupPath := getBackupFilePath sessionId backupFileName in
  if negb (existsSync fs backupPath) then None
  else Some (readFileSync fs backupPath).

(** ** The snapshot content provider ([SnapshotContentProvider])

    A URI is given by its [path] component. *)

(** [uri.path.split('/').filter(p => p)], then the first two parts. *)
Definition parseUri (uriPath : string) : string * string :=
  match List.filter truthy (split "/"%char uriPath) with
  | sessionId :: backupFileName :: _ => (sessionId, backupFileName)
  | _ => ("", "")
  end.

Definition provideTextDocumentContent (fs : FileSystem) (uriPath : string)
  : string :=
  let '(sessionId, backupFileName) := parseUri uriPath in
  if negb (truthy sessionId) || negb (truthy backupFileName) then ""
  else
    let filePath := join [claudeDir homedir; "file-history"; sessionId; backupFileName] in
    if negb (existsSync fs filePath)
    then "[File not found: " +:+ backupFileName +:+ "]"
    else readFileSync fs filePath.
End Discovery.

(** ** The source control provider ([ClaudeScmProvider]) *)

(** The UTF-16 code units that [\s] matches and that [trim] removes, the
    white space and line terminators of ECMAScript: TAB, LF, VT, FF, CR,
    SPACE, U+00A0, U+1680, U+2000 to U+200A, U+2028, U+2029, U+202F, U+205F,
    U+3000 and U+FEFF. *)
Definition isSpaceUnit (u : N) : bool :=
  bool_decide (u ∈ [9; 10; 11; 12; 13; 32; 160; 5760; 8232; 8233; 8239; 8287;
                    12288; 65279]%N)
  || ((8192 <=? u)%N && (u <=? 8202)%N).

(** [text.replace(/\s+/g, ' ')] on the code units of [text]: every maximal
    run of white space becomes one space (32); [inRun] tells that the unit
    before was white space. *)
Fixpoint collapseWhiteSpace (inRun : bool) (text : list N) : list N :=
  match text with
  | u :: rest =>
      if isSpaceUnit u then
        if inRun then collapseWhiteSpace true rest
        else 32%N :: collapseWhiteSpace true rest
      else u :: collapseWhiteSpace false rest
  | [] => []
  end.

(** [trim()] on code units. *)
Fixpoint trimStartUnits (text : list N) : list N :=
  match text with
  | u :: rest => if isSpaceUnit u then trimStartUnits rest else text
  | [] => []
  end.

Definition trimUnits (text : list N) : list N :=
  reverse (trimStartUnits (reverse (trimStartUnits text))).

(** [truncateText], on code units: [length] counts them and [substring] cuts
    between them.  [substring(0, maxLength - 3)] takes nothing when
    [maxLength - 3] is negative, as the truncated subtraction does; 46 is
    the full stop. *)
Definition truncateText (text : list N) (maxLength : nat) : list N :=
  let normalized := trimUnits (collapseWhiteSpace false text) in
  if Nat.leb (length normalized) maxLength then normalized
  else take (maxLength - 3) normalized ++ [46; 46; 46]%N.

(** What a diff editor is opened on: the side of a [vscode.diff] command, by
    the scheme of its URI and the values the URI is built from. *)
Inductive DiffSide :=
  | EmptySide (name : string)
  | SnapshotSide (sessionId backupFileName filePath : string)
  | OriginalSide (originalText filePath : string)
  | CurrentSide (filePath : string).

(** The command that [openDiff] or [compareWithCurrent] executes. *)
Inductive EditorCommand :=
  | VscodeDiff (left right : DiffSide) (title : string)
  | VscodeOpen (filePath : string)
  | NoCommand.

Section Scm.
Context `{PathOps}.

Definition promptTag (change : FileChange) : string :=
  pretty (fc_promptNumber change).

(** [openDiff], by the branches of its [if] chain. *)
Definition openDiff (sessionId : string) (change : FileChange) : EditorCommand :=
  let name := basename (fc_filePath change) in
  let snapshot (b : FileBackup) :=
    SnapshotSide sessionId (backupFileName b) (fc_filePath change) in
  match changeType change with
  | added =>
      match afterBackup change with
      | Some a =>
          VscodeDiff (EmptySide name) (snapshot a)
            (name +:+ " (Added in #" +:+ promptTag change +:+ ")")
      | None =>
          VscodeDiff (EmptySide name) (CurrentSide (fc_filePath change))
            (name +:+ " (Added in #" +:+ promptTag change +:+ " - vs current)")
      end
  | deleted =>
      match beforeBackup change with
      | Some b =>
          VscodeDiff (snapshot b) (EmptySide name)
            (name +:+ " (Deleted in #" +:+ promptTag change +:+ ")")
      | None => NoCommand
      end
  | modified =>
      match truthyContent (originalContent change), beforeBackup change,
            afterBackup change with
      | Some original, _, _ =>
          VscodeDiff (OriginalSide original (fc_filePath change))
            (CurrentSide (fc_filePath change))
            (name +:+ " (Prompt #" +:+ promptTag change +:+ ")")
      | None, Some b, Some a =>
          if String.eqb (backupFileName b) (backupFileName a)
          then VscodeDiff (snapshot b) (CurrentSide (fc_filePath change))
                 (name +:+ " (Prompt #" +:+ promptTag change +:+ " - vs current)")
          else VscodeDiff (snapshot b) (snapshot a)
                 (name +:+ " (Prompt #" +:+ promptTag change +:+ ")")
      | None, Some b, None =>
          VscodeDiff (snapshot b) (CurrentSide (fc_filePath change))
            (name +:+ " (Prompt #" +:+ promptTag change +:+ " - vs current)")
      | None, None, _ => VscodeOpen (fc_filePath change)
      end
  end.

(** [compareWithCurrent]: [change.afterBackup || change.beforeBackup]. *)
Definition compareWithCurrent (sessionId : string) (change : FileChange)
  : EditorCommand :=
  let backup :=
    match afterBackup change with
    | Some a => Some a
    | None => beforeBackup change
    end in
  match backup with
  | None => NoCommand
  | Some b =>
      VscodeDiff (SnapshotSide sessionId (backupFileName b) (fc_filePath change))
        (CurrentSide (fc_filePath change))
        (basename (fc_filePath change) +:+ " (Snapshot vs Current)")
  end.
End Scm.

(** ** Notions the specification uses *)

(** [entry] is a plain-text, non-meta user event whose id [u] is in the
    active-id set. *)
Definition ActivePrompt (activeUuids : gset string) (entry : TranscriptEntry)
    (u : string) : Prop :=
  type entry = "user"
  /\ (exists s, content entry = Some (ContentString s))
  /\ isMeta entry = false
  /\ uuid entry = Some u
  /\ u ∈ activeUuids.

#[global] Instance ActivePrompt_dec activeUuids entry :
  Decision (exists u, ActivePrompt activeUuids entry u).
Proof.
  destruct (uuid entry) as [u|] eqn:Hu.
  - destruct (decide (type entry = "user" /\ hasTextContent entry = true
                      /\ isMeta entry = false /\ u ∈ activeUuids))
      as [Hyes|Hno].
    + left. exists u. destruct Hyes as (? & Htext & ? & ?).
      repeat split; try done.
      unfold hasTextContent in Htext.
      destruct (content entry) as [[s|?]|]; try done. by exists s.
    + right. intros (u' & ? & [s Hs] & ? & Hu' & ?). apply Hno.
      rewrite Hu in Hu'. injection Hu' as <-.
      repeat split; try done. unfold hasTextContent. by rewrite Hs.
  - right. intros (u' & ? & ? & ? & Hu' & ?). by rewrite Hu in Hu'.
Defined.

(** A text of white space only; the empty text is one. *)
Fixpoint isBlank (s : string) : bool :=
  match s with
  | String c s' => isWhiteSpace c && isBlank s'
  | EmptyString => true
  end.

(** The backups of content hash [hash] that a directory listing holds, as
    [(version, file name)], in directory order. *)
Definition diskVersions (files : list string) (hash : string) : list (N * string) :=
  omap (fun file =>
          match matchBackupName file with
          | Some (h, v) => if bool_decide (h = hash) then Some (v, file) else None
          | None => None
          end) files.

(** A snapshot has an entry for [p]: under the key [p] itself or under a key
    that normalizes to [p]. *)
Definition PresentIn `{PathOps} (snapshot : TrackedFileBackups) (p : string)
  : Prop :=
  exists k b, (k, b) ∈ snapshot /\ (k = p \/ normalize k = p).

(** A stored original content that is a non-empty string. *)
Definition NonEmptyContent (c : OriginalFile) : Prop :=
  exists t, c = TextContent t /\ t <> "".

(** The resolution of original content as the specification words it: the
    exact path, then the normalized path, then the basename. *)
Definition resolveInClaimedOrder `{PathOps}
    (originals : list (string * OriginalFile)) (p : string)
  : option OriginalFile :=
  match mapGet p originals with
  | Some t => Some t
  | None =>
      match mapGet (normalize p) originals with
      | Some t => Some t
      | None => findEntry (fun k => String.eqb (basename k) (basename p)) originals
      end
  end.

(** An invariant of the deriver's loops: every change pushed so far has its
    path among the detected ones. *)
Definition pathsDetected (state : list FileChange * gset string) : Prop :=
  forall c, c ∈ state.1 -> fc_filePath c ∈ state.2.

(** The log is appended in causal order: an entry that carries the id another
    entry names as its parent comes before that entry. *)
Definition parentsPrecede (entries : list TranscriptEntry) : Prop :=
  forall i j e e' p,
    entries !! i = Some e -> truthyO (parentUuid e) = Some p ->
    entries !! j = Some e' -> uuid e' = Some p -> j < i.

(** Every identified entry without a parent is a user entry. *)
Definition rootsAreUsers (entries : list TranscriptEntry) : Prop :=
  forall e, e ∈ entries -> is_Some (uuid e) -> isUser e = false ->
            is_Some (truthyO (parentUuid e)).

(** The forms a change of a prompt can have.  An original content that is
    set may be a text or [null]. *)
Definition ChangeShape (prompt : ParsedPrompt) (c : FileChange) : Prop :=
  fc_promptNumber c = promptNumber prompt
  /\ promptText c = text prompt
  /\ match changeType c with
     | added =>
         beforeBackup c = None /\ afterBackup c = None /\ originalContent c = None
     | deleted =>
         is_Some (beforeBackup c) /\ afterBackup c = None /\ originalContent c = None
     | modified =>
         (beforeBackup c = None /\ afterBackup c = None
          /\ is_Some (originalContent c))
         \/ (exists b a, beforeBackup c = Some b /\ afterBackup c = Some a
                         /\ version b <> version a /\ originalContent c = None)
         \/ (is_Some (beforeBackup c) /\ afterBackup c = None
             /\ originalContent c = None)
     end.

(** The edit a user entry records in the first pass: the id it is recorded
    under, the file, and the original content the tool result carries. *)
Definition editOf (fuel : nat) (entries : list TranscriptEntry)
    (e : TranscriptEntry) : option (string * string * option OriginalFile) :=
  if isUser e then
    result ← toolUseResult e;
    file ← truthyO (filePath result);
    rootId ← editRootOf fuel entries e;
    r ← truthyO rootId;
    Some (r, file, originalFile result)
  else None.

(** The assistant entry [e] invokes the tool [name], and the tool walk
    attributes the invocation to the id [r]. *)
Definition ToolUnder (fuel : nat) (entries : list TranscriptEntry)
    (r name : string) (e : TranscriptEntry) : Prop :=
  type e = "assistant"
  /\ exists blocks block rootId,
       content e = Some (ContentBlocks blocks)
       /\ block ∈ blocks /\ isToolUse block = Some name
       /\ toolRootOf fuel entries e = Some rootId
       /\ truthyO rootId = Some r.

(** The original content, a text or [null], that the entry [e] offers for
    the file [f] of the prompt [r]. *)
Definition originalUnder (fuel : nat) (entries : list TranscriptEntry)
    (r f : string) (e : TranscriptEntry) : option OriginalFile :=
  match editOf fuel entries e with
  | Some (r', f', Some original) =>
      if bool_decide (r' = r /\ f' = f) then Some original else None
  | _ => None
  end.

(** The ids of a log, in log order. *)
Definition idsOf (entries : list TranscriptEntry) : list string :=
  omap getUuid entries.

(** ** Concrete logs and disks *)

Module Samples.
Definition entry (ty : string) (id parent : option string)
    (c : option MessageContent) : TranscriptEntry :=
  {| type := ty; uuid := id; parentUuid := parent; timestamp := "";
     sessionId := None; cwd := ""; isMeta := false; content := c;
     toolUseResult := None; messageId := ""; trackedFileBackups := [] |}.

Definition userText (id parent : option string) (txt : string) : TranscriptEntry :=
  entry "user" id parent (Some (ContentString txt)).

Definition toolUse (name : string) : ContentBlock :=
  {| cb_type := "tool_use"; cb_name := Some name |}.

Definition assistant (id parent : option string) (tools : list string)
  : TranscriptEntry :=
  entry "assistant" id parent (Some (ContentBlocks (toolUse <$> tools))).

(** A user entry that carries a tool result. *)
Definition toolResult (id parent : option string) (file : option string)
    (original : option OriginalFile) : TranscriptEntry :=
  {| type := "user"; uuid := id; parentUuid := parent; timestamp := "";
     sessionId := None; cwd := ""; isMeta := false;
     content := Some (ContentBlocks [{| cb_type := "tool_result"; cb_name := None |}]);
     toolUseResult := Some {| filePath := file; originalFile := original |};
     messageId := ""; trackedFileBackups := [] |}.

Definition fileHistory (mid : string) (tracked : TrackedFileBackups)
  : TranscriptEntry :=
  {| type := "file-history-snapshot"; uuid := None; parentUuid := None;
     timestamp := ""; sessionId := None; cwd := ""; isMeta := false;
     content := None; toolUseResult := None; messageId := mid;
     trackedFileBackups := tracked |}.

Definition backup (name : string) (v : Z) : FileBackup :=
  {| backupFileName := name; version := v; backupTime := None |}.

(** A decoder given by the table of the lines it accepts. *)
Definition decodeTable (table : list (string * TranscriptEntry)) (line : string)
  : option TranscriptEntry := mapGet line table.

(** A disk given by its files and its directories. *)
Definition disk (files : list (string * string))
    (dirs : list (string * list string)) : FileSystem :=
  {| existsSync p :=
       bool_decide (is_Some (mapGet p files)) || bool_decide (is_Some (mapGet p dirs));
     readFileSync p := default "" (mapGet p files);
     readdirSync p := mapGet p dirs;
     statSync_mtime _ := 0%Z |}.

Definition nl : string := String newline EmptyString.

(** A log without ids: one prompt and the assistant's answer. *)
Definition idlessTable : list (string * TranscriptEntry) :=
  [ ("{type:user,content:hello}", userText None None "hello");
    ("{type:assistant}", assistant None None []) ].

(** A rewound conversation: the chain A <- B <- C <- D with the abandoned
    branch S <- S2 parented at A. *)
Definition withSession (sid dir : string) (e : TranscriptEntry) : TranscriptEntry :=
  {| type := type e; uuid := uuid e; parentUuid := parentUuid e;
     timestamp := timestamp e; sessionId := Some sid; cwd := dir;
     isMeta := isMeta e; content := content e;
     toolUseResult := toolUseResult e; messageId := messageId e;
     trackedFileBackups := trackedFileBackups e |}.

Definition eA : TranscriptEntry :=
  withSession "s1" "/proj" (userText (Some "A") None "start").
Definition eB : TranscriptEntry := assistant (Some "B") (Some "A") ["Read"].
Definition eS : TranscriptEntry := userText (Some "S") (Some "A") "rewound".
Definition eS2 : TranscriptEntry := assistant (Some "S2") (Some "S") [].
Definition eC : TranscriptEntry := userText (Some "C") (Some "B") "again".
Definition eD : TranscriptEntry := assistant (Some "D") (Some "C") [].

Definition rewoundLog : list TranscriptEntry :=
  [ fileHistory "A" []; eA; eB;
    fileHistory "S" [("f.ts", backup "h@v1" 1)]; eS; eS2;
    fileHistory "C" [("f.ts", backup "h@v1" 1)]; eC; eD;
    fileHistory "C" [("f.ts", backup "h@v2" 2)] ].

Definition rewoundLines : list string :=
  [ "{snapshot:A}"; "{user:A}"; "{assistant:B}"; "{snapshot:S}"; "{user:S}";
    "{assistant:S2}"; "{snapshot:C}"; "{user:C}"; "{assistant:D}";
    "{snapshot:C,update}" ].

Definition rewoundTable : list (string * TranscriptEntry) :=
  zip rewoundLines rewoundLog.

Definition logText (lines : list string) : string :=
  foldr (fun line text => line +:+ nl +:+ text) "" lines.

(** The backup store is one version ahead of the log. *)
Definition rewoundDisk : FileSystem :=
  disk [("/log.jsonl", logText rewoundLines)]
       [("/home/u/.claude/file-history/s1", ["h@v1"; "h@v2"; "h@v3"])].

(** One prompt answered with two tool calls: the assistant reads a file, gets
    the tool result back as a user entry, then edits the file. *)
Definition u1 : TranscriptEntry :=
  withSession "s2" "/proj" (userText (Some "u1") None "fix the bug").
Definition a1 : TranscriptEntry := assistant (Some "a1") (Some "u1") ["Read"].
Definition t1 : TranscriptEntry := toolResult (Some "t1") (Some "a1") None None.
Definition a2 : TranscriptEntry := assistant (Some "a2") (Some "t1") ["Edit"].
Definition t2 : TranscriptEntry :=
  toolResult (Some "t2") (Some "a2") (Some "/proj/f.ts")
    (Some (TextContent "old text")).
Definition a3 : TranscriptEntry := assistant (Some "a3") (Some "t2") [].

Definition toolLog : list TranscriptEntry := [u1; a1; t1; a2; t2; a3].

Definition toolLines : list string :=
  [ "{user:u1}"; "{assistant:a1,Read}"; "{user:t1,tool_result}";
    "{assistant:a2,Edit}"; "{user:t2,tool_result}"; "{assistant:a3}" ].

Definition toolTable : list (string * TranscriptEntry) := zip toolLines toolLog.

Definition toolDisk : FileSystem :=
  disk [("/log.jsonl", logText toolLines)] [].

(** The rewound log with a damaged line after its fourth line: ten lines
    that decode and one that does not. *)
Definition damagedDisk : FileSystem :=
  disk [("/log.jsonl",
         logText (take 4 rewoundLines ++ ["{user:S,conte"] ++ drop 4 rewoundLines))]
       [("/home/u/.claude/file-history/s1", ["h@v1"; "h@v2"; "h@v3"])].

Definition blankDisk : FileSystem :=
  disk [("/log.jsonl", "  " +:+ nl +:+ nl)] [].

(** A backup store whose file names have an '@' inside the hash. *)
Definition atDisk : FileSystem :=
  disk [] [("/home/u/.claude/file-history/s3", ["a@b@v1"; "a@b@v2"])].

Definition prompt (before after : TrackedFileBackups) (edited : list string)
    (originals : list (string * OriginalFile)) : ParsedPrompt :=
  {| promptNumber := 1; p_messageId := "u1"; parentMessageId := None;
     text := "fix the bug"; p_timestamp := "";
     beforeSnapshot := before; afterSnapshot := after; toolsUsed := [];
     editedFiles := edited; originalFileContents := originals |}.

(** A first touch of /proj/src/util.ts; the originals hold lib/util.ts
    first, then src/util.ts under a path that is not normalized. *)
Definition firstTouch : ParsedPrompt :=
  prompt [] [("/proj/src/util.ts", backup "h@v1" 1)] []
         [("/proj/lib/util.ts", TextContent "LIB");
          ("/proj/src/./util.ts", TextContent "SRC")].

(** A first touch of src/util.ts, which the snapshot records relative to the
    project and the tool results record with absolute paths; a file of the
    same name elsewhere was edited first. *)
Definition relativeTouch : ParsedPrompt :=
  prompt [] [("src/util.ts", backup "h@v1" 1)] []
         [("/other/util.ts", TextContent "LIB");
          ("/proj/src/util.ts", TextContent "SRC")].

(** Two edited files of the same name in two directories, no snapshot. *)
Definition twins : ParsedPrompt :=
  prompt [] [] ["/proj/a/x.ts"; "/proj/b/x.ts"] [].

(** An edit that the snapshots do not show: the version is 1 on both sides. *)
Definition unseenEdit : ParsedPrompt :=
  prompt [("f.ts", backup "h@v1" 1)] [("f.ts", backup "h@v1" 1)]
         ["/proj/f.ts"] [("/proj/f.ts", TextContent "old text")].

(** The specification's examples: a new version, a deletion. *)
Definition newVersion : ParsedPrompt :=
  prompt [("f.ts", backup "h@v1" 1)] [("f.ts", backup "h@v2" 2)] [] [].

Definition deletion : ParsedPrompt :=
  prompt [("f.ts", backup "h@v1" 1)] [] [] [].

(** Two entries that name each other as parent. *)
Definition cyclicLog : list TranscriptEntry :=
  [ userText (Some "x") (Some "y") "one"; userText (Some "y") (Some "x") "two" ].

(** An assistant entry without a parent, answered by a tool call. *)
Definition orphanLog : list TranscriptEntry :=
  [ assistant (Some "a0") None []; assistant (Some "a1") (Some "a0") ["Read"] ].

Definition orphanLines : list string := [ "{assistant:a0}"; "{assistant:a1,Read}" ].

Definition orphanTable : list (string * TranscriptEntry) := zip orphanLines orphanLog.

Definition orphanDisk : FileSystem :=
  disk [("/log.jsonl", logText orphanLines)] [].

(** The transcripts of the workspace /proj: two sessions, an agent log and a
    stray file; new.jsonl was written last. *)
Definition discoveryDisk : FileSystem :=
  {| existsSync p :=
       bool_decide (p ∈ ["/home/u/.claude/projects"; "/home/u/.claude/projects/-proj"]);
     readFileSync _ := "";
     readdirSync p :=
       if String.eqb p "/home/u/.claude/projects/-proj"
       then Some ["old.jsonl"; "agent-1.jsonl"; "new.jsonl"; "notes.txt"]
       else None;
     statSync_mtime p :=
       if String.eqb p "/home/u/.claude/projects/-proj/new.jsonl" then 2%Z else 1%Z |}.

(** A backup store with one backup of session s1. *)
Definition backupDisk : FileSystem :=
  disk [("/home/u/.claude/file-history/s1/h@v1", "let x = 1;")] [].

(** A prompt whose answer creates a file and then edits it: the Write tool
    reports [null] as the original content, the Edit tool the text that the
    Write had put there. *)
Definition w1 : TranscriptEntry := assistant (Some "w1") (Some "u1") ["Write"].
Definition wr : TranscriptEntry :=
  toolResult (Some "wr") (Some "w1") (Some "/proj/new.ts") (Some NullContent).
Definition e1 : TranscriptEntry := assistant (Some "e1") (Some "wr") ["Edit"].
Definition er : TranscriptEntry :=
  toolResult (Some "er") (Some "e1") (Some "/proj/new.ts")
    (Some (TextContent "first text")).

Definition createdLog : list TranscriptEntry := [u1; w1; wr; e1; er].

Definition createdLines : list string :=
  [ "{user:u1}"; "{assistant:w1,Write}"; "{user:wr,tool_result,null}";
    "{assistant:e1,Edit}"; "{user:er,tool_result}" ].

Definition createdTable : list (string * TranscriptEntry) :=
  zip createdLines createdLog.

Definition createdDisk : FileSystem :=
  disk [("/log.jsonl", logText createdLines)] [].

(** The prompt of that log once the file has its first backup. *)
Definition createdFile : ParsedPrompt :=
  prompt [] [("new.ts", backup "n@v1" 1)] ["/proj/new.ts"]
         [("/proj/new.ts", NullContent)].






Definition idlessDisk : FileSystem :=
  disk [("/log.jsonl",
         "{type:user,content:hello}" +:+ nl +:+ "{type:assistant}" +:+ nl)] [].
End Samples.

Ltac in_list :=
  repeat first [apply list_elem_of_here | apply list_elem_of_further].

(** * Properties *)

(** ** Strings and truthiness *)

Lemma truthyO_Some o s : truthyO o = Some s -> o = Some s /\ s <> "".
Proof.
  destruct o as [t|]; simpl; [|done].
  unfold truthy. destruct (String.eqb_spec t ""); simpl; [done|].
  intros [= ->]. done.
Qed.

Lemma truthyO_None_absent : truthyO None = None.
Proof. done. Qed.

Lemma getUuid_Some e u : getUuid e = Some u -> uuid e = Some u.
Proof. intros Hu. by apply truthyO_Some in Hu as [? _]. Qed.

Lemma find_none_intro {A} (f : A -> bool) (l : list A) :
  (forall x, In x l -> f x = false) -> List.find f l = None.
Proof.
  induction l as [|x l IH]; intros Hall; simpl; [done|].
  rewrite (Hall x) by (by left). apply IH. intros y Hy. apply Hall. by right.
Qed.

(** ** The conversation tree resolver *)

Lemma lastEntry_no_ids entries :
  Forall (fun e => getUuid e = None) entries -> lastEntry entries = None.
Proof.
  intros Hall. unfold lastEntry.
  apply find_none_intro. intros e Hin.
  apply in_rev in Hin. rewrite Forall_forall in Hall.
  rewrite (Hall e) by (by apply list_elem_of_In).
  apply bool_decide_eq_false_2. by intros [? ?].
Qed.

Lemma findByUuid_no_ids entries id :
  Forall (fun e => uuid e = None) entries -> findByUuid entries id = None.
Proof.
  intros Hall. destruct id as [u|]; [|done]. simpl.
  apply find_none_intro. intros e Hin.
  rewrite Forall_forall in Hall.
  rewrite (Hall e) by (by apply list_elem_of_In).
  by apply bool_decide_eq_false_2.
Qed.

Lemma walkToolRoot_dangling fuel entries rootId :
  walkToolRoot fuel entries rootId None = Some rootId.
Proof. by destruct fuel. Qed.

Lemma walkEditRoot_dangling fuel entries rootId :
  walkEditRoot fuel entries rootId None = Some rootId.
Proof. by destruct fuel. Qed.

Lemma attributeTools_no_ids fuel entries e blocks a :
  Forall (fun e => uuid e = None) entries ->
  is_Some (attributeTools fuel entries e blocks a).
Proof.
  intros Hall. revert a. induction blocks as [|b blocks IH]; intros a; simpl; [done|].
  destruct (isToolUse b) as [name|]; [|done].
  unfold toolRootOf. rewrite findByUuid_no_ids, walkToolRoot_dangling by done.
  simpl. apply IH.
Qed.

Lemma firstPassEntry_no_ids fuel entries e a :
  Forall (fun e => uuid e = None) entries ->
  is_Some (firstPassEntry fuel entries e a).
Proof.
  intros Hall. unfold firstPassEntry.
  assert (is_Some (if bool_decide (type e = "assistant")
                   then match content e with
                        | Some (ContentBlocks blocks) =>
                            attributeTools fuel entries e blocks a
                        | _ => Some a
                        end
                   else Some a)) as [a1 ->].
  { case_bool_decide; [|done].
    destruct (content e) as [[?|blocks]|]; try done.
    by apply attributeTools_no_ids. }
  simpl. destruct (isUser e); [|done].
  destruct (toolUseResult e) as [r|]; [|done].
  destruct (truthyO (filePath r)); [|done].
  unfold editRootOf. rewrite findByUuid_no_ids, walkEditRoot_dangling by done.
  done.
Qed.

Lemma firstPass_no_ids fuel entries :
  Forall (fun e => uuid e = None) entries -> is_Some (firstPass fuel entries).
Proof.
  intros Hall. unfold firstPass. generalize noAttribution.
  generalize entries at 2. intros rest.
  induction rest as [|e rest IH]; intros a; simpl; [done|].
  destruct (firstPassEntry_no_ids fuel entries e a Hall) as [a' ->]. simpl.
  apply IH.
Qed.

Lemma secondPassStep_inactive snapshotMap a state e :
  secondPassStep ∅ snapshotMap a state e = state.
Proof.
  unfold secondPassStep, isPromptEntry.
  by destruct (isUser e), (negb (hasTextContent e)), (isMeta e), (uuid e).
Qed.

Lemma secondPass_empty_active snapshotMap a entries :
  secondPass ∅ snapshotMap a entries = [].
Proof.
  unfold secondPass. generalize (eq_refl : (@nil ParsedPrompt, 0).1 = []).
  generalize (@nil ParsedPrompt, 0).
  induction entries as [|e entries IH]; intros st Hst; simpl; [done|].
  rewrite secondPassStep_inactive. by apply IH.
Qed.

Lemma thirdPass_nil latest : thirdPass latest [] = [].
Proof. done. Qed.

Section ParserFacts.
Context `{PathOps}.
Variable homedir : string.
Variable JSON_parse : string -> option TranscriptEntry.

(** C1 (the code departs from the claim).  In a log in which no event carries
    an id the active-id set is empty, and then the session has no prompt at
    all: the guard [!activeUuids.has(userEntry.uuid)] skips every user event.
    The claim, and the comment next to [return activeUuids], expect every
    plain-text, non-meta user event to give a prompt. *)
Theorem idless_log_has_no_prompt fuel fs path :
  existsSync fs path = true ->
  loadEntries JSON_parse (readFileSync fs path) <> [] ->
  Forall (fun e => uuid e = None) (loadEntries JSON_parse (readFileSync fs path)) ->
  findActiveConversationPath fuel (loadEntries JSON_parse (readFileSync fs path))
    = Some ∅
  /\ exists session,
       parseTranscript homedir JSON_parse fuel fs path = Some (Some session)
       /\ prompts session = [].
Proof.
  intros Hex Hne Hall.
  assert (findActiveConversationPath fuel
            (loadEntries JSON_parse (readFileSync fs path)) = Some ∅) as Hactive.
  { unfold findActiveConversationPath. rewrite lastEntry_no_ids; [done|].
    eapply Forall_impl; [exact Hall|]. intros e He. unfold getUuid. by rewrite He. }
  split; [done|].
  unfold parseTranscript, assembleSession. rewrite Hex. simpl.
  rewrite bool_decide_eq_false_2
    by (intros Hlen; by apply length_zero_iff_nil in Hlen).
  rewrite Hactive. simpl.
  destruct (firstPass_no_ids fuel _ Hall) as [a ->]. simpl.
  eexists. split; [done|]. simpl. by rewrite secondPass_empty_active.
Qed.
End ParserFacts.

Lemma idless_log_has_no_prompt_witness :
  let decode := Samples.decodeTable Samples.idlessTable in
  let entries := loadEntries decode (readFileSync Samples.idlessDisk "/log.jsonl") in
  (exists e, e ∈ entries /\ isUser e = true /\ hasTextContent e = true
             /\ isMeta e = false)
  /\ findActiveConversationPath 8 entries = Some ∅
  /\ exists session,
       parseTranscript (H := Posix.ops) "/home/u" decode 8 Samples.idlessDisk
         "/log.jsonl" = Some (Some session)
       /\ prompts session = [].
Proof.
  intros decode entries. split.
  - exists (Samples.userText None None "hello").
    split; [|done]. vm_compute. apply list_elem_of_here.
  - apply (idless_log_has_no_prompt (H := Posix.ops) "/home/u" decode 8
             Samples.idlessDisk "/log.jsonl").
    + reflexivity.
    + vm_compute. discriminate.
    + vm_compute. repeat constructor.
Defined.

(** *** The id lookup table *)

Lemma entryByUuid_snoc entries e :
  entryByUuid (entries ++ [e]) =
    match getUuid e with
    | Some u => <[u := e]> (entryByUuid entries)
    | None => entryByUuid entries
    end.
Proof. unfold entryByUuid. by rewrite foldl_app. Qed.

Lemma idsOf_snoc entries e :
  idsOf (entries ++ [e]) = idsOf entries ++ from_option (fun u => [u]) [] (getUuid e).
Proof.
  unfold idsOf. rewrite omap_app. simpl. by destruct (getUuid e).
Qed.

Lemma entryByUuid_unknown entries u :
  u ∉ idsOf entries -> entryByUuid entries !! u = None.
Proof.
  induction entries as [|e entries IH] using rev_ind; intros Hu; [done|].
  rewrite idsOf_snoc in Hu. rewrite entryByUuid_snoc.
  apply not_elem_of_app in Hu as [Hu He].
  destruct (getUuid e) as [u'|]; [|by apply IH].
  rewrite lookup_insert_ne; [by apply IH|]. set_solver.
Qed.

Lemma idsOf_elem entries e u :
  e ∈ entries -> getUuid e = Some u -> u ∈ idsOf entries.
Proof. intros He Hu. unfold idsOf. apply list_elem_of_omap. eauto. Qed.

(** With unique ids every entry is found under its own id. *)
Lemma entryByUuid_unique entries e u :
  NoDup (idsOf entries) -> e ∈ entries -> getUuid e = Some u ->
  entryByUuid entries !! u = Some e.
Proof.
  induction entries as [|x entries IH] using rev_ind; intros Hnd He Hu.
  { by apply elem_of_nil in He. }
  rewrite idsOf_snoc in Hnd. rewrite entryByUuid_snoc.
  apply NoDup_app in Hnd as (Hnd & Hdisj & _).
  apply elem_of_app in He as [He|He].
  - pose proof (idsOf_elem _ _ _ He Hu) as Hin.
    destruct (getUuid x) as [u'|] eqn:Hx; [|by apply IH].
    rewrite lookup_insert_ne; [by apply IH|].
    intros ->. apply (Hdisj u Hin). simpl. set_solver.
  - apply list_elem_of_singleton in He as ->. rewrite Hu.
    by rewrite lookup_insert_eq.
Qed.

Lemma lastEntry_Some entries e :
  lastEntry entries = Some e -> e ∈ entries /\ is_Some (getUuid e).
Proof.
  unfold lastEntry. intros Hfind. apply find_some in Hfind as [Hin Hid].
  split.
  - apply list_elem_of_In. by apply in_rev.
  - by apply bool_decide_eq_true_1 in Hid.
Qed.

(** *** The second and third pass *)

Lemma isPromptEntry_spec activeUuids e u :
  isPromptEntry activeUuids e = Some u <-> ActivePrompt activeUuids e u.
Proof.
  unfold isPromptEntry, ActivePrompt, isUser, hasTextContent. split.
  - case_bool_decide; [|done].
    destruct (content e) as [[s|?]|]; simpl; try done.
    destruct (isMeta e); [done|].
    destruct (uuid e) as [u'|]; [|done].
    case_bool_decide; [|done]. intros [= ->]. naive_solver.
  - intros (Hty & [s Hs] & Hmeta & Hu & Hin).
    rewrite bool_decide_eq_true_2, Hs, Hmeta, Hu by done. simpl.
    by rewrite bool_decide_eq_true_2.
Qed.

Lemma isPromptEntry_None activeUuids e :
  isPromptEntry activeUuids e = None <-> ~ exists u, ActivePrompt activeUuids e u.
Proof.
  split.
  - intros Hnone [u Hu]. apply isPromptEntry_spec in Hu. congruence.
  - intros Hno. destruct (isPromptEntry activeUuids e) as [u|] eqn:He; [|done].
    destruct Hno. exists u. by apply isPromptEntry_spec.
Qed.

Lemma secondPass_fold activeUuids snapshotMap a entries ps n :
  foldl (secondPassStep activeUuids snapshotMap a) (ps, n) entries =
    (ps ++ imap (fun i e => buildPrompt snapshotMap a (S (n + i))
                              (default "" (uuid e)) e)
                (filter (fun e => exists u, ActivePrompt activeUuids e u) entries),
     n + length (filter (fun e => exists u, ActivePrompt activeUuids e u) entries)).
Proof.
  revert ps n. induction entries as [|e entries IH]; intros ps n; simpl.
  { by rewrite app_nil_r, Nat.add_0_r. }
  rewrite filter_cons. unfold secondPassStep at 2.
  destruct (decide (exists u, ActivePrompt activeUuids e u)) as [[u Hu]|Hno].
  - pose proof Hu as Hu'. apply isPromptEntry_spec in Hu' as ->.
    destruct Hu as (_ & _ & _ & Hid & _).
    simpl. rewrite IH, <- app_assoc. simpl.
    rewrite Hid, Nat.add_0_r. simpl. f_equal; [|lia].
    do 2 f_equal. apply imap_ext. intros i x _. simpl. do 2 f_equal. lia.
  - apply isPromptEntry_None in Hno as ->. apply IH.
Qed.

(** The second pass yields one prompt per active plain-text user event, in
    log order, the [i]-th of them numbered [i + 1]. *)
Lemma secondPass_spec activeUuids snapshotMap a entries :
  secondPass activeUuids snapshotMap a entries =
    imap (fun i e => buildPrompt snapshotMap a (S i) (default "" (uuid e)) e)
         (filter (fun e => exists u, ActivePrompt activeUuids e u) entries).
Proof. unfold secondPass. by rewrite secondPass_fold. Qed.

Lemma thirdPass_lookup latest ps i :
  thirdPass latest ps !! i =
    (fun p => setAfterSnapshot
                (if bool_decide (i < length ps - 1)
                 then default [] (beforeSnapshot <$> ps !! (i + 1))
                 else latest) p) <$> ps !! i.
Proof.
  unfold thirdPass. rewrite list_lookup_imap.
  destruct (ps !! i); simpl; [|done]. by case_bool_decide.
Qed.

Lemma thirdPass_length latest ps : length (thirdPass latest ps) = length ps.
Proof. unfold thirdPass. apply length_imap. Qed.

(** The third pass changes [afterSnapshot] and nothing else. *)
Lemma thirdPass_shape latest ps :
  Forall2 (fun q p => exists snap, q = setAfterSnapshot snap p)
          (thirdPass latest ps) ps.
Proof.
  apply Forall2_same_length_lookup. split.
  - apply thirdPass_length.
  - intros i q p Hq Hp. rewrite thirdPass_lookup, Hp in Hq.
    injection Hq as <-. eauto.
Qed.

Lemma secondPass_linked_spec activeUuids snapshotMap a latest entries :
  let ps := thirdPass latest (secondPass activeUuids snapshotMap a entries) in
  Forall2 (fun p e => ActivePrompt activeUuids e (p_messageId p)
                      /\ text p = contentText e)
          ps (filter (fun e => exists u, ActivePrompt activeUuids e u) entries)
  /\ promptNumber <$> ps = seq 1 (length ps).
Proof.
  intros ps. subst ps. split.
  - apply Forall2_same_length_lookup. split.
    { by rewrite thirdPass_length, secondPass_spec, length_imap. }
    intros i p e Hp He. rewrite thirdPass_lookup, secondPass_spec in Hp.
    rewrite !list_lookup_imap, He in Hp. injection Hp as <-. simpl.
    split; [|done].
    apply list_elem_of_lookup_2, list_elem_of_filter in He as [[u Hu] _].
    destruct Hu as (? & ? & ? & Hid & ?). rewrite Hid. simpl.
    repeat split; done.
  - apply list_eq. intros i.
    rewrite list_lookup_fmap, thirdPass_lookup, thirdPass_length.
    rewrite secondPass_spec, length_imap, !list_lookup_imap.
    destruct (filter _ entries !! i) as [e|] eqn:He; simpl.
    + apply lookup_lt_Some in He as Hlt.
      symmetry. by apply lookup_seq.
    + apply lookup_ge_None in He. symmetry. apply lookup_ge_None.
      by rewrite length_seq.
Qed.

Lemma secondPass_messageId_active activeUuids snapshotMap a latest entries p :
  p ∈ thirdPass latest (secondPass activeUuids snapshotMap a entries) ->
  p_messageId p ∈ activeUuids.
Proof.
  intros Hp.
  destruct (secondPass_linked_spec activeUuids snapshotMap a latest entries)
    as [Hall _].
  apply list_elem_of_lookup in Hp as [i Hp].
  destruct (Forall2_lookup_l _ _ _ _ _ Hall Hp) as (e & _ & He & _).
  by destruct He as (_ & _ & _ & _ & ?).
Qed.

(** C3.  In a log with unique ids whose last identified event is D, at the
    end of the parent chain A <- B <- C <- D with A a root, the active-id set
    is exactly {A, B, C, D}; an id outside it, such as that of a sibling
    branch parented at a chain node, is not in the set and no prompt is
    produced for it. *)
Theorem active_path_of_chain fuel entries eA eB eC eD A B C D :
  NoDup (idsOf entries) ->
  eA ∈ entries -> eB ∈ entries -> eC ∈ entries ->
  lastEntry entries = Some eD ->
  getUuid eA = Some A -> getUuid eB = Some B ->
  getUuid eC = Some C -> getUuid eD = Some D ->
  getParentUuid eD = Some C -> getParentUuid eC = Some B ->
  getParentUuid eB = Some A ->
  (forall p, getParentUuid eA = Some p -> p ∉ idsOf entries) ->
  4 <= fuel ->
  findActiveConversationPath fuel entries = Some {[A; B; C; D]}
  /\ forall x, x ∉ ({[A; B; C; D]} : gset string) ->
       forall snapshotMap a latest p,
         p ∈ thirdPass latest (secondPass {[A; B; C; D]} snapshotMap a entries) ->
         p_messageId p <> x.
Proof.
  intros Hnd HinA HinB HinC Hlast HA HB HC HD HDp HCp HBp Hroot Hfuel.
  split.
  - unfold findActiveConversationPath. rewrite Hlast.
    destruct fuel as [|[|[|[|fuel]]]]; try lia. simpl.
    rewrite HD, HDp, (entryByUuid_unique _ _ _ Hnd HinC HC).
    rewrite HC, HCp, (entryByUuid_unique _ _ _ Hnd HinB HB).
    rewrite HB, HBp, (entryByUuid_unique _ _ _ Hnd HinA HA).
    rewrite HA.
    assert (forall s : gset string,
              {[A]} ∪ ({[B]} ∪ ({[C]} ∪ ({[D]} ∪ ∅))) = s -> Some s = Some {[A; B; C; D]})
      as Hset.
    { intros s <-. f_equal. rewrite (right_id_L ∅ (∪)).
      by rewrite !(assoc_L (∪)). }
    destruct (getParentUuid eA) as [p|] eqn:HAp; [|by apply Hset].
    rewrite entryByUuid_unknown by (by apply Hroot). by apply Hset.
  - intros x Hx snapshotMap a latest p Hp Heq. subst x. apply Hx.
    by apply secondPass_messageId_active in Hp.
Qed.

Lemma active_path_of_chain_witness :
  findActiveConversationPath 4 Samples.rewoundLog = Some {[ "A"; "B"; "C"; "D" ]}
  /\ forall x, x ∉ ({[ "A"; "B"; "C"; "D" ]} : gset string) ->
       forall snapshotMap a latest p,
         p ∈ thirdPass latest
               (secondPass {[ "A"; "B"; "C"; "D" ]} snapshotMap a Samples.rewoundLog) ->
         p_messageId p <> x.
Proof.
  apply (active_path_of_chain 4 Samples.rewoundLog
           Samples.eA Samples.eB Samples.eC Samples.eD).
  - apply (bool_decide_unpack _). vm_compute. exact I.
  - unfold Samples.rewoundLog. in_list.
  - unfold Samples.rewoundLog. in_list.
  - unfold Samples.rewoundLog. in_list.
  - reflexivity.
  - reflexivity.
  - reflexivity.
  - reflexivity.
  - reflexivity.
  - reflexivity.
  - reflexivity.
  - reflexivity.
  - intros p Hp. discriminate Hp.
  - lia.
Defined.

Section SessionFacts.
Context `{PathOps}.
Variable homedir : string.
Variable JSON_parse : string -> option TranscriptEntry.

(** What [parseTranscript] returns once the file exists, the log is not
    empty and the fuel is enough for the parent walks. *)
Lemma parseTranscript_returns fuel fs path activeUuids a :
  existsSync fs path = true ->
  loadEntries JSON_parse (readFileSync fs path) <> [] ->
  findActiveConversationPath fuel (loadEntries JSON_parse (readFileSync fs path))
    = Some activeUuids ->
  firstPass fuel (loadEntries JSON_parse (readFileSync fs path)) = Some a ->
  exists session,
    parseTranscript homedir JSON_parse fuel fs path = Some (Some session)
    /\ prompts session =
         thirdPass
           (getLatestSnapshotFromDisk homedir fs (s_sessionId session)
              (latestSnapshotOf (loadEntries JSON_parse (readFileSync fs path))))
           (secondPass activeUuids
              (snapshotMapOf (loadEntries JSON_parse (readFileSync fs path))) a
              (loadEntries JSON_parse (readFileSync fs path))).
Proof.
  intros Hex Hne Hactive Hfirst.
  unfold parseTranscript, assembleSession. rewrite Hex. simpl.
  rewrite bool_decide_eq_false_2
    by (intros Hlen; by apply length_zero_iff_nil in Hlen).
  rewrite Hactive. simpl. rewrite Hfirst. simpl.
  eexists. split; [done|]. done.
Qed.
End SessionFacts.

(** *** Linking the snapshots *)

Lemma latestSnapshotOf_snoc entries e :
  latestSnapshotOf (entries ++ [e]) =
    if isSnapshotEntry e then trackedFileBackups e else latestSnapshotOf entries.
Proof. unfold latestSnapshotOf. by rewrite foldl_app. Qed.

(** The latest known snapshot is the one of the last file-history-snapshot
    event of the log, and empty when the log has none. *)
Lemma latestSnapshotOf_last entries :
  latestSnapshotOf entries =
    default [] (trackedFileBackups <$> List.find isSnapshotEntry (rev entries)).
Proof.
  induction entries as [|e entries IH] using rev_ind; [done|].
  rewrite latestSnapshotOf_snoc, rev_app_distr. simpl.
  by destruct (isSnapshotEntry e).
Qed.

Lemma thirdPass_links latest ps :
  (forall i p q,
      thirdPass latest ps !! i = Some p -> thirdPass latest ps !! S i = Some q ->
      afterSnapshot p = beforeSnapshot q)
  /\ (forall p, last (thirdPass latest ps) = Some p -> afterSnapshot p = latest).
Proof.
  split.
  - intros i p q Hp Hq. rewrite thirdPass_lookup in Hp, Hq.
    destruct (ps !! i) as [p0|] eqn:Hp0; [|done].
    destruct (ps !! S i) as [q0|] eqn:Hq0; [|done].
    injection Hp as <-. injection Hq as <-. simpl.
    pose proof (lookup_lt_Some _ _ _ Hq0) as Hlt.
    rewrite bool_decide_eq_true_2 by lia.
    by rewrite Nat.add_1_r, Hq0.
  - intros p Hp. rewrite last_lookup, thirdPass_length, thirdPass_lookup in Hp.
    destruct (ps !! pred (length ps)) as [p0|]; [|done].
    injection Hp as <-. simpl.
    by rewrite bool_decide_eq_false_2 by lia.
Qed.

(** *** Tool usage attribution *)

(** The walk of the tool attribution stops at the first user entry it meets,
    whatever that entry's content. *)
Lemma walkToolRoot_stops_at_user fuel entries rootId c :
  isUser c = true -> walkToolRoot fuel entries rootId (Some c) = Some rootId.
Proof. intros Hc. destruct fuel; simpl; by rewrite Hc. Qed.

(** C2 (the code departs from the claim).  The tool walk tests
    [current.type !== 'user'] only, so it stops at a tool-result user entry.
    In the log u1 <- a1 <- t1 <- a2 <- t2, where t1 and t2 are tool results,
    the tool "Edit" of a2 is recorded against t1, whose content is not plain
    text, and the prompt u1 lists "Read" only; the edited-file walk, which
    also tests [typeof content !== 'string'], reaches u1 from t2. *)
Theorem tool_use_recorded_against_tool_result :
  toolRootOf 10 Samples.toolLog Samples.a2 = Some (Some "t1")
  /\ findByUuid Samples.toolLog (Some "t1") = Some Samples.t1
  /\ isUser Samples.t1 = true
  /\ hasTextContent Samples.t1 = false
  /\ editRootOf 10 Samples.toolLog Samples.t2 = Some (Some "u1")
  /\ (exists a, firstPass 10 Samples.toolLog = Some a
                /\ toolsPerPrompt a !! "t1" = Some ["Edit"]
                /\ toolsPerPrompt a !! "u1" = Some ["Read"])
  /\ exists session,
       parseTranscript (H := Posix.ops) "/home/u"
         (Samples.decodeTable Samples.toolTable) 10 Samples.toolDisk "/log.jsonl"
         = Some (Some session)
       /\ (fun p => (p_messageId p, toolsUsed p)) <$> prompts session
          = [("u1", ["Read"])].
Proof.
  repeat split; try reflexivity.
  - eexists. split; [vm_compute; reflexivity|]. split; reflexivity.
  - eexists. split; [vm_compute; reflexivity|]. reflexivity.
Qed.

(** ** The event log loader *)

Lemma trimStart_blank s : isBlank s = true -> trimStart s = "".
Proof.
  induction s as [|c s IH]; simpl; [done|].
  intros [Hc Hs]%andb_true_iff. rewrite Hc. by apply IH.
Qed.

Lemma splitLines_blank s : isBlank s = true -> splitLines s = [].
Proof.
  intros Hs. unfold splitLines, trim. by rewrite trimStart_blank.
Qed.

Section LoaderFacts.
Context `{PathOps}.
Variable homedir : string.
Variable JSON_parse : string -> option TranscriptEntry.

Lemma decodeLines_fold acc lines :
  foldl (fun entries line =>
           match JSON_parse line with
           | Some entry => entries ++ [entry]
           | None => entries
           end) acc lines = acc ++ omap JSON_parse lines.
Proof.
  revert acc. induction lines as [|line lines IH]; intros acc; simpl.
  { by rewrite app_nil_r. }
  rewrite IH. destruct (JSON_parse line); [|done]. by rewrite <- app_assoc.
Qed.

(** Every line is decoded on its own: the entries are the decoded values of
    the lines that decode, in order. *)
Lemma loadEntries_omap fileContent :
  loadEntries JSON_parse fileContent = omap JSON_parse (splitLines fileContent).
Proof. unfold loadEntries, decodeLines. by rewrite decodeLines_fold. Qed.

Lemma omap_all_decoded lines entries :
  Forall2 (fun line e => JSON_parse line = Some e) lines entries ->
  omap JSON_parse lines = entries.
Proof.
  induction 1 as [|line e lines entries Hline _ IH]; [done|].
  change (omap JSON_parse (line :: lines))
    with (match JSON_parse line with
          | Some e' => e' :: omap JSON_parse lines
          | None => omap JSON_parse lines
          end).
  by rewrite Hline, IH.
Qed.

Lemma assembleSession_not_null fuel fs path entries :
  entries <> [] -> assembleSession homedir fuel fs path entries <> Some None.
Proof.
  intros Hne. unfold assembleSession.
  rewrite bool_decide_eq_false_2
    by (intros Hlen; by apply length_zero_iff_nil in Hlen).
  destruct (findActiveConversationPath fuel entries); simpl; [|done].
  by destruct (firstPass fuel entries).
Qed.

(** C9.  The lines of a log are decoded one by one and a line that fails to
    decode adds nothing: when one line of the log is malformed and the others
    decode (ten of them in the claim's example), the entries are the decoded
    values of those others, the parser goes on with exactly them, and it does
    not return "no session". *)
Theorem malformed_line_is_skipped fs path pre bad post entries :
  existsSync fs path = true ->
  splitLines (readFileSync fs path) = pre ++ bad :: post ->
  JSON_parse bad = None ->
  Forall2 (fun line e => JSON_parse line = Some e) (pre ++ post) entries ->
  entries <> [] ->
  loadEntries JSON_parse (readFileSync fs path) = entries
  /\ forall fuel,
       parseTranscript homedir JSON_parse fuel fs path
         = assembleSession homedir fuel fs path entries
       /\ parseTranscript homedir JSON_parse fuel fs path <> Some None.
Proof.
  intros Hex Hlines Hbad Hgood Hne.
  assert (loadEntries JSON_parse (readFileSync fs path) = entries) as Hload.
  { rewrite loadEntries_omap, Hlines, omap_app. simpl. rewrite Hbad.
    rewrite <- omap_app. by apply omap_all_decoded. }
  split; [done|]. intros fuel.
  unfold parseTranscript. rewrite Hex, Hload. simpl.
  split; [done|]. by apply assembleSession_not_null.
Qed.

(** C10.  When the transcript exists and no line of it decodes (it is empty,
    it is white space only, or every line is malformed), [parseTranscript]
    returns [null]. *)
Theorem undecodable_log_gives_no_session fuel fs path :
  existsSync fs path = true ->
  isBlank (readFileSync fs path) = true
  \/ Forall (fun line => JSON_parse line = None) (splitLines (readFileSync fs path)) ->
  parseTranscript homedir JSON_parse fuel fs path = Some None.
Proof.
  intros Hex Hnone.
  assert (loadEntries JSON_parse (readFileSync fs path) = []) as Hload.
  { rewrite loadEntries_omap. destruct Hnone as [Hblank|Hbad].
    - by rewrite splitLines_blank.
    - induction Hbad as [|line lines Hline _ IH]; simpl; [done|].
      by rewrite Hline. }
  unfold parseTranscript, assembleSession. rewrite Hex, Hload. done.
Qed.
End LoaderFacts.

Lemma malformed_line_is_skipped_witness :
  let decode := Samples.decodeTable Samples.rewoundTable in
  length Samples.rewoundLog = 10
  /\ (loadEntries decode (readFileSync Samples.damagedDisk "/log.jsonl")
      = Samples.rewoundLog
      /\ forall fuel,
           parseTranscript (H := Posix.ops) "/home/u" decode fuel Samples.damagedDisk
             "/log.jsonl"
             = assembleSession (H := Posix.ops) "/home/u" fuel Samples.damagedDisk
                 "/log.jsonl" Samples.rewoundLog
           /\ parseTranscript (H := Posix.ops) "/home/u" decode fuel
                Samples.damagedDisk "/log.jsonl" <> Some None)
  /\ exists session,
       parseTranscript (H := Posix.ops) "/home/u" decode 10 Samples.damagedDisk
         "/log.jsonl" = Some (Some session)
       /\ length (prompts session) = 2.
Proof.
  intros decode. split; [reflexivity|]. split.
  - apply (malformed_line_is_skipped (H := Posix.ops) "/home/u" decode
             Samples.damagedDisk "/log.jsonl"
             (take 4 Samples.rewoundLines) "{user:S,conte"
             (drop 4 Samples.rewoundLines)).
    + reflexivity.
    + vm_compute. reflexivity.
    + reflexivity.
    + vm_compute. repeat constructor.
    + discriminate.
  - eexists. split; [vm_compute; reflexivity|reflexivity].
Defined.

Lemma undecodable_log_gives_no_session_witness :
  parseTranscript (H := Posix.ops) "/home/u"
    (Samples.decodeTable Samples.rewoundTable) 10 Samples.blankDisk "/log.jsonl"
    = Some None
  /\ parseTranscript (H := Posix.ops) "/home/u" (fun _ => None) 10
       Samples.rewoundDisk "/log.jsonl" = Some None.
Proof.
  split.
  - apply (undecodable_log_gives_no_session (H := Posix.ops)).
    + reflexivity.
    + left. reflexivity.
  - apply (undecodable_log_gives_no_session (H := Posix.ops)).
    + reflexivity.
    + right. vm_compute. repeat constructor.
Defined.

(** ** The backup store reconciler *)

Lemma groupByHash_snoc files file :
  groupByHash (files ++ [file]) =
    match matchBackupName file with
    | Some (hash, v) =>
        <[hash := default [] (groupByHash files !! hash) ++ [(v, file)]]>
          (groupByHash files)
    | None => groupByHash files
    end.
Proof. unfold groupByHash. by rewrite foldl_app. Qed.

Lemma diskVersions_snoc files file hash :
  diskVersions (files ++ [file]) hash =
    diskVersions files hash ++
      match matchBackupName file with
      | Some (h, v) => if bool_decide (h = hash) then [(v, file)] else []
      | None => []
      end.
Proof.
  unfold diskVersions. rewrite omap_app. f_equal. simpl.
  destruct (matchBackupName file) as [[h v]|]; [|done]. by case_bool_decide.
Qed.

(** [filesByHash.get(hash)] holds the backups of [hash], in directory order;
    a list it holds is never empty. *)
Lemma groupByHash_lookup files hash :
  groupByHash files !! hash =
    match diskVersions files hash with
    | [] => None
    | versions => Some versions
    end.
Proof.
  induction files as [|file files IH] using rev_ind; [done|].
  rewrite groupByHash_snoc, diskVersions_snoc.
  destruct (matchBackupName file) as [[h v]|].
  - case_bool_decide as Hh.
    + subst h. rewrite lookup_insert_eq, IH.
      by destruct (diskVersions files hash).
    + rewrite lookup_insert_ne, app_nil_r by done. exact IH.
  - by rewrite app_nil_r.
Qed.

Lemma latestVersion_max first others :
  latestVersion first others ∈ first :: others
  /\ forall x, x ∈ first :: others -> (x.1 <= (latestVersion first others).1)%N.
Proof.
  unfold latestVersion. revert first.
  induction others as [|curr others IH]; intros first; simpl.
  { split; [apply list_elem_of_here|].
    intros x ->%list_elem_of_singleton. lia. }
  destruct (N.ltb_spec first.1 curr.1) as [Hlt|Hge].
  - destruct (IH curr) as [Hin Hmax]. split.
    + by apply list_elem_of_further.
    + intros x [->|Hx]%elem_of_cons.
      * specialize (Hmax curr (list_elem_of_here _ _)). lia.
      * by apply Hmax.
  - destruct (IH first) as [Hin Hmax]. split.
    + apply elem_of_cons in Hin as [->|Hin]; [apply list_elem_of_here|].
      by do 2 apply list_elem_of_further.
    + intros x [->|[->|Hx]%elem_of_cons]%elem_of_cons.
      * apply Hmax, list_elem_of_here.
      * specialize (Hmax first (list_elem_of_here _ _)). lia.
      * by apply Hmax, list_elem_of_further.
Qed.

Lemma reconcile_keys files baseSnapshot :
  (reconcile files baseSnapshot).*1 = baseSnapshot.*1.
Proof.
  unfold reconcile. induction baseSnapshot as [|[path b] base IH]; [done|].
  simpl in *. by f_equal.
Qed.

Lemma spanDigits_app l ds rest : spanDigits l = (ds, rest) -> l = ds ++ rest.
Proof.
  revert ds rest. induction l as [|c l IH]; intros ds rest; simpl.
  { by intros [= <- <-]. }
  destruct (isDigit c); [|by intros [= <- <-]].
  destruct (spanDigits l) as [ds' rest']. intros [= <- <-].
  simpl. f_equal. by apply IH.
Qed.

(** A name that matches is [hash ++ "@v" ++ digits] with digits present. *)
Lemma matchBackupName_shape file hash v :
  matchBackupName file = Some (hash, v) ->
  exists digits,
    list_ascii_of_string file
      = list_ascii_of_string hash ++ "@"%char :: "v"%char :: digits
    /\ digits <> [].
Proof.
  unfold matchBackupName.
  destruct (spanDigits (rev (list_ascii_of_string file))) as [revDigits rest] eqn:Hspan.
  apply spanDigits_app in Hspan.
  destruct revDigits as [|d revDigits]; [done|].
  destruct rest as [|c1 [|c2 revHash]]; try done.
  destruct (Ascii.eqb_spec c1 "v"); [|done].
  destruct (Ascii.eqb_spec c2 "@"); [|done]. subst c1 c2. simpl.
  destruct (bool_decide (revHash = [])); [done|]. simpl.
  destruct (forallb _ revHash); [|done]. intros [= <- <-].
  exists (rev (d :: revDigits)). split.
  - rewrite list_ascii_of_string_of_list_ascii.
    apply (f_equal (@rev ascii)) in Hspan. rewrite rev_involutive in Hspan.
    rewrite Hspan, rev_app_distr. simpl. by rewrite <- !app_assoc.
  - simpl. intros Hnil. by apply app_eq_nil in Hnil as [_ ?].
Qed.

Lemma matchBackupName_truthy file hash v :
  matchBackupName file = Some (hash, v) -> truthy file = true.
Proof.
  intros (digits & Hfile & _)%matchBackupName_shape.
  destruct file; [|done]. simpl in Hfile. by destruct (list_ascii_of_string hash).
Qed.

Lemma beforeFirstAt_app l r :
  "@"%char ∉ l ->
  beforeFirstAt (string_of_list_ascii (l ++ "@"%char :: r)) = string_of_list_ascii l.
Proof.
  induction l as [|c l IH]; intros Hl; simpl; [done|].
  apply not_elem_of_cons in Hl as [Hc Hl].
  destruct (Ascii.eqb_spec c "@"); [done|]. by rewrite IH.
Qed.

(** For a hash without '@' the part of the name before its first '@' is the
    hash that the pattern captures. *)
Lemma beforeFirstAt_hash file hash v :
  matchBackupName file = Some (hash, v) ->
  "@"%char ∉ list_ascii_of_string hash ->
  beforeFirstAt file = hash.
Proof.
  intros (digits & Hfile & _)%matchBackupName_shape Hat.
  rewrite <- (string_of_list_ascii_of_string file), Hfile.
  rewrite beforeFirstAt_app by done. apply string_of_list_ascii_of_string.
Qed.

(** The reconciler on one entry whose recorded name has an '@'-free hash:
    with a newer backup of that hash on disk the entry takes the name and
    version of a backup of greatest version; without one it is unchanged. *)
Lemma reconcileBackup_spec files b hash v0 :
  matchBackupName (backupFileName b) = Some (hash, v0) ->
  "@"%char ∉ list_ascii_of_string hash ->
  ((exists v file, (v, file) ∈ diskVersions files hash /\ (version b < Z.of_N v)%Z) ->
   exists v file,
     (v, file) ∈ diskVersions files hash
     /\ (forall v' file', (v', file') ∈ diskVersions files hash -> (v' <= v)%N)
     /\ reconcileBackup (groupByHash files) b
        = {| backupFileName := file; version := Z.of_N v;
             backupTime := backupTime b |})
  /\ ((forall v file, (v, file) ∈ diskVersions files hash -> (Z.of_N v <= version b)%Z) ->
      reconcileBackup (groupByHash files) b = b).
Proof.
  intros Hmatch Hat. unfold reconcileBackup.
  rewrite (matchBackupName_truthy _ _ _ Hmatch), Hmatch. simpl.
  rewrite (beforeFirstAt_hash _ _ _ Hmatch Hat), groupByHash_lookup.
  destruct (diskVersions files hash) as [|first others] eqn:Hdisk.
  { split; [|done]. intros (v & file & Hin & _). by apply elem_of_nil in Hin. }
  destruct (latestVersion_max first others) as [Hin Hmax].
  destruct (latestVersion first others) as [v file] eqn:Hlatest. simpl in *.
  split.
  - intros (v' & file' & Hin' & Hnewer).
    pose proof (Hmax _ Hin') as Hle. simpl in Hle.
    exists v, file. split; [done|]. split.
    + intros v'' file'' Hin''. apply (Hmax (v'', file'') Hin'').
    + destruct (Z.ltb_spec (version b) (Z.of_N v)); [done|lia].
  - intros Hold. specialize (Hold _ _ Hin).
    destruct (Z.ltb_spec (version b) (Z.of_N v)); [lia|done].
Qed.

Section ReconcilerFacts.
Context `{PathOps}.
Variable homedir : string.

(** A missing or unreadable backup directory leaves the snapshot as it is. *)
Lemma getLatestSnapshotFromDisk_fail_soft fs sessionId baseSnapshot :
  existsSync fs (join [claudeDir homedir; "file-history"; sessionId]) = false
  \/ readdirSync fs (join [claudeDir homedir; "file-history"; sessionId]) = None ->
  getLatestSnapshotFromDisk homedir fs sessionId baseSnapshot = baseSnapshot.
Proof.
  unfold getLatestSnapshotFromDisk. intros [-> | ->]; [done|].
  by destruct (existsSync fs _).
Qed.

(** With a readable directory every entry goes through [reconcileBackup]. *)
Lemma getLatestSnapshotFromDisk_listing fs sessionId baseSnapshot files :
  existsSync fs (join [claudeDir homedir; "file-history"; sessionId]) = true ->
  readdirSync fs (join [claudeDir homedir; "file-history"; sessionId]) = Some files ->
  getLatestSnapshotFromDisk homedir fs sessionId baseSnapshot
    = reconcile files baseSnapshot.
Proof. unfold getLatestSnapshotFromDisk. by intros -> ->. Qed.
End ReconcilerFacts.

(** The specification's example: h@v1 recorded, h@v1 and h@v2 on disk. *)
Example reconcile_newer_version :
  reconcile ["h@v1"; "h@v2"] [("f", Samples.backup "h@v1" 1)]
    = [("f", Samples.backup "h@v2" 2)]
  /\ reconcile ["h@v1"] [("f", Samples.backup "h@v1" 1)]
     = [("f", Samples.backup "h@v1" 1)].
Proof. split; reflexivity. Qed.

(** C6 (the code departs from the claim).  The directory scan takes the hash
    of a file name from the pattern's group ([match[1]]), the loop over the
    snapshot takes it as [hashMatch[0].split('@')[0]], the part before the
    first '@'.  For the recorded name a@b@v1, of hash a@b, the loop looks up
    the hash a: the newer backup a@b@v2 of the same hash is not taken, and
    a backup a@v5 of another hash is.  For hashes without '@' the claim holds
    ([reconcileBackup_spec], [getLatestSnapshotFromDisk_fail_soft]). *)
Theorem reconciler_cuts_hash_at_first_at :
  matchBackupName "a@b@v1" = Some ("a@b", 1%N)
  /\ diskVersions ["a@b@v1"; "a@b@v2"] "a@b" = [(1%N, "a@b@v1"); (2%N, "a@b@v2")]
  /\ beforeFirstAt "a@b@v1" = "a"
  /\ reconcile ["a@b@v1"; "a@b@v2"] [("f.ts", Samples.backup "a@b@v1" 1)]
     = [("f.ts", Samples.backup "a@b@v1" 1)]
  /\ getLatestSnapshotFromDisk (H := Posix.ops) "/home/u" Samples.atDisk "s3"
       [("f.ts", Samples.backup "a@b@v1" 1)]
     = [("f.ts", Samples.backup "a@b@v1" 1)]
  /\ diskVersions ["a@v5"] "a@b" = []
  /\ reconcile ["a@v5"] [("f.ts", Samples.backup "a@b@v1" 1)]
     = [("f.ts", Samples.backup "a@v5" 5)].
Proof. repeat split; reflexivity. Qed.

(** ** The change-set deriver *)

Lemma mapGet_Some {V} k (m : list (string * V)) v :
  mapGet k m = Some v -> (k, v) ∈ m.
Proof.
  induction m as [|[k' v'] m IH]; simpl; [done|].
  destruct (String.eqb_spec k' k) as [->|Hne].
  - intros [= ->]. apply list_elem_of_here.
  - intros Hget. apply list_elem_of_further. by apply IH.
Qed.

Lemma mapGet_None {V} k (m : list (string * V)) :
  mapGet k m = None <-> forall v, (k, v) ∉ m.
Proof.
  induction m as [|[k' v'] m IH]; simpl.
  { split; [|done]. intros _ v Hin. by apply elem_of_nil in Hin. }
  destruct (String.eqb_spec k' k) as [->|Hne].
  - split; [done|]. intros Hno. destruct (Hno v'). apply list_elem_of_here.
  - rewrite IH. split.
    + intros Hno v [Heq|Hin]%elem_of_cons; [congruence|]. by apply (Hno v).
    + intros Hno v Hin. apply (Hno v). by apply list_elem_of_further.
Qed.

Lemma findEntry_Some {V} pred (o : list (string * V)) v :
  findEntry pred o = Some v -> exists k, (k, v) ∈ o /\ pred k = true.
Proof.
  unfold findEntry. destruct (List.find _ o) as [[k v']|] eqn:Hfind; [|done].
  simpl. intros [= ->]. apply find_some in Hfind as [Hin Hpred].
  exists k. split; [by apply list_elem_of_In|done].
Qed.

Lemma findEntry_None {V} pred (o : list (string * V)) :
  findEntry pred o = None <-> forall k v, (k, v) ∈ o -> pred k = false.
Proof.
  unfold findEntry. split.
  - destruct (List.find _ o) as [kv|] eqn:Hfind; [done|].
    intros _ k v Hin. apply list_elem_of_In in Hin.
    apply (find_none _ _ Hfind (k, v) Hin).
  - intros Hno. rewrite find_none_intro; [done|].
    intros [k v] Hin. apply (Hno k v). by apply list_elem_of_In.
Qed.

(** [new Set(...)] keeps the first occurrence of every element. *)
Lemma setAdd_fold_elem x acc l :
  x ∈ foldl (fun set p => setAdd p set) acc l <-> x ∈ acc \/ x ∈ l.
Proof.
  revert acc. induction l as [|y l IH]; intros acc; simpl.
  { split; [by left|]. intros [?|Hin]; [done|]. by apply elem_of_nil in Hin. }
  rewrite IH. unfold setAdd. case_bool_decide as Hy.
  - rewrite elem_of_cons. split; [tauto|]. intros [?|[->|?]]; tauto.
  - rewrite elem_of_app, list_elem_of_singleton, elem_of_cons. tauto.
Qed.

Lemma setAdd_fold_NoDup acc l :
  NoDup acc -> NoDup (foldl (fun set p => setAdd p set) acc l).
Proof.
  revert acc. induction l as [|y l IH]; intros acc Hacc; simpl; [done|].
  apply IH. unfold setAdd. case_bool_decide as Hy; [done|].
  apply NoDup_app. split; [done|]. split; [|apply NoDup_singleton].
  intros x Hx ->%list_elem_of_singleton. done.
Qed.

Section ChangeSetFacts.
Context `{PathOps}.
Variable projectRoot : option string.

Lemma lookupBackup_None snapshot p :
  lookupBackup snapshot p = None <-> ~ PresentIn snapshot p.
Proof.
  unfold lookupBackup, PresentIn. split.
  - destruct (mapGet p snapshot) eqn:Hget; [done|].
    intros Hfind (k & b & Hin & [->|Hnorm]).
    + by apply (proj1 (mapGet_None _ _) Hget b).
    + pose proof (proj1 (findEntry_None _ _) Hfind k b Hin) as Hk.
      simpl in Hk. rewrite Hnorm, String.eqb_refl in Hk. done.
  - intros Hno. destruct (mapGet p snapshot) as [b|] eqn:Hget.
    { destruct Hno. exists p, b. split; [by apply mapGet_Some|by left]. }
    apply findEntry_None. intros k b Hin.
    destruct (String.eqb_spec (normalize k) p) as [Hnorm|]; [|done].
    destruct Hno. exists k, b. split; [done|by right].
Qed.

Lemma lookupBackup_Some snapshot p b :
  lookupBackup snapshot p = Some b ->
  exists k, (k, b) ∈ snapshot /\ (k = p \/ normalize k = p).
Proof.
  unfold lookupBackup. destruct (mapGet p snapshot) as [b'|] eqn:Hget.
  - intros [= ->]. exists p. split; [by apply mapGet_Some|by left].
  - intros (k & Hin & Hk)%findEntry_Some. exists k. split; [done|].
    right. by apply String.eqb_eq.
Qed.

Lemma allFiles_NoDup prompt : NoDup (allFiles prompt).
Proof. unfold allFiles. apply setAdd_fold_NoDup, NoDup_nil_2. Qed.

(** The candidates are the normalized keys of the two snapshots. *)
Lemma allFiles_elem prompt p :
  p ∈ allFiles prompt <->
  exists k, k ∈ (beforeSnapshot prompt).*1 ++ (afterSnapshot prompt).*1
            /\ p = normalize k.
Proof.
  unfold allFiles. rewrite setAdd_fold_elem, !elem_of_app.
  rewrite !list_elem_of_In, !in_map_iff.
  setoid_rewrite elem_of_app. setoid_rewrite list_elem_of_fmap.
  setoid_rewrite <- list_elem_of_In.
  split.
  - intros [Hnil|[([k b] & <- & Hin)|([k b] & <- & Hin)]].
    + by apply elem_of_nil in Hnil.
    + exists k. split; [|done]. left. by exists (k, b).
    + exists k. split; [|done]. right. by exists (k, b).
  - intros (k & [([k' b] & -> & Hin)|([k' b] & -> & Hin)] & ->); right.
    + left. by exists (k', b).
    + right. by exists (k', b).
Qed.

Lemma snapshotStep_fold prompt changes detected ps :
  foldl (snapshotStep projectRoot prompt) (changes, detected) ps =
    (changes ++ omap (classifyCandidate projectRoot prompt) ps,
     (foldl (snapshotStep projectRoot prompt) (changes, detected) ps).2).
Proof.
  revert changes detected. induction ps as [|p ps IH]; intros changes detected.
  { simpl. by rewrite app_nil_r. }
  simpl. unfold snapshotStep at 2 4.
  change (omap (classifyCandidate projectRoot prompt) (p :: ps))
    with (match classifyCandidate projectRoot prompt p with
          | Some c => c :: omap (classifyCandidate projectRoot prompt) ps
          | None => omap (classifyCandidate projectRoot prompt) ps
          end).
  destruct (classifyCandidate projectRoot prompt p) as [c|]; simpl.
  - rewrite IH at 1. by rewrite <- app_assoc.
  - apply IH.
Qed.

Lemma classifyCandidate_path prompt p c :
  classifyCandidate projectRoot prompt p = Some c ->
  fc_filePath c = toAbsolutePath projectRoot p.
Proof.
  unfold classifyCandidate.
  destruct (lookupBackup (beforeSnapshot prompt) p),
           (lookupBackup (afterSnapshot prompt) p); try done.
  - case_bool_decide; [|done]. by intros [= <-].
  - by intros [= <-].
  - destruct (resolveOriginal _ _ _ _ _); by intros [= <-].
Qed.

(** What step 2 records as detected: for every candidate that gave a change,
    the candidate, its absolute form and its basename. *)
Lemma snapshotStep_detected prompt changes detected ps x :
  x ∈ (foldl (snapshotStep projectRoot prompt) (changes, detected) ps).2 <->
  x ∈ detected
  \/ exists p, p ∈ ps /\ is_Some (classifyCandidate projectRoot prompt p)
               /\ (x = p \/ x = toAbsolutePath projectRoot p \/ x = basename p).
Proof.
  revert changes detected. induction ps as [|p ps IH]; intros changes detected.
  { simpl. split; [by left|]. intros [?|(p & Hin & _)]; [done|].
    by apply elem_of_nil in Hin. }
  simpl. unfold snapshotStep at 2.
  destruct (classifyCandidate projectRoot prompt p) as [c|] eqn:Hc; simpl.
  - rewrite IH, !elem_of_union, !elem_of_singleton. split.
    + intros [[Hx|Hx]|(q & Hq & Hsome & Hx)].
      * right. exists p. split; [apply list_elem_of_here|].
        rewrite Hc. split; [done|]. tauto.
      * by left.
      * right. exists q. split; [by apply list_elem_of_further|done].
    + intros [Hx|(q & Hq & Hsome & Hx)]; [tauto|].
      apply elem_of_cons in Hq as [->|Hq]; [tauto|].
      right. by exists q.
  - rewrite IH. split.
    + intros [Hx|(q & Hq & Hsome & Hx)]; [by left|].
      right. exists q. split; [by apply list_elem_of_further|done].
    + intros [Hx|(q & Hq & Hsome & Hx)]; [by left|].
      apply elem_of_cons in Hq as [->|Hq].
      * rewrite Hc in Hsome. by destruct Hsome.
      * right. by exists q.
Qed.

(** With non-empty texts stored, the three lookups of [resolveOriginal] are
    tried in turn and the first one that finds an entry decides. *)
Lemma resolveOriginal_nonempty originals first second normalized base :
  Forall (fun kv => NonEmptyContent kv.2) originals ->
  resolveOriginal originals first second normalized base =
    match mapGet first originals with
    | Some t => Some t
    | None =>
        match mapGet second originals with
        | Some t => Some t
        | None =>
            findEntry (fun k => String.eqb (normalize k) normalized
                                || String.eqb (basename k) base) originals
        end
    end.
Proof.
  intros Hne. unfold resolveOriginal.
  assert (forall k c, mapGet k originals = Some c ->
            exists t, c = TextContent t /\ truthyContent (Some c) = Some t)
    as Htruthy.
  { intros k c Hget. apply mapGet_Some in Hget. rewrite Forall_forall in Hne.
    destruct (Hne _ Hget) as (t & Hc & Ht). simpl in Hc. subst c.
    exists t. split; [done|]. simpl. unfold truthy.
    by destruct (String.eqb_spec t ""). }
  destruct (mapGet first originals) as [c|] eqn:Hfirst.
  { by destruct (Htruthy _ _ Hfirst) as (t & -> & ->). }
  simpl. destruct (mapGet second originals) as [c|] eqn:Hsecond; [|done].
  by destruct (Htruthy _ _ Hsecond) as (t & -> & ->).
Qed.

(** C7, as amended.  Step 2 pushes, for each candidate path (the normalized
    keys of the two snapshots, each once), at most one change: for a path
    present only in [afterSnapshot], [modified] with both backups null and
    the original content when one is found, else [added]; for a path present
    only in [beforeSnapshot], [deleted] with the before backup; for a path
    present in both, [modified] with both backups when the versions differ
    and nothing when they are equal.  The original content is looked up
    under the candidate path, then under its absolute form, then in the first
    entry, in insertion order, whose key normalizes to the candidate or has
    its basename.  Contents are taken to be non-empty strings: an empty one,
    like [null], is falsy for the [||] that chains the lookups. *)
Theorem snapshot_changes_classified prompt :
  Forall (fun kv => NonEmptyContent kv.2) (originalFileContents prompt) ->
  (snapshotChanges projectRoot prompt).1
    = omap (classifyCandidate projectRoot prompt) (allFiles prompt)
  /\ NoDup (allFiles prompt)
  /\ (forall p, p ∈ allFiles prompt <->
        exists k, k ∈ (beforeSnapshot prompt).*1 ++ (afterSnapshot prompt).*1
                  /\ p = normalize k)
  /\ forall p original,
       original =
         match mapGet p (originalFileContents prompt) with
         | Some t => Some t
         | None =>
             match mapGet (toAbsolutePath projectRoot p)
                          (originalFileContents prompt) with
             | Some t => Some t
             | None =>
                 findEntry (fun k => String.eqb (normalize k) p
                                     || String.eqb (basename k) (basename p))
                           (originalFileContents prompt)
             end
         end ->
       (~ PresentIn (beforeSnapshot prompt) p ->
        PresentIn (afterSnapshot prompt) p ->
        classifyCandidate projectRoot prompt p =
          Some (mkChange prompt (toAbsolutePath projectRoot p)
                  (match original with Some _ => modified | None => added end)
                  None None original))
       /\ (forall b, lookupBackup (beforeSnapshot prompt) p = Some b ->
             ~ PresentIn (afterSnapshot prompt) p ->
             classifyCandidate projectRoot prompt p =
               Some (mkChange prompt (toAbsolutePath projectRoot p)
                       deleted (Some b) None None))
       /\ (forall b a, lookupBackup (beforeSnapshot prompt) p = Some b ->
             lookupBackup (afterSnapshot prompt) p = Some a ->
             version b <> version a ->
             classifyCandidate projectRoot prompt p =
               Some (mkChange prompt (toAbsolutePath projectRoot p)
                       modified (Some b) (Some a) None))
       /\ (forall b a, lookupBackup (beforeSnapshot prompt) p = Some b ->
             lookupBackup (afterSnapshot prompt) p = Some a ->
             version b = version a ->
             classifyCandidate projectRoot prompt p = None).
Proof.
  intros Hne. split; [|split; [|split]].
  - unfold snapshotChanges. by rewrite snapshotStep_fold.
  - apply allFiles_NoDup.
  - apply allFiles_elem.
  - intros p original ->. unfold classifyCandidate.
    rewrite resolveOriginal_nonempty by done. repeat split.
    + intros Hbefore%lookupBackup_None Hafter. rewrite Hbefore.
      destruct (lookupBackup (afterSnapshot prompt) p) eqn:Ha.
      * destruct (mapGet p (originalFileContents prompt)); [done|].
        destruct (mapGet (toAbsolutePath projectRoot p) (originalFileContents prompt));
          [done|].
        by destruct (findEntry _ (originalFileContents prompt)).
      * by apply lookupBackup_None in Ha.
    + intros b -> Hafter%lookupBackup_None. by rewrite Hafter.
    + intros b a -> -> Hv. by rewrite bool_decide_eq_true_2.
    + intros b a -> -> Hv. by rewrite bool_decide_eq_false_2 by (by intros ?).
Qed.

(** *** Step 3: the edited files *)

Lemma snapshotChanges_pathsDetected prompt :
  pathsDetected (snapshotChanges projectRoot prompt).
Proof.
  unfold pathsDetected, snapshotChanges. intros c Hc.
  rewrite snapshotStep_fold in Hc. simpl in Hc.
  apply list_elem_of_omap in Hc as (p & Hp & Hclass).
  apply snapshotStep_detected. right. exists p. split; [done|].
  rewrite Hclass. split; [done|]. right. left.
  by apply (classifyCandidate_path prompt).
Qed.

Lemma editedStep_pathsDetected prompt state f :
  pathsDetected state -> pathsDetected (editedStep prompt state f).
Proof.
  unfold pathsDetected, editedStep. intros Hstate c.
  destruct (bool_decide (normalize f ∉ state.2) && bool_decide (basename f ∉ state.2));
    [|apply Hstate].
  simpl. rewrite elem_of_app, list_elem_of_singleton, !elem_of_union, elem_of_singleton.
  intros [Hc| ->]; [right; by apply Hstate|]. by do 2 left.
Qed.

Lemma editedStep_fold_pathsDetected prompt state l :
  pathsDetected state -> pathsDetected (foldl (editedStep prompt) state l).
Proof.
  revert state. induction l as [|f l IH]; intros state Hstate; simpl; [done|].
  by apply IH, editedStep_pathsDetected.
Qed.

Lemma editedStep_detected_mono prompt state f x :
  x ∈ state.2 -> x ∈ (editedStep prompt state f).2.
Proof.
  unfold editedStep. intros Hx.
  destruct (bool_decide (normalize f ∉ state.2) && bool_decide (basename f ∉ state.2));
    [|done].
  simpl. apply elem_of_union. by right.
Qed.

(** The steps only append, and what they append has a path that was not
    detected before. *)
Lemma editedStep_fold_appends prompt state l :
  exists rest,
    (foldl (editedStep prompt) state l).1 = state.1 ++ rest
    /\ forall c, c ∈ rest -> fc_filePath c ∉ state.2.
Proof.
  revert state. induction l as [|f l IH]; intros state; simpl.
  { exists []. split; [by rewrite app_nil_r|]. intros c Hc. by apply elem_of_nil in Hc. }
  destruct (IH (editedStep prompt state f)) as (rest & Heq & Hfresh).
  unfold editedStep in Heq, Hfresh |- *.
  destruct (bool_decide (normalize f ∉ state.2)) eqn:Hn;
    [destruct (bool_decide (basename f ∉ state.2)) eqn:Hb|]; simpl in *.
  - exists (editedChange prompt f :: rest). split.
    { by rewrite Heq, <- app_assoc. }
    intros c [->|Hc]%elem_of_cons.
    + by apply bool_decide_eq_true_1 in Hn.
    + intros Hin. apply (Hfresh c Hc). apply elem_of_union. by right.
  - by exists rest.
  - by exists rest.
Qed.

Lemma filter_none {A} (P : A -> Prop) `{forall x, Decision (P x)} (l : list A) :
  (forall x, x ∈ l -> ~ P x) -> filter P l = [].
Proof.
  induction l as [|x l IH]; intros Hno; [done|].
  rewrite filter_cons_False by (apply Hno, list_elem_of_here).
  apply IH. intros y Hy. by apply Hno, list_elem_of_further.
Qed.

(** C8, as amended.  The edited paths are taken in insertion order with the
    set of detected paths that step 2 left and that the edited paths taken
    before have added to.  A path whose normalized form and basename are both
    not yet detected gets exactly one change in the result, with its
    normalized path: [modified] with the [beforeSnapshot] backup found for
    it and no after backup; without such a backup [modified] with the
    original content when one is found, else [added]; and its normalized
    path and basename become detected.  A path whose normalized form or
    basename is already detected, be it from step 2 or from an earlier
    edited path, pushes nothing. *)
Theorem edited_file_change prompt pre f post backup original :
  Forall (fun kv => NonEmptyContent kv.2) (originalFileContents prompt) ->
  editedFiles prompt = pre ++ f :: post ->
  backup =
    match mapGet f (beforeSnapshot prompt) with
    | Some b => Some b
    | None =>
        match mapGet (basename f) (beforeSnapshot prompt) with
        | Some b => Some b
        | None =>
            findEntry (fun k => String.eqb (normalize k) (normalize f)
                                || String.eqb (basename k) (basename f))
                      (beforeSnapshot prompt)
        end
    end ->
  original =
    match mapGet f (originalFileContents prompt) with
    | Some t => Some t
    | None =>
        match mapGet (normalize f) (originalFileContents prompt) with
        | Some t => Some t
        | None =>
            findEntry (fun k => String.eqb (normalize k) (normalize f)
                                || String.eqb (basename k) (basename f))
                      (originalFileContents prompt)
        end
    end ->
  let earlier := foldl (editedStep prompt) (snapshotChanges projectRoot prompt) pre in
  let later :=
    foldl (editedStep prompt) (snapshotChanges projectRoot prompt) (pre ++ [f]) in
  (forall x, x ∈ (snapshotChanges projectRoot prompt).2 -> x ∈ earlier.2)
  /\ (normalize f ∉ earlier.2 -> basename f ∉ earlier.2 ->
      filter (fun c => fc_filePath c = normalize f)
             (getFileChangesForPrompt projectRoot prompt)
        = [mkChange prompt (normalize f)
             (match backup, original with None, None => added | _, _ => modified end)
             backup None
             (match backup with Some _ => None | None => original end)]
      /\ later.2 = {[normalize f; basename f]} ∪ earlier.2)
  /\ (normalize f ∈ earlier.2 \/ basename f ∈ earlier.2 -> later = earlier).
Proof.
  intros Hne Hedited -> -> earlier later. subst earlier later.
  rewrite foldl_app. simpl.
  set (earlier := foldl (editedStep prompt) (snapshotChanges projectRoot prompt) pre).
  split; [|split].
  - intros x Hx. subst earlier. clear Hedited.
    induction pre as [|g pre IH] using rev_ind; [done|].
    rewrite foldl_app. simpl. by apply editedStep_detected_mono.
  - intros Hn Hb.
    assert (editedStep prompt earlier f =
              (earlier.1 ++ [editedChange prompt f],
               {[normalize f; basename f]} ∪ earlier.2)) as Hstep.
    { unfold editedStep. by rewrite !bool_decide_eq_true_2. }
    rewrite Hstep. split; [|done].
    unfold getFileChangesForPrompt. rewrite Hedited, foldl_app. simpl.
    fold earlier. rewrite Hstep.
    destruct (editedStep_fold_appends prompt
                (earlier.1 ++ [editedChange prompt f],
                 {[normalize f; basename f]} ∪ earlier.2) post)
      as (rest & -> & Hfresh). simpl in *.
    rewrite !filter_app.
    rewrite (filter_none _ earlier.1), (filter_none _ rest); simpl.
    + rewrite filter_cons_True by done. rewrite filter_nil, app_nil_r.
      unfold editedChange. by rewrite resolveOriginal_nonempty.
    + intros c Hc Hpath. apply (Hfresh c Hc). rewrite Hpath.
      rewrite !elem_of_union, elem_of_singleton. by do 2 left.
    + intros c Hc Hpath. apply Hn. rewrite <- Hpath.
      apply (editedStep_fold_pathsDetected prompt _ pre
               (snapshotChanges_pathsDetected prompt) c Hc).
  - intros Hblocked. unfold editedStep.
    destruct Hblocked as [Hin|Hin].
    + by rewrite (bool_decide_eq_false_2 (normalize f ∉ earlier.2)) by tauto.
    + rewrite (bool_decide_eq_false_2 (basename f ∉ earlier.2)) by tauto.
      by rewrite andb_false_r.
Qed.
End ChangeSetFacts.

(** C7, the claim as stated fails.  The snapshot names src/util.ts relative
    to the project root /proj and the original contents are stored under
    absolute paths.  The claimed order (exact path, normalized path,
    basename) finds nothing under src/util.ts and falls to the first entry of
    that basename, /other/util.ts; the deriver probes the absolute path
    /proj/src/util.ts before any basename and returns that file's content. *)
Lemma original_content_claimed_order_fails :
  let p := "src/util.ts" in
  let originals := originalFileContents Samples.relativeTouch in
  p ∈ allFiles (H := Posix.ops) Samples.relativeTouch
  /\ ~ PresentIn (H := Posix.ops) (beforeSnapshot Samples.relativeTouch) p
  /\ PresentIn (H := Posix.ops) (afterSnapshot Samples.relativeTouch) p
  /\ resolveInClaimedOrder (H := Posix.ops) originals p = Some (TextContent "LIB")
  /\ getFileChangesForPrompt (H := Posix.ops) (Some "/proj") Samples.relativeTouch
     = [mkChange Samples.relativeTouch "/proj/src/util.ts" modified None None
          (Some (TextContent "SRC"))]
  /\ ~ (forall c,
          c ∈ getFileChangesForPrompt (H := Posix.ops) (Some "/proj")
                Samples.relativeTouch ->
          originalContent c = resolveInClaimedOrder (H := Posix.ops) originals p).
Proof.
  intros p originals. repeat split.
  - vm_compute. apply list_elem_of_here.
  - intros (k & b & Hin & _). by apply elem_of_nil in Hin.
  - exists p, (Samples.backup "h@v1" 1). split; [apply list_elem_of_here|by left].
  - intros Hall.
    specialize (Hall (mkChange Samples.relativeTouch "/proj/src/util.ts" modified
                        None None (Some (TextContent "SRC")))).
    discriminate Hall. vm_compute. apply list_elem_of_here.
Qed.

Lemma snapshot_changes_classified_witness :
  let p := "/proj/src/util.ts" in
  Forall (fun kv => NonEmptyContent kv.2) (originalFileContents Samples.firstTouch)
  /\ classifyCandidate (H := Posix.ops) None Samples.firstTouch p
     = Some (mkChange Samples.firstTouch p modified None None
               (Some (TextContent "LIB"))).
Proof.
  intros p.
  assert (Forall (fun kv : string * OriginalFile => NonEmptyContent kv.2)
            (originalFileContents Samples.firstTouch)) as Hne
    by (repeat constructor; eexists; (split; [reflexivity|discriminate])).
  split; [exact Hne|].
  destruct (snapshot_changes_classified (H := Posix.ops) None Samples.firstTouch Hne)
    as (_ & _ & _ & Hclass).
  destruct (Hclass p _ eq_refl) as (Hfirst & _).
  apply Hfirst.
  - intros (k & b & Hin & _). by apply elem_of_nil in Hin.
  - exists p, (Samples.backup "h@v1" 1). split; [apply list_elem_of_here|by left].
Defined.

(** C8, the claim as stated fails.  Both edited files of the prompt are
    unknown to step 2, which detects nothing, yet one change is pushed, for
    /proj/a/x.ts: it makes the basename x.ts detected, and /proj/b/x.ts then
    gets no change. *)
Lemma second_twin_gets_no_change :
  let f := "/proj/b/x.ts" in
  f ∈ editedFiles Samples.twins
  /\ snapshotChanges (H := Posix.ops) None Samples.twins = ([], ∅)
  /\ getFileChangesForPrompt (H := Posix.ops) None Samples.twins
     = [mkChange Samples.twins "/proj/a/x.ts" added None None None]
  /\ ~ (exists c,
          c ∈ getFileChangesForPrompt (H := Posix.ops) None Samples.twins
          /\ fc_filePath c = normalize (PathOps := Posix.ops) f).
Proof.
  intros f. repeat split.
  - unfold Samples.twins. simpl. in_list.
  - intros (c & Hc & Hpath).
    change (getFileChangesForPrompt (H := Posix.ops) None Samples.twins)
      with [mkChange Samples.twins "/proj/a/x.ts" added None None None] in Hc.
    apply list_elem_of_singleton in Hc as ->. discriminate Hpath.
Qed.

Lemma edited_file_change_witness :
  let f := "/proj/f.ts" in
  Forall (fun kv => NonEmptyContent kv.2) (originalFileContents Samples.unseenEdit)
  /\ filter (fun c => fc_filePath c = f)
       (getFileChangesForPrompt (H := Posix.ops) (Some "/proj") Samples.unseenEdit)
     = [mkChange Samples.unseenEdit f modified
          (Some (Samples.backup "h@v1" 1)) None None].
Proof.
  intros f.
  assert (Forall (fun kv : string * OriginalFile => NonEmptyContent kv.2)
            (originalFileContents Samples.unseenEdit)) as Hne
    by (repeat constructor; eexists; (split; [reflexivity|discriminate])).
  split; [exact Hne|].
  destruct (edited_file_change (H := Posix.ops) (Some "/proj") Samples.unseenEdit
              [] f [] _ _ Hne eq_refl eq_refl eq_refl) as (_ & Hfresh & _).
  apply Hfresh.
  - apply (bool_decide_unpack _). vm_compute. exact I.
  - apply (bool_decide_unpack _). vm_compute. exact I.
Defined.

(** ** Termination of the parent walks

    In a log appended in causal order whose parentless identified entries
    are user entries, every walk ends within [length entries] iterations. *)

Lemma entryByUuid_lookup_Some entries u e :
  entryByUuid entries !! u = Some e ->
  exists j, entries !! j = Some e /\ getUuid e = Some u.
Proof.
  induction entries as [|x entries IH] using rev_ind; [done|].
  rewrite entryByUuid_snoc.
  assert (entryByUuid entries !! u = Some e ->
          exists j, (entries ++ [x]) !! j = Some e /\ getUuid e = Some u) as Hold.
  { intros (j & Hj & Hu)%IH. exists j. split; [|done].
    by apply lookup_app_l_Some. }
  destruct (getUuid x) as [u'|] eqn:Hx; [|done].
  destruct (decide (u' = u)) as [->|Hne].
  - rewrite lookup_insert_eq. intros [= <-].
    exists (length entries). split; [|done]. by rewrite list_lookup_middle.
  - by rewrite lookup_insert_ne.
Qed.

Lemma find_lookup {A} (f : A -> bool) (l : list A) x :
  List.find f l = Some x -> exists i, l !! i = Some x /\ f x = true.
Proof.
  intros [Hin Hf]%find_some. apply list_elem_of_In, list_elem_of_lookup in Hin.
  destruct Hin as [i Hi]. eauto.
Qed.

Lemma findByUuid_lookup entries id c :
  findByUuid entries id = Some c ->
  exists i, entries !! i = Some c /\ uuid c = id.
Proof.
  destruct id as [u|]; [|done]. simpl.
  intros (i & Hi & Hu)%find_lookup. apply bool_decide_eq_true_1 in Hu. eauto.
Qed.

Lemma walkActivePath_terminates entries fuel i e acc :
  parentsPrecede entries ->
  entries !! i = Some e -> i < fuel ->
  is_Some (walkActivePath fuel (entryByUuid entries) e acc).
Proof.
  intros Hwf. revert i e acc.
  induction fuel as [|fuel IH]; intros i e acc Hi Hfuel; [lia|]. simpl.
  destruct (getParentUuid e) as [p|] eqn:Hp; [|done].
  destruct (entryByUuid entries !! p) as [parent|] eqn:Hparent; [|done].
  apply entryByUuid_lookup_Some in Hparent as (j & Hj & Hu).
  apply getUuid_Some in Hu.
  pose proof (Hwf i j e parent p Hi Hp Hj Hu). apply (IH j); [done|lia].
Qed.

Lemma findActiveConversationPath_terminates entries fuel :
  parentsPrecede entries -> length entries <= fuel ->
  is_Some (findActiveConversationPath fuel entries).
Proof.
  intros Hwf Hfuel. unfold findActiveConversationPath.
  destruct (lastEntry entries) as [e|] eqn:Hlast; [|done].
  apply lastEntry_Some in Hlast as [Hin _].
  apply list_elem_of_lookup in Hin as [i Hi].
  pose proof (lookup_lt_Some _ _ _ Hi).
  apply (walkActivePath_terminates entries fuel i); [done..|lia].
Qed.

Lemma walkToolRoot_terminates entries fuel i c rootId :
  parentsPrecede entries -> rootsAreUsers entries ->
  entries !! i = Some c -> is_Some (uuid c) -> i < fuel ->
  is_Some (walkToolRoot fuel entries rootId (Some c)).
Proof.
  intros Hwf Hroots. revert i c rootId.
  induction fuel as [|fuel IH]; intros i c rootId Hi Hid Hfuel; [lia|]. simpl.
  destruct (isUser c) eqn:Huser; [done|].
  destruct (Hroots c (list_elem_of_lookup_2 _ _ _ Hi) Hid Huser) as [p Hp].
  rewrite Hp.
  destruct (findByUuid entries (Some p)) as [c'|] eqn:Hfind.
  - apply findByUuid_lookup in Hfind as (j & Hj & Hu).
    pose proof (Hwf i j c c' p Hi Hp Hj Hu).
    apply (IH j); [done|by rewrite Hu|lia].
  - by rewrite walkToolRoot_dangling.
Qed.

Lemma walkEditRoot_terminates entries fuel i c rootId :
  parentsPrecede entries ->
  entries !! i = Some c -> i < fuel ->
  is_Some (walkEditRoot fuel entries rootId (Some c)).
Proof.
  intros Hwf. revert i c rootId.
  induction fuel as [|fuel IH]; intros i c rootId Hi Hfuel; [lia|]. simpl.
  destruct (isUser c && hasTextContent c); [done|].
  destruct (truthyO (parentUuid c)) as [p|] eqn:Hp; [|done].
  pose proof (findByUuid_lookup entries (Some p)) as Hlook. simpl in Hlook.
  destruct (List.find _ entries) as [c'|].
  - destruct (Hlook c' eq_refl) as (j & Hj & Hu).
    pose proof (Hwf i j c c' p Hi Hp Hj Hu).
    apply (IH j); [done|lia].
  - by rewrite walkEditRoot_dangling.
Qed.

Lemma toolRootOf_terminates entries fuel e :
  parentsPrecede entries -> rootsAreUsers entries -> length entries <= fuel ->
  is_Some (toolRootOf fuel entries e).
Proof.
  intros Hwf Hroots Hfuel. unfold toolRootOf.
  destruct (parentUuid e) as [p|]; [|by rewrite walkToolRoot_dangling].
  destruct (findByUuid entries (Some p)) as [c|] eqn:Hfind.
  - apply findByUuid_lookup in Hfind as (i & Hi & Hu).
    pose proof (lookup_lt_Some _ _ _ Hi).
    apply (walkToolRoot_terminates entries fuel i); [done..|by rewrite Hu|lia].
  - by rewrite walkToolRoot_dangling.
Qed.

Lemma editRootOf_terminates entries fuel e :
  parentsPrecede entries -> length entries <= fuel ->
  is_Some (editRootOf fuel entries e).
Proof.
  intros Hwf Hfuel. unfold editRootOf.
  destruct (findByUuid entries (parentUuid e)) as [c|] eqn:Hfind.
  - apply findByUuid_lookup in Hfind as (i & Hi & Hu).
    pose proof (lookup_lt_Some _ _ _ Hi).
    apply (walkEditRoot_terminates entries fuel i); [done..|lia].
  - by rewrite walkEditRoot_dangling.
Qed.

Lemma attributeTools_terminates entries fuel e blocks a :
  parentsPrecede entries -> rootsAreUsers entries -> length entries <= fuel ->
  is_Some (attributeTools fuel entries e blocks a).
Proof.
  intros Hwf Hroots Hfuel. revert a.
  induction blocks as [|b blocks IH]; intros a; simpl; [done|].
  destruct (isToolUse b) as [name|]; [|done].
  destruct (toolRootOf_terminates entries fuel e Hwf Hroots Hfuel) as [r ->].
  simpl. apply IH.
Qed.

Lemma firstPassEntry_terminates entries fuel e a :
  parentsPrecede entries -> rootsAreUsers entries -> length entries <= fuel ->
  is_Some (firstPassEntry fuel entries e a).
Proof.
  intros Hwf Hroots Hfuel. unfold firstPassEntry.
  assert (is_Some (if bool_decide (type e = "assistant")
                   then match content e with
                        | Some (ContentBlocks blocks) =>
                            attributeTools fuel entries e blocks a
                        | _ => Some a
                        end
                   else Some a)) as [a1 ->].
  { case_bool_decide; [|done].
    destruct (content e) as [[?|blocks]|]; try done.
    by apply attributeTools_terminates. }
  simpl. destruct (isUser e); [|done].
  destruct (toolUseResult e) as [r|]; [|done].
  destruct (truthyO (filePath r)); [|done].
  by destruct (editRootOf_terminates entries fuel e Hwf Hfuel) as [root ->].
Qed.

(** Enough fuel: the length of the log. *)
Lemma walks_terminate entries fuel :
  parentsPrecede entries -> rootsAreUsers entries -> length entries <= fuel ->
  is_Some (findActiveConversationPath fuel entries)
  /\ is_Some (firstPass fuel entries).
Proof.
  intros Hwf Hroots Hfuel. split.
  { by apply findActiveConversationPath_terminates. }
  unfold firstPass. generalize noAttribution. generalize entries at 2.
  intros rest. induction rest as [|e rest IH]; intros a; simpl; [done|].
  destruct (firstPassEntry_terminates entries fuel e a Hwf Hroots Hfuel) as [a' ->].
  simpl. apply IH.
Qed.

Section Totality.
Context `{PathOps}.
Variable homedir : string.
Variable JSON_parse : string -> option TranscriptEntry.

(** On a log appended in causal order whose parentless identified entries
    are user entries, [parseTranscript] returns a session as soon as the fuel
    is the length of the log. *)
Lemma parseTranscript_total fuel fs path :
  existsSync fs path = true ->
  loadEntries JSON_parse (readFileSync fs path) <> [] ->
  parentsPrecede (loadEntries JSON_parse (readFileSync fs path)) ->
  rootsAreUsers (loadEntries JSON_parse (readFileSync fs path)) ->
  length (loadEntries JSON_parse (readFileSync fs path)) <= fuel ->
  exists session,
    parseTranscript homedir JSON_parse fuel fs path = Some (Some session).
Proof.
  intros Hex Hne Hwf Hroots Hfuel.
  destruct (walks_terminate _ fuel Hwf Hroots Hfuel) as [[active Hactive] [a Ha]].
  destruct (parseTranscript_returns homedir JSON_parse fuel fs path active a
              Hex Hne Hactive Ha) as (session & Hparse & _).
  by exists session.
Qed.
End Totality.

(** * Further properties of the parser *)

(** ** The active-id set *)

Lemma lastEntry_None entries : lastEntry entries = None -> idsOf entries = [].
Proof.
  unfold lastEntry, idsOf. intros Hnone.
  induction entries as [|e entries IH] using rev_ind; [done|].
  rewrite rev_app_distr in Hnone. simpl in Hnone.
  rewrite omap_app. simpl.
  destruct (getUuid e) as [u|] eqn:Hu.
  - rewrite bool_decide_eq_true_2 in Hnone by eauto. done.
  - rewrite bool_decide_eq_false_2 in Hnone by (by intros [? ?]).
    by rewrite IH.
Qed.

Lemma walkActivePath_ids entries fuel e acc s :
  e ∈ entries ->
  walkActivePath fuel (entryByUuid entries) e acc = Some s ->
  (forall u, u ∈ s -> u ∈ acc \/ u ∈ idsOf entries)
  /\ (forall u, u ∈ acc -> u ∈ s)
  /\ (forall u, getUuid e = Some u -> u ∈ s).
Proof.
  revert e acc. induction fuel as [|fuel IH]; intros e acc He; [done|]. simpl.
  set (acc' := match getUuid e with Some u => {[u]} ∪ acc | None => acc end).
  assert ((forall u, u ∈ acc' -> u ∈ acc \/ u ∈ idsOf entries)
          /\ (forall u, u ∈ acc -> u ∈ acc')
          /\ (forall u, getUuid e = Some u -> u ∈ acc')) as (Hin & Hmono & Hhead).
  { subst acc'. destruct (getUuid e) as [u0|] eqn:Hu0.
    - repeat split.
      + intros u [->%elem_of_singleton|Hu]%elem_of_union; [|by left].
        right. by apply (idsOf_elem _ e).
      + intros u Hu. apply elem_of_union. by right.
      + intros u [= <-]. apply elem_of_union. left. by apply elem_of_singleton.
    - repeat split; [by left|done|done]. }
  assert (Some acc' = Some s ->
          (forall u, u ∈ s -> u ∈ acc \/ u ∈ idsOf entries)
          /\ (forall u, u ∈ acc -> u ∈ s)
          /\ (forall u, getUuid e = Some u -> u ∈ s)) as Hstop.
  { intros [= <-]. done. }
  destruct (getParentUuid e) as [p|]; [|done].
  destruct (entryByUuid entries !! p) as [parent|] eqn:Hparent; [|done].
  intros Hwalk.
  apply entryByUuid_lookup_Some in Hparent as (j & Hj & _).
  apply list_elem_of_lookup_2 in Hj.
  destruct (IH parent acc' Hj Hwalk) as (Hin' & Hmono' & _).
  repeat split.
  - intros u Hu. destruct (Hin' u Hu) as [Hacc|?]; [by apply Hin|by right].
  - intros u Hu. by apply Hmono', Hmono.
  - intros u Hu. by apply Hmono', Hhead.
Qed.

(** X1.  When [findActiveConversationPath] returns, every id of the set is
    the id of an entry of the log, the id of the last identified entry is in
    the set, and the set is empty exactly when no entry has an id. *)
Theorem active_ids_come_from_the_log fuel entries activeUuids :
  findActiveConversationPath fuel entries = Some activeUuids ->
  (forall u, u ∈ activeUuids -> u ∈ idsOf entries)
  /\ (forall e u, lastEntry entries = Some e -> getUuid e = Some u ->
                  u ∈ activeUuids)
  /\ (activeUuids = ∅ <-> idsOf entries = []).
Proof.
  unfold findActiveConversationPath.
  destruct (lastEntry entries) as [e|] eqn:Hlast.
  - intros Hwalk. destruct (lastEntry_Some _ _ Hlast) as [He [u Hu]].
    destruct (walkActivePath_ids entries fuel e ∅ activeUuids He Hwalk)
      as (Hin & _ & Hhead).
    split; [|split; [|split]].
    + intros u' Hu'. destruct (Hin u' Hu') as [Hempty|?]; [|done].
      by apply elem_of_empty in Hempty.
    + intros e' u' [= <-]. apply Hhead.
    + intros ->. specialize (Hhead u Hu). by apply elem_of_empty in Hhead.
    + intros Hnil. pose proof (idsOf_elem _ _ _ He Hu) as Hmem.
      rewrite Hnil in Hmem. by apply elem_of_nil in Hmem.
  - intros [= <-]. split; [|split; [|split]].
    + intros u Hu. by apply elem_of_empty in Hu.
    + done.
    + intros _. by apply lastEntry_None.
    + done.
Qed.

Lemma active_ids_come_from_the_log_witness :
  (forall u, u ∈ ({[ "A"; "B"; "C"; "D" ]} : gset string) ->
             u ∈ idsOf Samples.rewoundLog)
  /\ (forall e u, lastEntry Samples.rewoundLog = Some e -> getUuid e = Some u ->
                  u ∈ ({[ "A"; "B"; "C"; "D" ]} : gset string))
  /\ (({[ "A"; "B"; "C"; "D" ]} : gset string) = ∅ <-> idsOf Samples.rewoundLog = []).
Proof.
  apply (active_ids_come_from_the_log 10 Samples.rewoundLog).
  vm_compute. reflexivity.
Defined.

(** ** Logs on which the parent walks never end *)

Lemma entryByUuid_known entries u :
  u ∈ idsOf entries -> is_Some (entryByUuid entries !! u).
Proof.
  induction entries as [|e entries IH] using rev_ind.
  { intros Hu. by apply elem_of_nil in Hu. }
  rewrite idsOf_snoc, entryByUuid_snoc. intros [Hu|Hu]%elem_of_app.
  - destruct (getUuid e) as [u'|]; [|by apply IH].
    destruct (decide (u' = u)) as [->|Hne].
    + rewrite lookup_insert_eq. eauto.
    + rewrite lookup_insert_ne by done. by apply IH.
  - destruct (getUuid e) as [u'|]; simpl in Hu; [|by apply elem_of_nil in Hu].
    apply list_elem_of_singleton in Hu as ->. rewrite lookup_insert_eq. eauto.
Qed.

Lemma walkActivePath_loops entries fuel e acc :
  (forall e', e' ∈ entries -> is_Some (getUuid e') ->
              exists p, getParentUuid e' = Some p /\ p ∈ idsOf entries) ->
  e ∈ entries -> is_Some (getUuid e) ->
  walkActivePath fuel (entryByUuid entries) e acc = None.
Proof.
  intros Hclosed. revert e acc.
  induction fuel as [|fuel IH]; intros e acc He Hid; [done|]. simpl.
  destruct (Hclosed e He Hid) as (p & -> & Hp).
  destruct (entryByUuid_known _ _ Hp) as [parent Hparent]. rewrite Hparent.
  apply entryByUuid_lookup_Some in Hparent as (j & Hj & Hu).
  apply IH; [by apply list_elem_of_lookup_2 in Hj|by rewrite Hu].
Qed.

(** X2.  When every identified entry of a log names as parent an id some
    entry carries (the parent links then run in a cycle), the walk of
    [findActiveConversationPath] takes one more step whatever the number of
    steps allowed: the call does not return. *)
Theorem active_path_walk_loops_on_a_cycle entries :
  idsOf entries <> [] ->
  (forall e, e ∈ entries -> is_Some (getUuid e) ->
             exists p, getParentUuid e = Some p /\ p ∈ idsOf entries) ->
  forall fuel, findActiveConversationPath fuel entries = None.
Proof.
  intros Hids Hclosed fuel. unfold findActiveConversationPath.
  destruct (lastEntry entries) as [e|] eqn:Hlast.
  - destruct (lastEntry_Some _ _ Hlast) as [He Hid].
    by apply walkActivePath_loops.
  - by apply lastEntry_None in Hlast.
Qed.

Lemma active_path_walk_loops_on_a_cycle_witness :
  idsOf Samples.cyclicLog = ["x"; "y"]
  /\ forall fuel, findActiveConversationPath fuel Samples.cyclicLog = None.
Proof.
  split; [reflexivity|].
  apply (active_path_walk_loops_on_a_cycle Samples.cyclicLog).
  - discriminate.
  - intros e He _. unfold Samples.cyclicLog in He.
    apply elem_of_cons in He as [->|He].
    + exists "y". split; [reflexivity|]. vm_compute. in_list.
    + apply list_elem_of_singleton in He as ->.
      exists "x". split; [reflexivity|]. vm_compute. in_list.
Defined.

Lemma walkToolRoot_loops entries fuel rootId c :
  isUser c = false -> truthyO (parentUuid c) = None ->
  findByUuid entries rootId = Some c ->
  walkToolRoot fuel entries rootId (Some c) = None.
Proof.
  intros Huser Hparent Hfind.
  induction fuel as [|fuel IH]; simpl; rewrite Huser; [done|].
  by rewrite Hparent, Hfind.
Qed.

Lemma attributeTools_loops entries fuel e blocks a block name :
  toolRootOf fuel entries e = None ->
  block ∈ blocks -> isToolUse block = Some name ->
  attributeTools fuel entries e blocks a = None.
Proof.
  intros Hroot Hin Hname. revert a.
  induction blocks as [|b blocks IH]; intros a; [by apply elem_of_nil in Hin|].
  simpl. destruct (isToolUse b) as [name'|] eqn:Hb.
  - by rewrite Hroot.
  - apply IH. apply elem_of_cons in Hin as [->|Hin]; [congruence|done].
Qed.

Lemma firstPassFrom_loops entries fuel rest a e :
  e ∈ rest -> (forall a', firstPassEntry fuel entries e a' = None) ->
  firstPassFrom fuel entries rest a = None.
Proof.
  intros He Hloop. revert a.
  induction rest as [|x rest IH]; intros a; [by apply elem_of_nil in He|].
  simpl. apply elem_of_cons in He as [<-|He].
  - by rewrite Hloop.
  - destruct (firstPassEntry fuel entries x a); simpl; [by apply IH|done].
Qed.

Section HangFacts.
Context `{PathOps}.
Variable homedir : string.
Variable JSON_parse : string -> option TranscriptEntry.

(** X3.  The tool walk never moves on from an identified entry that is not a
    user entry and has no parent: [rootId = current.parentUuid || rootId]
    keeps the id and the lookup returns the same entry.  A log in which an
    assistant entry with a tool invocation has such an entry as its parent
    makes [parseTranscript] run for ever. *)
Theorem tool_walk_never_leaves_a_parentless_entry fs path e blocks block name c :
  existsSync fs path = true ->
  e ∈ loadEntries JSON_parse (readFileSync fs path) ->
  type e = "assistant" ->
  content e = Some (ContentBlocks blocks) ->
  block ∈ blocks -> isToolUse block = Some name ->
  findByUuid (loadEntries JSON_parse (readFileSync fs path)) (parentUuid e) = Some c ->
  isUser c = false -> truthyO (parentUuid c) = None ->
  forall fuel, parseTranscript homedir JSON_parse fuel fs path = None.
Proof.
  intros Hex He Hty Hcontent Hblock Hname Hfind Huser Hparent fuel.
  unfold parseTranscript, assembleSession. rewrite Hex. simpl.
  rewrite bool_decide_eq_false_2.
  2:{ intros Hlen. apply length_zero_iff_nil in Hlen. rewrite Hlen in He.
      by apply elem_of_nil in He. }
  destruct (findActiveConversationPath fuel _); simpl; [|done].
  unfold firstPass. rewrite (firstPassFrom_loops _ fuel _ _ e He); [done|].
  intros a'. unfold firstPassEntry.
  rewrite bool_decide_eq_true_2, Hcontent by done.
  rewrite (attributeTools_loops _ fuel e blocks a' block name); [done| |done..].
  unfold toolRootOf. rewrite Hfind. by apply walkToolRoot_loops.
Qed.
End HangFacts.

Lemma tool_walk_never_leaves_a_parentless_entry_witness :
  loadEntries (Samples.decodeTable Samples.orphanTable)
    (readFileSync Samples.orphanDisk "/log.jsonl") = Samples.orphanLog
  /\ forall fuel,
       parseTranscript (H := Posix.ops) "/home/u"
         (Samples.decodeTable Samples.orphanTable) fuel Samples.orphanDisk
         "/log.jsonl" = None.
Proof.
  split; [reflexivity|].
  apply (tool_walk_never_leaves_a_parentless_entry (H := Posix.ops) "/home/u"
           (Samples.decodeTable Samples.orphanTable) Samples.orphanDisk "/log.jsonl"
           (Samples.assistant (Some "a1") (Some "a0") ["Read"])
           [Samples.toolUse "Read"] (Samples.toolUse "Read") "Read"
           (Samples.assistant (Some "a0") None [])).
  - reflexivity.
  - vm_compute. in_list.
  - reflexivity.
  - reflexivity.
  - in_list.
  - reflexivity.
  - reflexivity.
  - reflexivity.
  - reflexivity.
Defined.

(** ** Where edited files are recorded *)

Lemma walkEditRoot_lands entries fuel rootId r c :
  walkEditRoot fuel entries rootId (findByUuid entries rootId) = Some (Some r) ->
  findByUuid entries (Some r) = Some c ->
  isUser c = true /\ hasTextContent c = true.
Proof.
  revert rootId. induction fuel as [|fuel IH]; intros rootId; simpl.
  - destruct (findByUuid entries rootId) as [c0|] eqn:Hfind.
    + destruct (isUser c0 && hasTextContent c0) eqn:Hc0.
      * intros [= ->] Hc. simpl in Hfind. rewrite Hfind in Hc.
        injection Hc as <-. by apply andb_true_iff.
      * by destruct (truthyO (parentUuid c0)).
    + intros [= ->] Hc. simpl in Hfind. congruence.
  - destruct (findByUuid entries rootId) as [c0|] eqn:Hfind.
    + destruct (isUser c0 && hasTextContent c0) eqn:Hc0.
      * intros [= ->] Hc. simpl in Hfind. rewrite Hfind in Hc.
        injection Hc as <-. by apply andb_true_iff.
      * destruct (truthyO (parentUuid c0)) as [p|]; [|done]. apply IH.
    + intros [= ->] Hc. simpl in Hfind. congruence.
Qed.

(** X4.  The id under which an edited file is recorded is, when an entry of
    the log carries it, the id of a plain-text user entry; the walk does not
    stop at a tool-result entry.  (Otherwise the id is one that no entry
    carries: the chain of parents left the log.) *)
Theorem edited_file_root_is_plain_text fuel entries toolResult r c :
  editRootOf fuel entries toolResult = Some (Some r) ->
  findByUuid entries (Some r) = Some c ->
  isUser c = true /\ hasTextContent c = true.
Proof. unfold editRootOf. apply walkEditRoot_lands. Qed.

Lemma edited_file_root_is_plain_text_witness :
  editRootOf 10 Samples.toolLog Samples.t2 = Some (Some "u1")
  /\ isUser Samples.u1 = true /\ hasTextContent Samples.u1 = true.
Proof.
  split; [reflexivity|].
  apply (edited_file_root_is_plain_text 10 Samples.toolLog Samples.t2 "u1");
    reflexivity.
Defined.

(** ** What [parseTranscript] returns *)

Section ResultFacts.
Context `{PathOps}.
Variable homedir : string.
Variable JSON_parse : string -> option TranscriptEntry.

(** X5.  [parseTranscript] returns [null] exactly when the transcript does
    not exist or none of its lines decodes; a log with a decoded line never
    gives [null], whatever the entries are. *)
Theorem null_means_missing_or_undecodable fuel fs path :
  parseTranscript homedir JSON_parse fuel fs path = Some None <->
  existsSync fs path = false
  \/ loadEntries JSON_parse (readFileSync fs path) = [].
Proof.
  unfold parseTranscript. destruct (existsSync fs path) eqn:Hex; simpl.
  - split.
    + intros Hnull. right.
      destruct (loadEntries JSON_parse (readFileSync fs path)) as [|e es] eqn:Hload;
        [done|].
      by apply assembleSession_not_null in Hnull.
    + intros [?| ->]; [done|]. done.
  - split; [by left|done].
Qed.

Lemma snapshotMapOf_snoc entries e :
  snapshotMapOf (entries ++ [e]) =
    if isSnapshotEntry e
    then <[messageId e := trackedFileBackups e]> (snapshotMapOf entries)
    else snapshotMapOf entries.
Proof. unfold snapshotMapOf. by rewrite foldl_app. Qed.

(** The snapshot kept for a message id is that of the last
    file-history-snapshot entry that names it. *)
Lemma snapshotMapOf_lookup entries m :
  snapshotMapOf entries !! m =
    trackedFileBackups <$>
      List.find (fun e => isSnapshotEntry e && String.eqb (messageId e) m)
                (rev entries).
Proof.
  induction entries as [|e entries IH] using rev_ind; [done|].
  rewrite snapshotMapOf_snoc, rev_app_distr. simpl.
  destruct (isSnapshotEntry e); simpl; [|done].
  destruct (String.eqb_spec (messageId e) m) as [->|Hne].
  - by rewrite lookup_insert_eq.
  - by rewrite lookup_insert_ne.
Qed.

Lemma thirdPass_beforeSnapshot latest ps p :
  p ∈ thirdPass latest ps ->
  exists q, q ∈ ps /\ beforeSnapshot p = beforeSnapshot q
            /\ p_messageId p = p_messageId q.
Proof.
  intros [i Hi]%list_elem_of_lookup. rewrite thirdPass_lookup in Hi.
  destruct (ps !! i) as [q|] eqn:Hq; [|done]. injection Hi as <-.
  exists q. split; [by apply list_elem_of_lookup_2 in Hq|done].
Qed.

(** X6.  The [beforeSnapshot] of a prompt is the [trackedFileBackups] of the
    last file-history-snapshot entry of the whole log whose [messageId] is
    the prompt's id, also when that entry comes after the prompt; it is empty
    when the log has no such entry. *)
Theorem beforeSnapshot_is_last_snapshot_of_message fuel fs path activeUuids a :
  existsSync fs path = true ->
  loadEntries JSON_parse (readFileSync fs path) <> [] ->
  findActiveConversationPath fuel (loadEntries JSON_parse (readFileSync fs path))
    = Some activeUuids ->
  firstPass fuel (loadEntries JSON_parse (readFileSync fs path)) = Some a ->
  exists session,
    parseTranscript homedir JSON_parse fuel fs path = Some (Some session)
    /\ forall p, p ∈ prompts session ->
         beforeSnapshot p =
           default []
             (trackedFileBackups <$>
                List.find (fun e => isSnapshotEntry e
                                    && String.eqb (messageId e) (p_messageId p))
                  (rev (loadEntries JSON_parse (readFileSync fs path)))).
Proof.
  intros Hex Hne Hactive Hfirst.
  destruct (parseTranscript_returns homedir JSON_parse fuel fs path activeUuids a
              Hex Hne Hactive Hfirst) as (session & Hparse & Hprompts).
  exists session. split; [done|]. intros p Hp. rewrite Hprompts in Hp.
  apply thirdPass_beforeSnapshot in Hp as (q & Hq & -> & ->).
  rewrite secondPass_spec in Hq.
  apply list_elem_of_lookup in Hq as [i Hi]. rewrite list_lookup_imap in Hi.
  destruct (filter _ _ !! i) as [e|]; [|done]. injection Hi as <-. simpl.
  by rewrite snapshotMapOf_lookup.
Qed.
End ResultFacts.

Lemma beforeSnapshot_is_last_snapshot_of_message_witness :
  let decode := Samples.decodeTable Samples.rewoundTable in
  let entries := loadEntries decode (readFileSync Samples.rewoundDisk "/log.jsonl") in
  exists session,
    parseTranscript (H := Posix.ops) "/home/u" decode 10 Samples.rewoundDisk
      "/log.jsonl" = Some (Some session)
    /\ forall p, p ∈ prompts session ->
         beforeSnapshot p =
           default []
             (trackedFileBackups <$>
                List.find (fun e => isSnapshotEntry e
                                    && String.eqb (messageId e) (p_messageId p))
                  (rev entries)).
Proof.
  intros decode entries.
  assert (exists a, firstPass 10 entries = Some a) as [a Ha]
    by (vm_compute; eauto).
  apply (beforeSnapshot_is_last_snapshot_of_message (H := Posix.ops) "/home/u"
           decode 10 Samples.rewoundDisk "/log.jsonl" {[ "A"; "B"; "C"; "D" ]} a).
  - reflexivity.
  - vm_compute. discriminate.
  - vm_compute. reflexivity.
  - exact Ha.
Defined.

(** X7.  On a log appended in causal order (an entry that carries a parent
    id comes before the entries that name it) whose identified entries
    without a parent are user entries, every parent walk ends within as many
    steps as the log has entries, and [parseTranscript] returns a session. *)
Theorem causal_log_is_parsed `{PathOps} (homedir : string)
    (JSON_parse : string -> option TranscriptEntry) fuel fs path :
  existsSync fs path = true ->
  loadEntries JSON_parse (readFileSync fs path) <> [] ->
  parentsPrecede (loadEntries JSON_parse (readFileSync fs path)) ->
  rootsAreUsers (loadEntries JSON_parse (readFileSync fs path)) ->
  length (loadEntries JSON_parse (readFileSync fs path)) <= fuel ->
  exists activeUuids a session,
    findActiveConversationPath fuel (loadEntries JSON_parse (readFileSync fs path))
      = Some activeUuids
    /\ firstPass fuel (loadEntries JSON_parse (readFileSync fs path)) = Some a
    /\ parseTranscript homedir JSON_parse fuel fs path = Some (Some session).
Proof.
  intros Hex Hne Hwf Hroots Hfuel.
  destruct (walks_terminate _ fuel Hwf Hroots Hfuel) as [[active Hactive] [a Ha]].
  destruct (parseTranscript_returns homedir JSON_parse fuel fs path active a
              Hex Hne Hactive Ha) as (session & Hparse & _).
  by exists active, a, session.
Qed.

Lemma causal_log_is_parsed_witness :
  let decode := Samples.decodeTable Samples.rewoundTable in
  let entries := loadEntries decode (readFileSync Samples.rewoundDisk "/log.jsonl") in
  exists activeUuids a session,
    findActiveConversationPath 10 entries = Some activeUuids
    /\ firstPass 10 entries = Some a
    /\ parseTranscript (H := Posix.ops) "/home/u" decode 10 Samples.rewoundDisk
         "/log.jsonl" = Some (Some session).
Proof.
  intros decode entries.
  assert (entries = Samples.rewoundLog) as Hentries by reflexivity.
  apply (causal_log_is_parsed (H := Posix.ops) "/home/u" decode 10
           Samples.rewoundDisk "/log.jsonl").
  - reflexivity.
  - vm_compute. discriminate.
  - fold entries. rewrite Hentries. intros i j e e' p Hi Hp Hj Hu.
    do 10 (destruct i as [|i];
           [simpl in Hi; injection Hi as <-; vm_compute in Hp;
            first [discriminate Hp
                  |injection Hp as <-;
                   do 10 (destruct j as [|j];
                          [simpl in Hj; injection Hj as <-; vm_compute in Hu;
                           first [discriminate Hu | lia]|]);
                   simpl in Hj; discriminate Hj]|]).
    simpl in Hi. discriminate Hi.
  - fold entries. rewrite Hentries. intros e He Hid Huser.
    unfold Samples.rewoundLog in He.
    repeat (apply elem_of_cons in He as [->|He];
            [first [by destruct Hid | discriminate Huser | by eexists]|]).
    by apply elem_of_nil in He.
  - vm_compute. lia.
Defined.

(** * The prompts of a session and their snapshots *)

Lemma rewoundLog_parentsPrecede : parentsPrecede Samples.rewoundLog.
Proof.
  intros i j e e' p Hi Hp Hj Hu.
  do 10 (destruct i as [|i];
         [simpl in Hi; injection Hi as <-; vm_compute in Hp;
          first [discriminate Hp
                |injection Hp as <-;
                 do 10 (destruct j as [|j];
                        [simpl in Hj; injection Hj as <-; vm_compute in Hu;
                         first [discriminate Hu | lia]|]);
                 simpl in Hj; discriminate Hj]|]).
  simpl in Hi. discriminate Hi.
Qed.

Lemma rewoundLog_rootsAreUsers : rootsAreUsers Samples.rewoundLog.
Proof.
  intros e He Hid Huser. unfold Samples.rewoundLog in He.
  repeat (apply elem_of_cons in He as [->|He];
          [first [by destruct Hid | discriminate Huser | by eexists]|]).
  by apply elem_of_nil in He.
Qed.

Lemma lookup_last {A} (l : list A) i x :
  l !! i = Some x -> l !! S i = None -> last l = Some x.
Proof.
  intros Hi Hnext. rewrite last_lookup.
  pose proof (lookup_lt_Some _ _ _ Hi) as Hlt. apply lookup_ge_None in Hnext.
  by replace (pred (length l)) with i by lia.
Qed.

Section PromptFacts.
Context `{PathOps}.
Variable homedir : string.
Variable JSON_parse : string -> option TranscriptEntry.

(** What a returned session is made of. *)
Lemma parseTranscript_session fuel fs path session :
  parseTranscript homedir JSON_parse fuel fs path = Some (Some session) ->
  existsSync fs path = true
  /\ loadEntries JSON_parse (readFileSync fs path) <> []
  /\ s_sessionId session =
       default ""
         (List.find (fun e => isUser e && bool_decide (is_Some (sessionId e)))
                    (loadEntries JSON_parse (readFileSync fs path))
          ≫= sessionId)
  /\ exists activeUuids a,
       findActiveConversationPath fuel
         (loadEntries JSON_parse (readFileSync fs path)) = Some activeUuids
       /\ firstPass fuel (loadEntries JSON_parse (readFileSync fs path)) = Some a
       /\ prompts session =
            thirdPass
              (getLatestSnapshotFromDisk homedir fs (s_sessionId session)
                 (latestSnapshotOf (loadEntries JSON_parse (readFileSync fs path))))
              (secondPass activeUuids
                 (snapshotMapOf (loadEntries JSON_parse (readFileSync fs path))) a
                 (loadEntries JSON_parse (readFileSync fs path))).
Proof.
  unfold parseTranscript. destruct (existsSync fs path); simpl; [|done].
  unfold assembleSession. case_bool_decide as Hlen; [done|].
  destruct (findActiveConversationPath fuel _) as [activeUuids|] eqn:Hactive;
    simpl; [|done].
  destruct (firstPass fuel _) as [a|] eqn:Hfirst; simpl; [|done].
  intros [= <-]. simpl. split; [done|]. split.
  { intros Hnil. by rewrite Hnil in Hlen. }
  split; [done|]. by exists activeUuids, a.
Qed.


(** C5.  In every session that [parseTranscript] returns, the prompts are
    those of the active plain-text user events of the log, in log order; the
    [beforeSnapshot] of each is the [trackedFileBackups] of the last
    file-history-snapshot event of the log that names the prompt's id; every
    prompt but the last has as [afterSnapshot] the [beforeSnapshot] of the
    prompt after it; and the last prompt has the backup store reconciler's
    result, for the session's id, on the latest known snapshot: the
    [trackedFileBackups] of the last file-history-snapshot event of the log.
    These are the values in the session that is returned: nothing writes a
    snapshot after the third pass.  A session is returned for every log
    appended in causal order whose identified entries without a parent are
    user entries. *)
Theorem afterSnapshot_links_prompts fuel fs path :
  (forall session,
     parseTranscript homedir JSON_parse fuel fs path = Some (Some session) ->
     exists activeUuids,
       findActiveConversationPath fuel
         (loadEntries JSON_parse (readFileSync fs path)) = Some activeUuids
       /\ s_sessionId session =
            default ""
              (List.find (fun e => isUser e && bool_decide (is_Some (sessionId e)))
                         (loadEntries JSON_parse (readFileSync fs path))
               ≫= sessionId)
       /\ Forall2 (fun p e => uuid e = Some (p_messageId p))
            (prompts session)
            (filter (fun e => exists u, ActivePrompt activeUuids e u)
                    (loadEntries JSON_parse (readFileSync fs path)))
       /\ forall i p,
            prompts session !! i = Some p ->
            beforeSnapshot p =
              default []
                (trackedFileBackups <$>
                   List.find (fun e => isSnapshotEntry e
                                       && String.eqb (messageId e) (p_messageId p))
                     (rev (loadEntries JSON_parse (readFileSync fs path))))
            /\ match prompts session !! S i with
               | Some q => afterSnapshot p = beforeSnapshot q
               | None =>
                   afterSnapshot p =
                     getLatestSnapshotFromDisk homedir fs (s_sessionId session)
                       (default []
                          (trackedFileBackups <$>
                             List.find isSnapshotEntry
                               (rev (loadEntries JSON_parse (readFileSync fs path)))))
               end)
  /\ (existsSync fs path = true ->
      loadEntries JSON_parse (readFileSync fs path) <> [] ->
      parentsPrecede (loadEntries JSON_parse (readFileSync fs path)) ->
      rootsAreUsers (loadEntries JSON_parse (readFileSync fs path)) ->
      length (loadEntries JSON_parse (readFileSync fs path)) <= fuel ->
      exists session,
        parseTranscript homedir JSON_parse fuel fs path = Some (Some session)).
Proof.
  split.
  - intros session Hparse.
    apply parseTranscript_session in Hparse
      as (_ & _ & Hid & activeUuids & a & Hactive & _ & Hprompts).
    exists activeUuids. split; [done|]. split; [done|]. rewrite Hprompts. split.
    + eapply Forall2_impl; [apply secondPass_linked_spec|].
      intros p e [Hp _]. by destruct Hp as (_ & _ & _ & ? & _).
    + intros i p Hp. split.
      * apply list_elem_of_lookup_2 in Hp.
        apply thirdPass_beforeSnapshot in Hp as (q & Hq & -> & ->).
        rewrite secondPass_spec in Hq.
        apply list_elem_of_lookup in Hq as [j Hj]. rewrite list_lookup_imap in Hj.
        destruct (filter _ _ !! j) as [e|]; [|done]. injection Hj as <-. simpl.
        by rewrite snapshotMapOf_lookup.
      * destruct (thirdPass_links
                    (getLatestSnapshotFromDisk homedir fs (s_sessionId session)
                       (latestSnapshotOf
                          (loadEntries JSON_parse (readFileSync fs path))))
                    (secondPass activeUuids
                       (snapshotMapOf
                          (loadEntries JSON_parse (readFileSync fs path))) a
                       (loadEntries JSON_parse (readFileSync fs path))))
          as [Hnext Hlast].
        destruct (thirdPass _ _ !! S i) as [q|] eqn:Hq.
        -- by apply (Hnext i).
        -- rewrite <- latestSnapshotOf_last. apply Hlast.
           by apply (lookup_last _ i).
  - intros Hex Hne Hwf Hroots Hfuel.
    destruct (walks_terminate _ fuel Hwf Hroots Hfuel) as [[active Hactive] [a Ha]].
    destruct (parseTranscript_returns homedir JSON_parse fuel fs path active a
                Hex Hne Hactive Ha) as (session & Hparse & _).
    by exists session.
Qed.
End PromptFacts.



Lemma afterSnapshot_links_prompts_witness :
  let decode := Samples.decodeTable Samples.rewoundTable in
  let entries := loadEntries decode (readFileSync Samples.rewoundDisk "/log.jsonl") in
  exists session,
    parseTranscript (H := Posix.ops) "/home/u" decode 10 Samples.rewoundDisk
      "/log.jsonl" = Some (Some session)
    /\ exists activeUuids,
         findActiveConversationPath 10 entries = Some activeUuids
         /\ s_sessionId session =
              default ""
                (List.find (fun e => isUser e && bool_decide (is_Some (sessionId e)))
                           entries ≫= sessionId)
         /\ Forall2 (fun p e => uuid e = Some (p_messageId p))
              (prompts session)
              (filter (fun e => exists u, ActivePrompt activeUuids e u) entries)
         /\ forall i p,
              prompts session !! i = Some p ->
              beforeSnapshot p =
                default []
                  (trackedFileBackups <$>
                     List.find (fun e => isSnapshotEntry e
                                         && String.eqb (messageId e) (p_messageId p))
                       (rev entries))
              /\ match prompts session !! S i with
                 | Some q => afterSnapshot p = beforeSnapshot q
                 | None =>
                     afterSnapshot p =
                       getLatestSnapshotFromDisk (H := Posix.ops) "/home/u"
                         Samples.rewoundDisk (s_sessionId session)
                         (default []
                            (trackedFileBackups <$>
                               List.find isSnapshotEntry (rev entries)))
                 end.
Proof.
  intros decode entries.
  destruct (afterSnapshot_links_prompts (H := Posix.ops) "/home/u" decode 10
              Samples.rewoundDisk "/log.jsonl") as [Hsession Hreturns].
  destruct Hreturns as [session Hparse].
  - reflexivity.
  - vm_compute. discriminate.
  - exact rewoundLog_parentsPrecede.
  - exact rewoundLog_rootsAreUsers.
  - vm_compute. lia.
  - exists session. split; [exact Hparse|]. exact (Hsession session Hparse).
Defined.

(** * Further properties of the backup store reconciler *)

Lemma diskVersions_elem files hash v file :
  (v, file) ∈ diskVersions files hash ->
  file ∈ files /\ matchBackupName file = Some (hash, v).
Proof.
  unfold diskVersions. intros (f & Hf & Hmatch)%list_elem_of_omap.
  destruct (matchBackupName f) as [[h v']|] eqn:Hm; [|done].
  case_bool_decide; [|done]. injection Hmatch as <- <-. by subst.
Qed.

Lemma beforeFirstAt_no_at s : "@"%char ∉ list_ascii_of_string (beforeFirstAt s).
Proof.
  induction s as [|c s IH]; simpl; [apply not_elem_of_nil|].
  destruct (Ascii.eqb_spec c "@") as [->|Hne]; simpl; [apply not_elem_of_nil|].
  apply not_elem_of_cons. split; [congruence|done].
Qed.

(** What [reconcileBackup] can do to an entry: nothing, or raise it to a
    backup of the listing that has the looked-up hash. *)
Lemma reconcileBackup_cases files b :
  reconcileBackup (groupByHash files) b = b
  \/ exists v file,
       (v, file) ∈ diskVersions files (beforeFirstAt (backupFileName b))
       /\ (forall v' file',
             (v', file') ∈ diskVersions files (beforeFirstAt (backupFileName b)) ->
             (v' <= v)%N)
       /\ (version b < Z.of_N v)%Z
       /\ reconcileBackup (groupByHash files) b
          = {| backupFileName := file; version := Z.of_N v;
               backupTime := backupTime b |}.
Proof.
  unfold reconcileBackup.
  destruct (negb (truthy (backupFileName b))); [by left|].
  destruct (matchBackupName (backupFileName b)); [|by left].
  rewrite groupByHash_lookup.
  destruct (diskVersions files _) as [|first others] eqn:Hdisk; [by left|].
  destruct (latestVersion_max first others) as [Hin Hmax].
  destruct (latestVersion first others) as [v file]. simpl in *.
  destruct (Z.ltb_spec (version b) (Z.of_N v)); [|by left].
  right. exists v, file. split; [done|]. split; [|done].
  intros v' file' Hin'. apply (Hmax (v', file') Hin').
Qed.

Lemma reconcileBackup_idempotent files b :
  reconcileBackup (groupByHash files) (reconcileBackup (groupByHash files) b)
    = reconcileBackup (groupByHash files) b.
Proof.
  destruct (reconcileBackup_cases files b)
    as [Hsame|(v & file & Hin & Hmax & Hlt & Hnew)].
  { by rewrite !Hsame. }
  rewrite Hnew. destruct (diskVersions_elem _ _ _ _ Hin) as [_ Hmatch].
  destruct (reconcileBackup_cases files
              {| backupFileName := file; version := Z.of_N v;
                 backupTime := backupTime b |})
    as [Hsame|(v' & file' & Hin' & _ & Hlt' & _)]; [done|].
  simpl in Hin', Hlt'.
  rewrite (beforeFirstAt_hash _ _ _ Hmatch (beforeFirstAt_no_at _)) in Hin'.
  specialize (Hmax _ _ Hin'). lia.
Qed.

Lemma reconcile_lookup files baseSnapshot i path b :
  baseSnapshot !! i = Some (path, b) ->
  reconcile files baseSnapshot !! i
    = Some (path, reconcileBackup (groupByHash files) b).
Proof.
  unfold reconcile. revert i.
  induction baseSnapshot as [|[path' b'] base IH]; intros i; [done|].
  destruct i as [|i]; simpl; [by intros [= -> ->]|apply IH].
Qed.

Lemma Forall2_diag {A} (R : A -> A -> Prop) (l : list A) :
  (forall x, R x x) -> Forall2 R l l.
Proof. intros HR. induction l; constructor; auto. Qed.

Section ReconcilerSafety.
Context `{PathOps}.
Variable homedir : string.

(** X8.  Whatever the disk holds (no directory, an unreadable one, any
    listing), the reconciled snapshot has the paths of the base snapshot in
    the same order, keeps every [backupTime], and lowers no version: an
    entry is left as it is or takes the name and the greater version of one
    of the listed files. *)
Theorem reconciler_keeps_paths_and_raises_versions fs sessionId baseSnapshot :
  Forall2 (fun old new =>
             new.1 = old.1
             /\ backupTime new.2 = backupTime old.2
             /\ (new.2 = old.2
                 \/ ((version old.2 < version new.2)%Z
                     /\ exists files hash v,
                          readdirSync fs
                            (join [claudeDir homedir; "file-history"; sessionId])
                            = Some files
                          /\ backupFileName new.2 ∈ files
                          /\ matchBackupName (backupFileName new.2) = Some (hash, v)
                          /\ version new.2 = Z.of_N v)))
          baseSnapshot
          (getLatestSnapshotFromDisk homedir fs sessionId baseSnapshot).
Proof.
  unfold getLatestSnapshotFromDisk.
  destruct (existsSync fs _); simpl;
    [|apply Forall2_diag; intros; tauto].
  destruct (readdirSync fs _) as [files|] eqn:Hdir;
    [|apply Forall2_diag; intros; tauto].
  unfold reconcile.
  induction baseSnapshot as [|[path b] base IH]; simpl; [constructor|].
  constructor; [|exact IH]. simpl. split; [done|].
  destruct (reconcileBackup_cases files b)
    as [->|(v & file & Hin & _ & Hlt & ->)]; [by split; [|left]|].
  simpl. split; [done|]. right. split; [done|].
  destruct (diskVersions_elem _ _ _ _ Hin) as [Hfile Hmatch].
  by exists files, (beforeFirstAt (backupFileName b)), v.
Qed.

(** X9.  Reconciling twice against the same disk is reconciling once. *)
Theorem reconciler_is_idempotent fs sessionId baseSnapshot :
  getLatestSnapshotFromDisk homedir fs sessionId
    (getLatestSnapshotFromDisk homedir fs sessionId baseSnapshot)
  = getLatestSnapshotFromDisk homedir fs sessionId baseSnapshot.
Proof.
  unfold getLatestSnapshotFromDisk.
  destruct (existsSync fs _); simpl; [|done].
  destruct (readdirSync fs _) as [files|]; [|done].
  unfold reconcile. induction baseSnapshot as [|[path b] base IH]; simpl; [done|].
  by rewrite reconcileBackup_idempotent, IH.
Qed.

(** X10.  With a readable backup directory, an entry whose recorded name is
    [hash@vN] for a hash without '@' takes the name and version of a listed
    backup of that hash with the greatest version when some listed backup of
    the hash has a version above the recorded one, and stays as it is when
    none has. *)
Theorem reconciler_takes_newest_backup fs sessionId baseSnapshot files i path b
    hash v0 :
  existsSync fs (join [claudeDir homedir; "file-history"; sessionId]) = true ->
  readdirSync fs (join [claudeDir homedir; "file-history"; sessionId]) = Some files ->
  baseSnapshot !! i = Some (path, b) ->
  matchBackupName (backupFileName b) = Some (hash, v0) ->
  "@"%char ∉ list_ascii_of_string hash ->
  exists b',
    getLatestSnapshotFromDisk homedir fs sessionId baseSnapshot !! i = Some (path, b')
    /\ ((exists v file, (v, file) ∈ diskVersions files hash
                        /\ (version b < Z.of_N v)%Z) ->
        exists v file,
          (v, file) ∈ diskVersions files hash
          /\ (forall v' file', (v', file') ∈ diskVersions files hash -> (v' <= v)%N)
          /\ b' = {| backupFileName := file; version := Z.of_N v;
                     backupTime := backupTime b |})
    /\ ((forall v file, (v, file) ∈ diskVersions files hash ->
                        (Z.of_N v <= version b)%Z) ->
        b' = b).
Proof.
  intros Hex Hdir Hi Hmatch Hat.
  rewrite (getLatestSnapshotFromDisk_listing homedir fs sessionId baseSnapshot files)
    by done.
  exists (reconcileBackup (groupByHash files) b). split.
  - by apply reconcile_lookup.
  - apply (reconcileBackup_spec files b hash v0 Hmatch Hat).
Qed.
End ReconcilerSafety.

Lemma reconciler_takes_newest_backup_witness :
  exists b',
    getLatestSnapshotFromDisk (H := Posix.ops) "/home/u" Samples.rewoundDisk "s1"
      [("f.ts", Samples.backup "h@v2" 2)] !! 0 = Some ("f.ts", b')
    /\ ((exists v file, (v, file) ∈ diskVersions ["h@v1"; "h@v2"; "h@v3"] "h"
                        /\ (version (Samples.backup "h@v2" 2) < Z.of_N v)%Z) ->
        exists v file,
          (v, file) ∈ diskVersions ["h@v1"; "h@v2"; "h@v3"] "h"
          /\ (forall v' file',
                (v', file') ∈ diskVersions ["h@v1"; "h@v2"; "h@v3"] "h" ->
                (v' <= v)%N)
          /\ b' = {| backupFileName := file; version := Z.of_N v;
                     backupTime := backupTime (Samples.backup "h@v2" 2) |})
    /\ ((forall v file, (v, file) ∈ diskVersions ["h@v1"; "h@v2"; "h@v3"] "h" ->
                        (Z.of_N v <= version (Samples.backup "h@v2" 2))%Z) ->
        b' = Samples.backup "h@v2" 2).
Proof.
  apply (reconciler_takes_newest_backup (H := Posix.ops) "/home/u"
           Samples.rewoundDisk "s1" [("f.ts", Samples.backup "h@v2" 2)]
           ["h@v1"; "h@v2"; "h@v3"] 0 "f.ts" (Samples.backup "h@v2" 2) "h" 2%N).
  - reflexivity.
  - reflexivity.
  - reflexivity.
  - reflexivity.
  - apply (bool_decide_unpack _). vm_compute. exact I.
Defined.

(** ** The pattern of backup file names *)

Lemma spanDigits_run digits rest :
  Forall (fun c => isDigit c = true) digits ->
  match rest with c :: _ => isDigit c = false | [] => True end ->
  spanDigits (digits ++ rest) = (digits, rest).
Proof.
  intros Hdigits Hrest. induction Hdigits as [|d digits Hd _ IH]; simpl.
  - destruct rest as [|c rest]; [done|]. simpl. by rewrite Hrest.
  - by rewrite Hd, IH.
Qed.

(** X11.  A file name [hash@vDIGITS], with a non-empty hash free of line
    terminators and at least one decimal digit, matches the pattern with that
    hash and the number the digits spell; the hash may itself contain '@' or
    "@v". *)
Theorem backup_name_is_recognised hash digits :
  hash <> [] ->
  Forall (fun c => isLineTerminator c = false) hash ->
  digits <> [] ->
  Forall (fun c => isDigit c = true) digits ->
  matchBackupName (string_of_list_ascii (hash ++ "@"%char :: "v"%char :: digits))
    = Some (string_of_list_ascii hash, parseInt digits).
Proof.
  intros Hhash Hlt Hdigits Hall. unfold matchBackupName.
  assert (spanDigits
            (rev (list_ascii_of_string
                    (string_of_list_ascii (hash ++ "@"%char :: "v"%char :: digits))))
          = (rev digits, "v"%char :: "@"%char :: rev hash)) as ->.
  { rewrite list_ascii_of_string_of_list_ascii, rev_app_distr. simpl.
    rewrite <- !app_assoc. simpl.
    apply spanDigits_run; [by apply Forall_rev|done]. }
  destruct (rev digits) as [|d revDigits] eqn:Hrev.
  { apply (f_equal (@rev ascii)) in Hrev. rewrite rev_involutive in Hrev. done. }
  simpl. rewrite bool_decide_eq_false_2.
  2:{ intros Hnil. apply (f_equal (@rev ascii)) in Hnil.
      rewrite rev_involutive in Hnil. done. }
  simpl. rewrite (proj2 (forallb_forall _ _)).
  - rewrite rev_involutive.
    change (rev revDigits ++ [d]) with (rev (d :: revDigits)).
    by rewrite <- Hrev, rev_involutive.
  - intros c Hc%in_rev. rewrite Forall_forall in Hlt.
    rewrite (Hlt c) by (by apply list_elem_of_In). done.
Qed.

Lemma backup_name_is_recognised_witness :
  matchBackupName "a@b@v12" = Some ("a@b", 12%N).
Proof.
  apply (backup_name_is_recognised
           ["a"; "@"; "b"]%char ["1"; "2"]%char);
    try discriminate; repeat constructor.
Defined.

(** * Further properties of the change-set deriver *)

Section DeriverFacts.
Context `{PathOps}.
Variable projectRoot : option string.

Lemma snapshotStep_fold_none prompt state ps :
  (forall p, p ∈ ps -> classifyCandidate projectRoot prompt p = None) ->
  foldl (snapshotStep projectRoot prompt) state ps = state.
Proof.
  revert state. induction ps as [|p ps IH]; intros state Hnone; simpl; [done|].
  unfold snapshotStep at 2. rewrite Hnone by apply list_elem_of_here.
  apply IH. intros q Hq. by apply Hnone, list_elem_of_further.
Qed.

(** X12.  When the two snapshots of a prompt are the same, the comparison of
    snapshots pushes no change and detects no path: whatever is reported for
    the prompt comes from its edited files, and nothing is reported when
    there is none. *)
Theorem equal_snapshots_give_no_snapshot_change prompt :
  beforeSnapshot prompt = afterSnapshot prompt ->
  snapshotChanges projectRoot prompt = ([], ∅)
  /\ (editedFiles prompt = [] -> getFileChangesForPrompt projectRoot prompt = []).
Proof.
  intros Hsame.
  assert (snapshotChanges projectRoot prompt = ([], ∅)) as Hnone.
  { unfold snapshotChanges. apply snapshotStep_fold_none. intros p _.
    unfold classifyCandidate. rewrite Hsame.
    destruct (lookupBackup (afterSnapshot prompt) p); [|done].
    by rewrite bool_decide_eq_false_2 by (by intros ?). }
  split; [done|]. intros Hedited.
  unfold getFileChangesForPrompt. by rewrite Hnone, Hedited.
Qed.

Lemma classifyCandidate_shape prompt p c :
  classifyCandidate projectRoot prompt p = Some c -> ChangeShape prompt c.
Proof.
  unfold classifyCandidate, ChangeShape.
  destruct (lookupBackup (beforeSnapshot prompt) p) as [b|],
           (lookupBackup (afterSnapshot prompt) p) as [a|]; try done.
  - case_bool_decide; [|done]. intros [= <-]. simpl.
    split; [done|]. split; [done|]. right. left. by exists b, a.
  - intros [= <-]. simpl. eauto.
  - destruct (resolveOriginal _ _ _ _ _) as [t|]; intros [= <-]; simpl.
    + split; [done|]. split; [done|]. left. eauto.
    + done.
Qed.

Lemma editedChange_shape prompt f : ChangeShape prompt (editedChange prompt f).
Proof.
  unfold editedChange, ChangeShape, mkChange. simpl.
  split; [done|]. split; [done|].
  set (backup := match mapGet f (beforeSnapshot prompt) with
                 | Some b => Some b
                 | None => _
                 end).
  destruct backup as [b|].
  - right. right. eauto.
  - destruct (resolveOriginal _ _ _ _ _) as [t|]; [|done]. left. eauto.
Qed.

Lemma snapshotChanges_shape prompt :
  Forall (ChangeShape prompt) (snapshotChanges projectRoot prompt).1.
Proof.
  unfold snapshotChanges. rewrite snapshotStep_fold. simpl.
  apply Forall_forall. intros c (p & _ & Hc)%list_elem_of_omap.
  by apply (classifyCandidate_shape prompt p).
Qed.

Lemma changes_have_shape prompt :
  Forall (ChangeShape prompt) (getFileChangesForPrompt projectRoot prompt).
Proof.
  unfold getFileChangesForPrompt.
  generalize (snapshotChanges_shape prompt).
  generalize (snapshotChanges projectRoot prompt).
  induction (editedFiles prompt) as [|f l IH]; intros state Hstate; simpl; [done|].
  apply IH. unfold editedStep.
  destruct (bool_decide _ && bool_decide _); [|done]. simpl.
  apply Forall_app. split; [done|]. constructor; [|constructor].
  apply editedChange_shape.
Qed.

(** X13.  Every change of a prompt carries the prompt's number and text, and
    has one of these forms: [added] with no backup and no original content;
    [deleted] with a before backup only; [modified] with an original content
    (a text, possibly empty, or the [null] of a file the Write tool created)
    and no backup, or with both backups, of different versions, or with a
    before backup only.  An after backup never comes without a before backup,
    nor an original content with a backup. *)
Theorem file_changes_are_well_formed prompt :
  Forall (ChangeShape prompt) (getFileChangesForPrompt projectRoot prompt).
Proof. apply changes_have_shape. Qed.

Lemma editedStep_fold_fresh prompt state l :
  exists rest,
    (foldl (editedStep prompt) state l).1 = state.1 ++ rest
    /\ NoDup (fc_filePath <$> rest)
    /\ forall c, c ∈ rest ->
         (fc_filePath c ∉ state.2)
         /\ exists f, f ∈ l /\ c = editedChange prompt f.
Proof.
  revert state. induction l as [|f l IH]; intros state; simpl.
  { exists []. split; [by rewrite app_nil_r|]. split; [constructor|].
    intros c Hc. by apply elem_of_nil in Hc. }
  destruct (IH (editedStep prompt state f)) as (rest & Heq & Hnd & Hfresh).
  unfold editedStep in Heq, Hfresh |- *.
  destruct (bool_decide (normalize f ∉ state.2)) eqn:Hn;
    [destruct (bool_decide (basename f ∉ state.2)) eqn:Hb|]; simpl in *.
  - exists (editedChange prompt f :: rest). split.
    { by rewrite Heq, <- app_assoc. }
    split.
    + rewrite fmap_cons. apply NoDup_cons. split; [|done].
      intros (c & Hpath & Hc)%list_elem_of_fmap.
      destruct (Hfresh c Hc) as [Hnot _]. apply Hnot. rewrite <- Hpath. simpl.
      rewrite !elem_of_union, elem_of_singleton. by do 2 left.
    + intros c [->|Hc]%elem_of_cons.
      * split; [by apply bool_decide_eq_true_1 in Hn|].
        exists f. split; [apply list_elem_of_here|done].
      * destruct (Hfresh c Hc) as [Hnot (g & Hg & ->)]. split.
        -- intros Hin. apply Hnot. apply elem_of_union. by right.
        -- exists g. split; [by apply list_elem_of_further|done].
  - exists rest. split; [done|]. split; [done|].
    intros c Hc. destruct (Hfresh c Hc) as [Hnot (g & Hg & ->)].
    split; [done|]. exists g. split; [by apply list_elem_of_further|done].
  - exists rest. split; [done|]. split; [done|].
    intros c Hc. destruct (Hfresh c Hc) as [Hnot (g & Hg & ->)].
    split; [done|]. exists g. split; [by apply list_elem_of_further|done].
Qed.

(** X14.  The changes of a prompt are the changes from the snapshots followed
    by changes for edited files; the latter are each the change of one edited
    file, have pairwise different paths, and none has the path of a change
    from the snapshots: a file is not listed a second time because it was
    edited. *)
Theorem edited_changes_have_fresh_paths prompt :
  exists rest,
    getFileChangesForPrompt projectRoot prompt
      = (snapshotChanges projectRoot prompt).1 ++ rest
    /\ NoDup (fc_filePath <$> rest)
    /\ forall c, c ∈ rest ->
         (exists f, f ∈ editedFiles prompt /\ c = editedChange prompt f)
         /\ forall c', c' ∈ (snapshotChanges projectRoot prompt).1 ->
                       fc_filePath c' <> fc_filePath c.
Proof.
  destruct (editedStep_fold_fresh prompt (snapshotChanges projectRoot prompt)
              (editedFiles prompt)) as (rest & Heq & Hnd & Hfresh).
  exists rest. split; [done|]. split; [done|].
  intros c Hc. destruct (Hfresh c Hc) as [Hnot Hf]. split; [done|].
  intros c' Hc' Hpath. apply Hnot. rewrite <- Hpath.
  by apply (snapshotChanges_pathsDetected projectRoot prompt).
Qed.

(** X15.  For every change of a prompt [openDiff] executes a command: an
    [added] change is shown as the empty document against the file on disk,
    never against a backup; a [deleted] change as its before backup against
    the empty document; and the changes that are opened without a diff are
    the [modified] ones without a before backup whose original content is
    [null] (a file that the Write tool created) or the empty text. *)
Theorem every_change_opens_an_editor sessionId prompt :
  Forall (fun c =>
            openDiff sessionId c <> NoCommand
            /\ (changeType c = added ->
                exists title,
                  openDiff sessionId c =
                    VscodeDiff (EmptySide (basename (fc_filePath c)))
                               (CurrentSide (fc_filePath c)) title)
            /\ (changeType c = deleted ->
                exists b title,
                  beforeBackup c = Some b
                  /\ openDiff sessionId c =
                       VscodeDiff
                         (SnapshotSide sessionId (backupFileName b) (fc_filePath c))
                         (EmptySide (basename (fc_filePath c))) title)
            /\ (forall p, openDiff sessionId c = VscodeOpen p <->
                          p = fc_filePath c
                          /\ changeType c = modified
                          /\ beforeBackup c = None
                          /\ (originalContent c = Some NullContent
                              \/ originalContent c = Some (TextContent ""))))
         (getFileChangesForPrompt projectRoot prompt).
Proof.
  eapply Forall_impl; [apply changes_have_shape|].
  intros c (_ & _ & Hshape). unfold openDiff.
  destruct (changeType c).
  - assert (truthyContent (originalContent c) = None <->
            originalContent c = Some NullContent
            \/ originalContent c = Some (TextContent "")
            \/ originalContent c = None) as Hfalsy.
    { destruct (originalContent c) as [[|t]|]; simpl;
        [split; [by left|done]| |split; [by right; right|done]].
      unfold truthy. destruct (String.eqb_spec t "") as [->|Hne]; simpl.
      - split; [by right; left|done].
      - split; [done|]. intros [?|[[= ?]|?]]; done. }
    destruct Hshape as [(Hb & Ha & [t Ht])
                       |[(b & a & Hb & Ha & _ & Ho)|([b Hb] & Ha & Ho)]];
      rewrite Hb, ?Ha.
    + destruct (truthyContent (originalContent c)) eqn:Htruthy.
      * split; [done|]. split; [done|]. split; [done|].
        intros p. split; [done|]. intros (_ & _ & _ & Hnone).
        assert (Some s = @None string) as Hno by (apply Hfalsy; tauto).
        done.
      * split; [done|]. split; [done|]. split; [done|].
        intros p. split.
        -- intros [= <-]. split; [done|]. split; [done|]. split; [done|].
           destruct (proj1 Hfalsy eq_refl) as [?|[?|?]];
             [by left|by right|congruence].
        -- by intros (-> & _).
    + rewrite Ho. simpl. split; [by destruct (String.eqb _ _)|].
      split; [done|]. split; [done|]. intros p. split.
      * by destruct (String.eqb _ _).
      * intros (_ & _ & ? & _). done.
    + rewrite Ho. simpl. split; [done|]. split; [done|]. split; [done|].
      intros p. split; [done|]. intros (_ & _ & ? & _). done.
  - destruct Hshape as (-> & -> & _). split; [done|]. split; [eauto|].
    split; [done|]. intros p. split; [done|]. intros (_ & ? & _). done.
  - destruct Hshape as ([b ->] & _ & _). split; [done|]. split; [done|].
    split; [eauto|]. intros p. split; [done|]. intros (_ & ? & _). done.
Qed.

(** X16.  For a change of a prompt [compareWithCurrent] does nothing exactly
    when the change has no before backup (an [added] change, or a first
    touch known by its original content only); otherwise it compares a
    backup with the file on disk, the after backup when there is one. *)
Theorem compare_with_current_needs_a_backup sessionId prompt :
  Forall (fun c =>
            (compareWithCurrent sessionId c = NoCommand <-> beforeBackup c = None)
            /\ (forall side right title,
                  compareWithCurrent sessionId c = VscodeDiff side right title ->
                  right = CurrentSide (fc_filePath c)
                  /\ exists b,
                       side = SnapshotSide sessionId (backupFileName b) (fc_filePath c)
                       /\ (afterBackup c = Some b
                           \/ (afterBackup c = None /\ beforeBackup c = Some b))))
         (getFileChangesForPrompt projectRoot prompt).
Proof.
  eapply Forall_impl; [apply changes_have_shape|].
  intros c (_ & _ & Hshape). unfold compareWithCurrent.
  assert (afterBackup c = None \/ is_Some (beforeBackup c)) as Hafter.
  { destruct (changeType c).
    - destruct Hshape as [(_ & -> & _)|[(b & a & -> & _)|(_ & -> & _)]]; eauto.
    - destruct Hshape as (_ & -> & _). by left.
    - destruct Hshape as (_ & -> & _). by left. }
  destruct (afterBackup c) as [a|], (beforeBackup c) as [b|]; simpl.
  - split; [done|]. intros side right title [= <- <- _].
    split; [done|]. exists a. split; [done|]. by left.
  - by destruct Hafter as [?|[? ?]].
  - split; [done|]. intros side right title [= <- <- _].
    split; [done|]. exists b. split; [done|]. by right.
  - done.
Qed.
End DeriverFacts.

(** A file that the Write tool created, once it has a first backup: the
    stored [null] is found by basename, the change is [modified] with a
    [null] original content, and [openDiff] opens the file without a diff. *)
Lemma created_file_is_opened_without_diff :
  getFileChangesForPrompt (H := Posix.ops) (Some "/proj") Samples.createdFile
    = [mkChange Samples.createdFile "/proj/new.ts" modified None None
         (Some NullContent)]
  /\ openDiff (H := Posix.ops) "s2"
       (mkChange Samples.createdFile "/proj/new.ts" modified None None
          (Some NullContent))
     = VscodeOpen "/proj/new.ts".
Proof. split; reflexivity. Qed.

Lemma equal_snapshots_give_no_snapshot_change_witness :
  snapshotChanges (H := Posix.ops) (Some "/proj") Samples.unseenEdit = ([], ∅)
  /\ (editedFiles Samples.unseenEdit = [] ->
      getFileChangesForPrompt (H := Posix.ops) (Some "/proj") Samples.unseenEdit = []).
Proof.
  apply (equal_snapshots_give_no_snapshot_change (H := Posix.ops) (Some "/proj")
           Samples.unseenEdit).
  reflexivity.
Defined.

(** * Transcript discovery *)

Lemma sortInsert_perm {A} (compare : A -> A -> Z) x l :
  sortInsert compare x l ≡ₚ x :: l.
Proof.
  induction l as [|y l IH]; simpl; [done|].
  destruct (compare x y <=? 0)%Z; [done|]. rewrite IH. apply Permutation_swap.
Qed.

Lemma sortWith_perm {A} (compare : A -> A -> Z) l : sortWith compare l ≡ₚ l.
Proof.
  induction l as [|x l IH]; simpl; [done|]. by rewrite sortInsert_perm, IH.
Qed.

Lemma sortInsert_sorted {A} (key : A -> Z) x l :
  StronglySorted (fun a b => (key b <= key a)%Z) l ->
  StronglySorted (fun a b => (key b <= key a)%Z)
                 (sortInsert (fun a b => (key b - key a)%Z) x l).
Proof.
  induction 1 as [|y l Hl IH Hy]; simpl.
  { constructor; constructor. }
  destruct (Z.leb_spec (key y - key x) 0) as [Hle|Hgt].
  - constructor; [by constructor|]. constructor; [lia|].
    eapply Forall_impl; [exact Hy|]. simpl. intros z Hz. lia.
  - constructor; [done|].
    rewrite (sortInsert_perm _ x l). constructor; [lia|done].
Qed.

Lemma sortWith_sorted {A} (key : A -> Z) l :
  StronglySorted (fun a b => (key b <= key a)%Z)
                 (sortWith (fun a b => (key b - key a)%Z) l).
Proof.
  induction l as [|x l IH]; simpl; [constructor|]. by apply sortInsert_sorted.
Qed.

Lemma encodePath_chars p :
  list_ascii_of_string (encodePath p)
    = (fun c => if Ascii.eqb c "/" then "-"%char else c) <$> list_ascii_of_string p.
Proof. induction p as [|c p IH]; simpl; [done|]. by rewrite IH. Qed.

Section DiscoveryFacts.
Context `{PathOps}.
Variable homedir : string.

(** X17.  The transcripts found for a workspace are the files of its project
    directory whose name ends in ".jsonl" and does not start with "agent-",
    each once per listing entry and given by its joined path, ordered by
    modification time with the newest first; a missing projects or project
    directory gives none. *)
Theorem found_transcripts_are_newest_first fs workspacePath transcripts :
  findTranscriptsForWorkspace homedir fs workspacePath = Some transcripts ->
  StronglySorted (fun a b => (statSync_mtime fs b <= statSync_mtime fs a)%Z)
                 transcripts
  /\ (existsSync fs (join [claudeDir homedir; "projects"]) = false
      \/ existsSync fs (join [join [claudeDir homedir; "projects"];
                              encodePath workspacePath]) = false ->
      transcripts = [])
  /\ forall files,
       existsSync fs (join [claudeDir homedir; "projects"]) = true ->
       existsSync fs (join [join [claudeDir homedir; "projects"];
                            encodePath workspacePath]) = true ->
       readdirSync fs (join [join [claudeDir homedir; "projects"];
                             encodePath workspacePath]) = Some files ->
       transcripts ≡ₚ
         (fun f => join [join [join [claudeDir homedir; "projects"];
                               encodePath workspacePath]; f])
           <$> filter (fun f => endsWith f ".jsonl" = true
                                /\ startsWith f "agent-" = false) files.
Proof.
  unfold findTranscriptsForWorkspace.
  destruct (existsSync fs (join [claudeDir homedir; "projects"])); simpl.
  2:{ intros [= <-]. split; [constructor|]. split; [done|]. done. }
  destruct (existsSync fs (join [join _; _])); simpl.
  2:{ intros [= <-]. split; [constructor|]. split; [done|]. done. }
  destruct (readdirSync fs _) as [files|]; simpl; [|done].
  intros [= <-]. split; [apply sortWith_sorted|].
  split; [by intros [?|?]|].
  intros files' _ _ [= <-]. rewrite sortWith_perm.
  clear. induction files as [|f files IH]; [done|].
  rewrite filter_cons. simpl.
  destruct (decide (endsWith f ".jsonl" = true /\ startsWith f "agent-" = false))
    as [[He Hs]|Hno].
  - unfold isTranscriptName at 1. rewrite He, Hs. simpl.
    by apply Permutation_skip.
  - assert (isTranscriptName f = false) as ->; [|exact IH].
    unfold isTranscriptName.
    destruct (endsWith f ".jsonl"), (startsWith f "agent-"); try done.
    by destruct Hno.
Qed.

(** X18.  The directory name of a workspace has no '/', has the length of
    the workspace path, and is its own directory name: the encoding only
    turns '/' into '-', so a workspace path and any path that differs from it
    by '/' against '-' get the same transcripts. *)
Theorem encoded_path_has_no_slash workspacePath :
  ("/"%char ∉ list_ascii_of_string (encodePath workspacePath))
  /\ String.length (encodePath workspacePath) = String.length workspacePath
  /\ encodePath (encodePath workspacePath) = encodePath workspacePath
  /\ forall fs,
       findTranscriptsForWorkspace homedir fs (encodePath workspacePath)
       = findTranscriptsForWorkspace homedir fs workspacePath.
Proof.
  assert (encodePath (encodePath workspacePath) = encodePath workspacePath) as Hidem.
  { induction workspacePath as [|c p IH]; simpl; [done|]. rewrite IH. f_equal.
    destruct (Ascii.eqb_spec c "/"); [done|].
    by destruct (Ascii.eqb_spec c "/"). }
  split; [|split; [|split]].
  - induction workspacePath as [|c p IH]; simpl; [apply not_elem_of_nil|].
    apply not_elem_of_cons. split; [|by apply IH; injection Hidem].
    destruct (Ascii.eqb_spec c "/"); [done|congruence].
  - clear. induction workspacePath as [|c p IH]; simpl; [done|]. by rewrite IH.
  - done.
  - intros fs. unfold findTranscriptsForWorkspace. by rewrite Hidem.
Qed.
End DiscoveryFacts.

Lemma found_transcripts_are_newest_first_witness :
  findTranscriptsForWorkspace (H := Posix.ops) "/home/u" Samples.discoveryDisk "/proj"
    = Some ["/home/u/.claude/projects/-proj/new.jsonl";
            "/home/u/.claude/projects/-proj/old.jsonl"]
  /\ StronglySorted
       (fun a b => (statSync_mtime Samples.discoveryDisk b
                    <= statSync_mtime Samples.discoveryDisk a)%Z)
       ["/home/u/.claude/projects/-proj/new.jsonl";
        "/home/u/.claude/projects/-proj/old.jsonl"].
Proof.
  split; [reflexivity|].
  apply (found_transcripts_are_newest_first (H := Posix.ops) "/home/u"
           Samples.discoveryDisk "/proj"). reflexivity.
Defined.

(** * Backup files and their URIs *)

Lemma split_no_separator sep s :
  sep ∉ list_ascii_of_string s -> split sep s = [s].
Proof.
  induction s as [|c s IH]; simpl; [done|].
  intros [Hc Hs]%not_elem_of_cons.
  destruct (Ascii.eqb_spec c sep); [congruence|]. by rewrite IH.
Qed.

Lemma split_at_separator sep s rest :
  sep ∉ list_ascii_of_string s ->
  split sep (s +:+ String sep rest) = s :: split sep rest.
Proof.
  induction s as [|c s IH]; simpl.
  - intros _. by rewrite Ascii.eqb_refl.
  - intros [Hc Hs]%not_elem_of_cons.
    destruct (Ascii.eqb_spec c sep); [congruence|]. by rewrite IH.
Qed.

Lemma truthy_true s : s <> "" -> truthy s = true.
Proof. intros Hs. unfold truthy. by destruct (String.eqb_spec s ""). Qed.

Section UriFacts.
Context `{PathOps}.
Variable homedir : string.

(** X19.  The path "/session/name" of a snapshot URI, for a non-empty
    session id and backup name without '/', is parsed back into the two, and
    the content provider then returns what [readBackupFile] reads for them:
    the backup's text, or the "File not found" notice when the file is
    missing. *)
Theorem snapshot_uri_round_trip fs sessionId backupFileName :
  sessionId <> "" -> backupFileName <> "" ->
  "/"%char ∉ list_ascii_of_string sessionId ->
  "/"%char ∉ list_ascii_of_string backupFileName ->
  parseUri ("/" +:+ sessionId +:+ "/" +:+ backupFileName)
    = (sessionId, backupFileName)
  /\ provideTextDocumentContent homedir fs
       ("/" +:+ sessionId +:+ "/" +:+ backupFileName)
     = match readBackupFile homedir fs sessionId backupFileName with
       | Some text => text
       | None => "[File not found: " +:+ backupFileName +:+ "]"
       end.
Proof.
  intros Hs Hb Hsslash Hbslash.
  assert (parseUri ("/" +:+ sessionId +:+ "/" +:+ backupFileName)
          = (sessionId, backupFileName)) as Hparse.
  { unfold parseUri.
    change ("/" +:+ sessionId +:+ "/" +:+ backupFileName)
      with ("" +:+ String "/"%char (sessionId +:+ String "/"%char backupFileName)).
    rewrite split_at_separator by apply not_elem_of_nil.
    rewrite split_at_separator, split_no_separator by done.
    simpl. by rewrite !truthy_true. }
  split; [done|].
  unfold provideTextDocumentContent, readBackupFile, getBackupFilePath.
  rewrite Hparse, !truthy_true by done. simpl.
  by destruct (existsSync fs _).
Qed.
End UriFacts.

Lemma snapshot_uri_round_trip_witness :
  parseUri "/s1/h@v1" = ("s1", "h@v1")
  /\ provideTextDocumentContent (H := Posix.ops) "/home/u" Samples.backupDisk "/s1/h@v1"
     = match readBackupFile (H := Posix.ops) "/home/u" Samples.backupDisk "s1" "h@v1" with
       | Some text => text
       | None => "[File not found: " +:+ "h@v1" +:+ "]"
       end.
Proof.
  apply (snapshot_uri_round_trip (H := Posix.ops) "/home/u" Samples.backupDisk
           "s1" "h@v1"); try discriminate;
    (apply (bool_decide_unpack _); vm_compute; exact I).
Defined.

(** * Prompt labels *)

Lemma collapseWhiteSpace_spaces inRun text :
  Forall (fun u => isSpaceUnit u = true -> u = 32%N)
         (collapseWhiteSpace inRun text).
Proof.
  revert inRun. induction text as [|u text IH]; intros inRun; simpl; [constructor|].
  destruct (isSpaceUnit u) eqn:Hu.
  - destruct inRun; [apply IH|]. constructor; [done|apply IH].
  - constructor; [congruence|apply IH].
Qed.

Lemma trimStartUnits_units (P : N -> Prop) text :
  Forall P text -> Forall P (trimStartUnits text).
Proof.
  induction text as [|u text IH]; simpl; [done|]. intros Hall.
  destruct (isSpaceUnit u); [|done]. apply IH. by inversion Hall.
Qed.

Lemma trimUnits_units (P : N -> Prop) text :
  Forall P text -> Forall P (trimUnits text).
Proof.
  intros Hall. unfold trimUnits.
  by apply Forall_reverse, trimStartUnits_units, Forall_reverse,
           trimStartUnits_units.
Qed.

(** X20.  A label text has at most [maxLength] UTF-16 code units, for a
    [maxLength] of three or more, and it is on one line: the only white
    space in it, of all that [\s] matches, is the space. *)
Theorem truncated_text_fits text maxLength :
  3 <= maxLength ->
  length (truncateText text maxLength) <= maxLength
  /\ Forall (fun u => isSpaceUnit u = true -> u = 32%N)
            (truncateText text maxLength).
Proof.
  intros Hmax. unfold truncateText.
  assert (Forall (fun u => isSpaceUnit u = true -> u = 32%N)
            (trimUnits (collapseWhiteSpace false text))) as Hws
    by apply trimUnits_units, collapseWhiteSpace_spaces.
  destruct (Nat.leb_spec (length (trimUnits (collapseWhiteSpace false text)))
              maxLength) as [Hle|Hgt].
  - done.
  - split.
    + rewrite length_app, length_take. simpl. lia.
    + apply Forall_app. split; [by apply Forall_take|].
      repeat constructor; discriminate.
Qed.

(** "fix", a no-break space, "the", a line feed, two spaces, "bug", a
    space, five units with two accented letters (U+00E9) and a space: 20
    code units, 17 once normalized, cut to 9 and the three full stops.  The
    11 units "cafe ole ab", with the same accented letter twice, fit a
    [maxLength] of 11 and are returned whole. *)
Lemma truncated_text_fits_witness :
  truncateText [102; 105; 120; 160; 116; 104; 101; 10; 32; 32; 98; 117; 103;
                32; 100; 39; 233; 116; 233; 32]%N 12
    = [102; 105; 120; 32; 116; 104; 101; 32; 98; 46; 46; 46]%N
  /\ truncateText [99; 97; 102; 233; 32; 111; 108; 233; 32; 97; 98]%N 11
     = [99; 97; 102; 233; 32; 111; 108; 233; 32; 97; 98]%N
  /\ length (truncateText
               [102; 105; 120; 160; 116; 104; 101; 10; 32; 32; 98; 117; 103;
                32; 100; 39; 233; 116; 233; 32]%N 12) <= 12.
Proof.
  split; [reflexivity|]. split; [reflexivity|].
  apply (truncated_text_fits _ 12). lia.
Defined.

(** * What the first pass records *)

Lemma setAdd_elem x y l : x ∈ setAdd y l <-> x ∈ l \/ x = y.
Proof.
  unfold setAdd. case_bool_decide as Hy.
  - split; [by left|]. intros [?| ->]; done.
  - by rewrite elem_of_app, list_elem_of_singleton.
Qed.

Lemma setAdd_NoDup x l : NoDup l -> NoDup (setAdd x l).
Proof.
  intros Hl. unfold setAdd. case_bool_decide as Hx; [done|].
  apply NoDup_app. split; [done|]. split; [|apply NoDup_singleton].
  intros y Hy ->%list_elem_of_singleton. done.
Qed.

Lemma mapGet_snoc {V} k k' (v : V) m :
  mapGet k (m ++ [(k', v)]) =
    match mapGet k m with
    | Some w => Some w
    | None => if String.eqb k' k then Some v else None
    end.
Proof.
  induction m as [|[k0 v0] m IH]; simpl; [done|].
  by destruct (String.eqb k0 k).
Qed.

Lemma recordTool_edits rootId name a :
  editedFilesPerPrompt (recordTool rootId name a) = editedFilesPerPrompt a
  /\ originalContentsPerPrompt (recordTool rootId name a)
       = originalContentsPerPrompt a.
Proof. unfold recordTool. by destruct (truthyO rootId). Qed.

Lemma attributeTools_edits fuel entries e blocks a a1 :
  attributeTools fuel entries e blocks a = Some a1 ->
  editedFilesPerPrompt a1 = editedFilesPerPrompt a
  /\ originalContentsPerPrompt a1 = originalContentsPerPrompt a.
Proof.
  revert a. induction blocks as [|block blocks IH]; intros a; simpl.
  { by intros [= ->]. }
  destruct (isToolUse block) as [name|]; [|apply IH].
  destruct (toolRootOf fuel entries e) as [rootId|]; simpl; [|done].
  intros Hrest. apply IH in Hrest as [-> ->]. apply recordTool_edits.
Qed.

(** What one entry of the first pass does to the edited files and to the
    original contents. *)
Lemma firstPassEntry_edits fuel entries e a a' :
  firstPassEntry fuel entries e a = Some a' ->
  editedFilesPerPrompt a' =
    match editOf fuel entries e with
    | Some (r, f, _) =>
        <[r := setAdd f (default [] (editedFilesPerPrompt a !! r))]>
          (editedFilesPerPrompt a)
    | None => editedFilesPerPrompt a
    end
  /\ originalContentsPerPrompt a' =
       match editOf fuel entries e with
       | Some (r, f, Some original) =>
           <[r := match mapGet f (default [] (originalContentsPerPrompt a !! r)) with
                  | Some _ => default [] (originalContentsPerPrompt a !! r)
                  | None => default [] (originalContentsPerPrompt a !! r)
                              ++ [(f, original)]
                  end]> (originalContentsPerPrompt a)
       | _ => originalContentsPerPrompt a
       end.
Proof.
  unfold firstPassEntry, editOf.
  destruct (if bool_decide (type e = "assistant") then _ else _) as [a1|] eqn:Htools;
    simpl; [|done].
  assert (editedFilesPerPrompt a1 = editedFilesPerPrompt a
          /\ originalContentsPerPrompt a1 = originalContentsPerPrompt a)
    as [Hedited Horiginals].
  { case_bool_decide.
    - destruct (content e) as [[?|blocks]|]; try by injection Htools as <-.
      by apply attributeTools_edits in Htools.
    - by injection Htools as <-. }
  destruct (isUser e); [|intros [= <-]; done].
  destruct (toolUseResult e) as [result|]; simpl; [|intros [= <-]; done].
  destruct (truthyO (filePath result)) as [file|]; simpl; [|intros [= <-]; done].
  destruct (editRootOf fuel entries e) as [rootId|]; simpl; [|done].
  intros [= <-]. unfold recordEdit.
  destruct (truthyO rootId) as [r|]; simpl; [|done].
  rewrite Hedited, Horiginals. split; [done|].
  by destruct (originalFile result).
Qed.

Lemma recordEdit_tools rootId file original a :
  toolsPerPrompt (recordEdit rootId file original a) = toolsPerPrompt a.
Proof. unfold recordEdit. by destruct (truthyO rootId). Qed.

Lemma attributeTools_tools fuel entries e blocks a a1 r name :
  attributeTools fuel entries e blocks a = Some a1 ->
  name ∈ default [] (toolsPerPrompt a1 !! r) <->
  name ∈ default [] (toolsPerPrompt a !! r)
  \/ exists block rootId,
       block ∈ blocks /\ isToolUse block = Some name
       /\ toolRootOf fuel entries e = Some rootId /\ truthyO rootId = Some r.
Proof.
  revert a. induction blocks as [|block blocks IH]; intros a; simpl.
  { intros [= ->]. split; [by left|].
    intros [?|(block & ? & Hin & _)]; [done|]. by apply elem_of_nil in Hin. }
  destruct (isToolUse block) as [name'|] eqn:Hblock.
  - destruct (toolRootOf fuel entries e) as [rootId|] eqn:Hroot; simpl; [|done].
    intros Hrest. rewrite (IH _ Hrest). clear IH Hrest.
    unfold recordTool. destruct (truthyO rootId) as [r'|] eqn:Hr'; simpl.
    + destruct (decide (r' = r)) as [->|Hne].
      * rewrite lookup_insert_eq. simpl. rewrite setAdd_elem. split.
        -- intros [[?| ->]|(b & ro & Hin & ? & ? & ?)]; [by left| |].
           ++ right. exists block, rootId. rewrite elem_of_cons. split; [by left|done].
           ++ right. exists b, ro. rewrite elem_of_cons. split; [by right|done].
        -- intros [?|(b & ro & [->|Hin]%elem_of_cons & Hb & Hro & Hr)];
             [by left; left| |].
           ++ left. right. congruence.
           ++ right. by exists b, ro.
      * rewrite lookup_insert_ne by done. split.
        -- intros [?|(b & ro & Hin & ? & ? & ?)]; [by left|].
           right. exists b, ro. rewrite elem_of_cons. split; [by right|done].
        -- intros [?|(b & ro & [->|Hin]%elem_of_cons & Hb & Hro & Hr)];
             [by left| |].
           ++ congruence.
           ++ right. by exists b, ro.
    + split.
      * intros [?|(b & ro & Hin & ? & ? & ?)]; [by left|].
        right. exists b, ro. rewrite elem_of_cons. split; [by right|done].
      * intros [?|(b & ro & [->|Hin]%elem_of_cons & Hb & Hro & Hr)];
          [by left| |].
        -- congruence.
        -- right. by exists b, ro.
  - intros Hrest. rewrite (IH _ Hrest). split.
    + intros [?|(b & ro & Hin & ? & ? & ?)]; [by left|].
      right. exists b, ro. rewrite elem_of_cons. split; [by right|done].
    + intros [?|(b & ro & [->|Hin]%elem_of_cons & Hb & Hro & Hr)];
        [by left| |].
      * congruence.
      * right. by exists b, ro.
Qed.

Lemma firstPassEntry_tools fuel entries e a a' r name :
  firstPassEntry fuel entries e a = Some a' ->
  name ∈ default [] (toolsPerPrompt a' !! r) <->
  name ∈ default [] (toolsPerPrompt a !! r) \/ ToolUnder fuel entries r name e.
Proof.
  unfold firstPassEntry, ToolUnder.
  destruct (if bool_decide (type e = "assistant") then _ else _) as [a1|] eqn:Htools;
    simpl; [|done].
  intros Hedit.
  assert (toolsPerPrompt a' = toolsPerPrompt a1) as ->.
  { destruct (isUser e); [|by injection Hedit as <-].
    destruct (toolUseResult e) as [result|]; [|by injection Hedit as <-].
    destruct (truthyO (filePath result)) as [file|]; [|by injection Hedit as <-].
    destruct (editRootOf fuel entries e) as [rootId|]; simpl in Hedit; [|done].
    injection Hedit as <-. apply recordEdit_tools. }
  clear Hedit. case_bool_decide as Hty.
  - destruct (content e) as [[s|blocks]|] eqn:Hcontent.
    + injection Htools as <-. split; [by left|].
      intros [?|(_ & ? & ? & ? & ? & _)]; done.
    + rewrite (attributeTools_tools _ _ _ _ _ _ r name Htools). split.
      * intros [?|(b & ro & ?)]; [by left|]. right. split; [done|].
        by exists blocks, b, ro.
      * intros [?|(_ & bs & b & ro & [= <-] & ?)]; [by left|]. right.
        by exists b, ro.
    + injection Htools as <-. split; [by left|].
      intros [?|(_ & ? & ? & ? & ? & _)]; done.
  - injection Htools as <-. split; [by left|]. intros [?|[? _]]; done.
Qed.

Lemma firstPassFrom_tools fuel entries rest a a' r name :
  firstPassFrom fuel entries rest a = Some a' ->
  name ∈ default [] (toolsPerPrompt a' !! r) <->
  name ∈ default [] (toolsPerPrompt a !! r)
  \/ exists e, e ∈ rest /\ ToolUnder fuel entries r name e.
Proof.
  revert a. induction rest as [|e rest IH]; intros a; simpl.
  { intros [= ->]. split; [by left|].
    intros [?|(e & Hin & _)]; [done|]. by apply elem_of_nil in Hin. }
  destruct (firstPassEntry fuel entries e a) as [a1|] eqn:Hstep; simpl; [|done].
  intros Hrest.
  rewrite (IH _ Hrest), (firstPassEntry_tools _ _ _ _ _ r name Hstep).
  split.
  - intros [[?|?]|(e' & Hin & ?)]; [by left| |].
    + right. exists e. split; [apply elem_of_cons; by left|done].
    + right. exists e'. split; [apply elem_of_cons; by right|done].
  - intros [?|(e' & [->|Hin]%elem_of_cons & ?)];
      [by left; left|by left; right|].
    right. by exists e'.
Qed.

Lemma firstPassFrom_edited fuel entries rest a a' r f :
  firstPassFrom fuel entries rest a = Some a' ->
  f ∈ default [] (editedFilesPerPrompt a' !! r) <->
  f ∈ default [] (editedFilesPerPrompt a !! r)
  \/ exists e o, e ∈ rest /\ editOf fuel entries e = Some (r, f, o).
Proof.
  revert a. induction rest as [|e rest IH]; intros a; simpl.
  { intros [= ->]. split; [by left|].
    intros [?|(e & ? & Hin & _)]; [done|]. by apply elem_of_nil in Hin. }
  destruct (firstPassEntry fuel entries e a) as [a1|] eqn:Hstep; simpl; [|done].
  intros Hrest. rewrite (IH _ Hrest). clear IH Hrest.
  apply firstPassEntry_edits in Hstep as [-> _].
  destruct (editOf fuel entries e) as [[[r' f'] o']|] eqn:Hedit.
  - destruct (decide (r' = r)) as [->|Hne].
    + rewrite lookup_insert_eq. simpl. rewrite setAdd_elem. split.
      * intros [[?| ->]|(e' & o & Hin & ?)]; [by left| |].
        -- right. exists e, o'. split; [apply elem_of_cons; by left|done].
        -- right. exists e', o. split; [apply elem_of_cons; by right|done].
      * intros [?|(e' & o & [->|Hin]%elem_of_cons & He')]; [by left; left| |].
        -- left. right. congruence.
        -- right. by exists e', o.
    + rewrite lookup_insert_ne by done. split.
      * intros [?|(e' & o & Hin & ?)]; [by left|].
        right. exists e', o. split; [apply elem_of_cons; by right|done].
      * intros [?|(e' & o & [->|Hin]%elem_of_cons & He')]; [by left| |].
        -- congruence.
        -- right. by exists e', o.
  - split.
    + intros [?|(e' & o & Hin & ?)]; [by left|].
      right. exists e', o. split; [apply elem_of_cons; by right|done].
    + intros [?|(e' & o & [->|Hin]%elem_of_cons & He')]; [by left| |].
      * congruence.
      * right. by exists e', o.
Qed.

Lemma attributeTools_NoDup fuel entries e blocks a a1 r :
  attributeTools fuel entries e blocks a = Some a1 ->
  NoDup (default [] (toolsPerPrompt a !! r)) ->
  NoDup (default [] (toolsPerPrompt a1 !! r)).
Proof.
  revert a. induction blocks as [|block blocks IH]; intros a; simpl.
  { by intros [= ->]. }
  destruct (isToolUse block) as [name|]; [|apply IH].
  destruct (toolRootOf fuel entries e) as [rootId|]; simpl; [|done].
  intros Hrest Ha. apply (IH _ Hrest). unfold recordTool.
  destruct (truthyO rootId) as [r'|]; simpl; [|done].
  destruct (decide (r' = r)) as [->|Hne].
  - rewrite lookup_insert_eq. simpl. by apply setAdd_NoDup.
  - by rewrite lookup_insert_ne.
Qed.

Lemma firstPassFrom_NoDup fuel entries rest a a' r :
  firstPassFrom fuel entries rest a = Some a' ->
  NoDup (default [] (toolsPerPrompt a !! r))
  /\ NoDup (default [] (editedFilesPerPrompt a !! r)) ->
  NoDup (default [] (toolsPerPrompt a' !! r))
  /\ NoDup (default [] (editedFilesPerPrompt a' !! r)).
Proof.
  revert a. induction rest as [|e rest IH]; intros a; simpl.
  { by intros [= ->]. }
  destruct (firstPassEntry fuel entries e a) as [a1|] eqn:Hstep; simpl; [|done].
  intros Hrest [Htools Hedited]. apply (IH _ Hrest). clear IH Hrest. split.
  - clear Hedited. unfold firstPassEntry in Hstep.
    destruct (if bool_decide (type e = "assistant") then _ else _) as [a0|] eqn:Ha0;
      simpl in Hstep; [|done].
    assert (toolsPerPrompt a1 = toolsPerPrompt a0) as ->.
    { destruct (isUser e); [|by injection Hstep as <-].
      destruct (toolUseResult e) as [result|]; [|by injection Hstep as <-].
      destruct (truthyO (filePath result)) as [file|]; [|by injection Hstep as <-].
      destruct (editRootOf fuel entries e) as [rootId|]; simpl in Hstep; [|done].
      injection Hstep as <-. apply recordEdit_tools. }
    case_bool_decide.
    + destruct (content e) as [[?|blocks]|]; try by injection Ha0 as <-.
      by apply (attributeTools_NoDup _ _ _ _ _ _ r Ha0).
    + by injection Ha0 as <-.
  - apply firstPassEntry_edits in Hstep as [-> _].
    destruct (editOf fuel entries e) as [[[r' f'] o']|]; [|done].
    destruct (decide (r' = r)) as [->|Hne].
    + rewrite lookup_insert_eq. simpl. by apply setAdd_NoDup.
    + by rewrite lookup_insert_ne.
Qed.

Lemma originalUnder_Some fuel entries r f e original :
  originalUnder fuel entries r f e = Some original <->
  editOf fuel entries e = Some (r, f, Some original).
Proof.
  unfold originalUnder.
  destruct (editOf fuel entries e) as [[[r' f'] [o|]]|]; [|done..].
  case_bool_decide as Hrf.
  - destruct Hrf as [-> ->]. split; congruence.
  - split; [done|]. intros [= -> -> ->]. by destruct Hrf.
Qed.

Lemma originalUnder_None fuel entries r f e :
  originalUnder fuel entries r f e = None <->
  forall original, editOf fuel entries e <> Some (r, f, Some original).
Proof.
  split.
  - intros Hnone original Hedit%originalUnder_Some. congruence.
  - intros Hno. destruct (originalUnder fuel entries r f e) as [o|] eqn:Ho; [|done].
    apply originalUnder_Some in Ho. by destruct (Hno o).
Qed.

Lemma firstPassEntry_original fuel entries e a a' r f :
  firstPassEntry fuel entries e a = Some a' ->
  mapGet f (default [] (originalContentsPerPrompt a' !! r)) =
    match mapGet f (default [] (originalContentsPerPrompt a !! r)) with
    | Some original => Some original
    | None => originalUnder fuel entries r f e
    end.
Proof.
  intros [_ ->]%firstPassEntry_edits. unfold originalUnder.
  destruct (editOf fuel entries e) as [[[r' f'] [o|]]|];
    try by destruct (mapGet f _).
  destruct (decide (r' = r)) as [->|Hne].
  - rewrite lookup_insert_eq. simpl.
    destruct (mapGet f' (default [] (originalContentsPerPrompt a !! r))) as [w|] eqn:Hw.
    + case_bool_decide as Hrf; [|by destruct (mapGet f _)].
      destruct Hrf as [_ ->]. by rewrite Hw.
    + rewrite mapGet_snoc.
      destruct (mapGet f (default [] (originalContentsPerPrompt a !! r))); [done|].
      destruct (String.eqb_spec f' f) as [->|Hf].
      * by rewrite bool_decide_eq_true_2.
      * rewrite bool_decide_eq_false_2; [done|]. by intros [_ ?].
  - rewrite lookup_insert_ne by done.
    rewrite bool_decide_eq_false_2 by (by intros [? _]).
    by destruct (mapGet f _).
Qed.

Lemma firstPassFrom_original fuel entries rest a a' r f :
  firstPassFrom fuel entries rest a = Some a' ->
  mapGet f (default [] (originalContentsPerPrompt a' !! r)) =
    match mapGet f (default [] (originalContentsPerPrompt a !! r)) with
    | Some original => Some original
    | None => head (omap (originalUnder fuel entries r f) rest)
    end.
Proof.
  revert a. induction rest as [|e rest IH]; intros a; simpl.
  { intros [= ->]. by destruct (mapGet f _). }
  destruct (firstPassEntry fuel entries e a) as [a1|] eqn:Hstep; simpl; [|done].
  intros Hrest. rewrite (IH _ Hrest), (firstPassEntry_original _ _ _ _ _ r f Hstep).
  destruct (mapGet f (default [] (originalContentsPerPrompt a !! r))); [done|].
  by destruct (originalUnder fuel entries r f e).
Qed.

(** The first element a partial function accepts. *)
Lemma head_omap_Some {A B} (g : A -> option B) (l : list A) (b : B) :
  head (omap g l) = Some b <->
  exists pre x post,
    l = pre ++ x :: post /\ g x = Some b /\ forall y, y ∈ pre -> g y = None.
Proof.
  induction l as [|x l IH]; simpl.
  { split; [done|]. intros (pre & x & post & Hl & _). by destruct pre. }
  destruct (g x) as [b'|] eqn:Hx; simpl.
  - split.
    + intros [= ->]. exists [], x, l. split; [done|]. split; [done|].
      intros y Hy. by apply elem_of_nil in Hy.
    + intros ([|y pre] & x' & post & Hl & Hx' & Hpre).
      * injection Hl as <- _. congruence.
      * injection Hl as <- _. rewrite (Hpre x) in Hx; [done|].
        apply elem_of_cons. by left.
  - rewrite IH. split.
    + intros (pre & x' & post & -> & Hx' & Hpre).
      exists (x :: pre), x', post. split; [done|]. split; [done|].
      intros y [->|Hy]%elem_of_cons; [done|]. by apply Hpre.
    + intros ([|y pre] & x' & post & Hl & Hx' & Hpre).
      * injection Hl as <- _. congruence.
      * injection Hl as <- ->. exists pre, x', post. split; [done|].
        split; [done|]. intros z Hz. apply Hpre, elem_of_cons. by right.
Qed.

Lemma thirdPass_attribution latest ps p :
  p ∈ thirdPass latest ps ->
  exists q, q ∈ ps /\ p_messageId p = p_messageId q
            /\ toolsUsed p = toolsUsed q /\ editedFiles p = editedFiles q
            /\ originalFileContents p = originalFileContents q.
Proof.
  intros [i Hi]%list_elem_of_lookup. rewrite thirdPass_lookup in Hi.
  destruct (ps !! i) as [q|] eqn:Hq; [|done]. injection Hi as <-.
  exists q. split; [by apply list_elem_of_lookup_2 in Hq|done].
Qed.

Lemma secondPass_attribution activeUuids snapshotMap a entries q :
  q ∈ secondPass activeUuids snapshotMap a entries ->
  toolsUsed q = default [] (toolsPerPrompt a !! p_messageId q)
  /\ editedFiles q = default [] (editedFilesPerPrompt a !! p_messageId q)
  /\ originalFileContents q
     = default [] (originalContentsPerPrompt a !! p_messageId q).
Proof.
  rewrite secondPass_spec. intros [i Hi]%list_elem_of_lookup.
  rewrite list_lookup_imap in Hi.
  destruct (filter _ _ !! i) as [e|]; [|done]. by injection Hi as <-.
Qed.

Section AttributionFacts.
Context `{PathOps}.
Variable homedir : string.
Variable JSON_parse : string -> option TranscriptEntry.

(** X21.  The tools of a prompt are, without repetition, the names of the
    tool invocations of the log that the tool walk attributes to the
    prompt's id. *)
Theorem tools_used_are_the_attributed_invocations fuel fs path activeUuids a :
  existsSync fs path = true ->
  loadEntries JSON_parse (readFileSync fs path) <> [] ->
  findActiveConversationPath fuel (loadEntries JSON_parse (readFileSync fs path))
    = Some activeUuids ->
  firstPass fuel (loadEntries JSON_parse (readFileSync fs path)) = Some a ->
  exists session,
    parseTranscript homedir JSON_parse fuel fs path = Some (Some session)
    /\ forall p, p ∈ prompts session ->
         NoDup (toolsUsed p)
         /\ forall name,
              name ∈ toolsUsed p <->
              exists e, e ∈ loadEntries JSON_parse (readFileSync fs path)
                        /\ ToolUnder fuel
                             (loadEntries JSON_parse (readFileSync fs path))
                             (p_messageId p) name e.
Proof.
  intros Hex Hne Hactive Hfirst.
  destruct (parseTranscript_returns homedir JSON_parse fuel fs path activeUuids a
              Hex Hne Hactive Hfirst) as (session & Hparse & Hprompts).
  exists session. split; [done|]. intros p Hp. rewrite Hprompts in Hp.
  apply thirdPass_attribution in Hp as (q & Hq & -> & -> & _).
  apply secondPass_attribution in Hq as (-> & _). split.
  - apply (firstPassFrom_NoDup _ _ _ _ _ (p_messageId q) Hfirst).
    split; apply NoDup_nil_2.
  - intros name. rewrite (firstPassFrom_tools _ _ _ _ _ (p_messageId q) name Hfirst).
    split; [|by right]. intros [Hin|?]; [|done]. by apply elem_of_nil in Hin.
Qed.

(** X22.  The edited files of a prompt are, without repetition, the files of
    the tool results of the log that the edit walk attributes to the
    prompt's id. *)
Theorem edited_files_are_the_attributed_results fuel fs path activeUuids a :
  existsSync fs path = true ->
  loadEntries JSON_parse (readFileSync fs path) <> [] ->
  findActiveConversationPath fuel (loadEntries JSON_parse (readFileSync fs path))
    = Some activeUuids ->
  firstPass fuel (loadEntries JSON_parse (readFileSync fs path)) = Some a ->
  exists session,
    parseTranscript homedir JSON_parse fuel fs path = Some (Some session)
    /\ forall p, p ∈ prompts session ->
         NoDup (editedFiles p)
         /\ forall f,
              f ∈ editedFiles p <->
              exists e original,
                e ∈ loadEntries JSON_parse (readFileSync fs path)
                /\ editOf fuel (loadEntries JSON_parse (readFileSync fs path)) e
                   = Some (p_messageId p, f, original).
Proof.
  intros Hex Hne Hactive Hfirst.
  destruct (parseTranscript_returns homedir JSON_parse fuel fs path activeUuids a
              Hex Hne Hactive Hfirst) as (session & Hparse & Hprompts).
  exists session. split; [done|]. intros p Hp. rewrite Hprompts in Hp.
  apply thirdPass_attribution in Hp as (q & Hq & -> & _ & -> & _).
  apply secondPass_attribution in Hq as (_ & -> & _). split.
  - apply (firstPassFrom_NoDup _ _ _ _ _ (p_messageId q) Hfirst).
    split; apply NoDup_nil_2.
  - intros f. rewrite (firstPassFrom_edited _ _ _ _ _ (p_messageId q) f Hfirst).
    split; [|by right]. intros [Hin|?]; [|done]. by apply elem_of_nil in Hin.
Qed.

(** X23.  The original content a prompt keeps for a file is that of the
    first tool result of the log, attributed to the prompt, that edits the
    file and carries an original content, be it a text or [null]; later ones
    do not replace it, so the [null] of a Write that creates a file stays
    when an Edit of the file follows.  A file with an original content is
    one of the prompt's edited files. *)
Theorem first_original_content_wins fuel fs path activeUuids a :
  existsSync fs path = true ->
  loadEntries JSON_parse (readFileSync fs path) <> [] ->
  findActiveConversationPath fuel (loadEntries JSON_parse (readFileSync fs path))
    = Some activeUuids ->
  firstPass fuel (loadEntries JSON_parse (readFileSync fs path)) = Some a ->
  exists session,
    parseTranscript homedir JSON_parse fuel fs path = Some (Some session)
    /\ forall p f original,
         p ∈ prompts session ->
         (mapGet f (originalFileContents p) = Some original <->
          exists pre e post,
            loadEntries JSON_parse (readFileSync fs path) = pre ++ e :: post
            /\ editOf fuel (loadEntries JSON_parse (readFileSync fs path)) e
               = Some (p_messageId p, f, Some original)
            /\ forall e' original', e' ∈ pre ->
                 editOf fuel (loadEntries JSON_parse (readFileSync fs path)) e'
                   <> Some (p_messageId p, f, Some original'))
         /\ (mapGet f (originalFileContents p) = Some original ->
             f ∈ editedFiles p).
Proof.
  intros Hex Hne Hactive Hfirst.
  destruct (parseTranscript_returns homedir JSON_parse fuel fs path activeUuids a
              Hex Hne Hactive Hfirst) as (session & Hparse & Hprompts).
  exists session. split; [done|]. intros p f original Hp. rewrite Hprompts in Hp.
  apply thirdPass_attribution in Hp as (q & Hq & -> & _ & -> & ->).
  apply secondPass_attribution in Hq as (_ & -> & ->).
  rewrite (firstPassFrom_original _ _ _ _ _ (p_messageId q) f Hfirst). simpl.
  rewrite lookup_empty. simpl. rewrite head_omap_Some.
  assert ((exists pre e post,
             loadEntries JSON_parse (readFileSync fs path) = pre ++ e :: post
             /\ originalUnder fuel (loadEntries JSON_parse (readFileSync fs path))
                  (p_messageId q) f e = Some original
             /\ forall y, y ∈ pre ->
                  originalUnder fuel (loadEntries JSON_parse (readFileSync fs path))
                    (p_messageId q) f y = None)
          -> exists pre e post,
            loadEntries JSON_parse (readFileSync fs path) = pre ++ e :: post
            /\ editOf fuel (loadEntries JSON_parse (readFileSync fs path)) e
               = Some (p_messageId q, f, Some original)
            /\ forall e' original', e' ∈ pre ->
                 editOf fuel (loadEntries JSON_parse (readFileSync fs path)) e'
                   <> Some (p_messageId q, f, Some original')) as Hto.
  { intros (pre & e & post & Hl & He & Hpre). exists pre, e, post.
    split; [done|]. split; [by apply originalUnder_Some|].
    intros e' original' Hin. by apply originalUnder_None, Hpre. }
  split; [split; [exact Hto|]|].
  - intros (pre & e & post & Hl & He & Hpre). exists pre, e, post.
    split; [done|]. split; [by apply originalUnder_Some|].
    intros y Hy. apply originalUnder_None. intros o. by apply Hpre.
  - intros (pre & e & post & Hl & He & _)%Hto.
    rewrite (firstPassFrom_edited _ _ _ _ _ (p_messageId q) f Hfirst). right.
    exists e, (Some original). split; [|done].
    rewrite Hl, elem_of_app, elem_of_cons. right. by left.
Qed.
End AttributionFacts.

Lemma tools_used_are_the_attributed_invocations_witness :
  let decode := Samples.decodeTable Samples.toolTable in
  let entries := loadEntries decode (readFileSync Samples.toolDisk "/log.jsonl") in
  exists session,
    parseTranscript (H := Posix.ops) "/home/u" decode 10 Samples.toolDisk
      "/log.jsonl" = Some (Some session)
    /\ forall p, p ∈ prompts session ->
         NoDup (toolsUsed p)
         /\ forall name,
              name ∈ toolsUsed p <->
              exists e, e ∈ entries /\ ToolUnder 10 entries (p_messageId p) name e.
Proof.
  intros decode entries.
  assert (exists a, firstPass 10 entries = Some a) as [a Ha]
    by (vm_compute; eauto).
  apply (tools_used_are_the_attributed_invocations (H := Posix.ops) "/home/u"
           decode 10 Samples.toolDisk "/log.jsonl"
           {[ "u1"; "a1"; "t1"; "a2"; "t2"; "a3" ]} a).
  - reflexivity.
  - vm_compute. discriminate.
  - vm_compute. reflexivity.
  - exact Ha.
Defined.

Lemma edited_files_are_the_attributed_results_witness :
  let decode := Samples.decodeTable Samples.toolTable in
  let entries := loadEntries decode (readFileSync Samples.toolDisk "/log.jsonl") in
  exists session,
    parseTranscript (H := Posix.ops) "/home/u" decode 10 Samples.toolDisk
      "/log.jsonl" = Some (Some session)
    /\ forall p, p ∈ prompts session ->
         NoDup (editedFiles p)
         /\ forall f,
              f ∈ editedFiles p <->
              exists e original,
                e ∈ entries
                /\ editOf 10 entries e = Some (p_messageId p, f, original).
Proof.
  intros decode entries.
  assert (exists a, firstPass 10 entries = Some a) as [a Ha]
    by (vm_compute; eauto).
  apply (edited_files_are_the_attributed_results (H := Posix.ops) "/home/u"
           decode 10 Samples.toolDisk "/log.jsonl"
           {[ "u1"; "a1"; "t1"; "a2"; "t2"; "a3" ]} a).
  - reflexivity.
  - vm_compute. discriminate.
  - vm_compute. reflexivity.
  - exact Ha.
Defined.

Lemma first_original_content_wins_witness :
  let decode := Samples.decodeTable Samples.createdTable in
  let entries := loadEntries decode (readFileSync Samples.createdDisk "/log.jsonl") in
  exists session,
    parseTranscript (H := Posix.ops) "/home/u" decode 10 Samples.createdDisk
      "/log.jsonl" = Some (Some session)
    /\ originalFileContents <$> prompts session
       = [[("/proj/new.ts", NullContent)]]
    /\ forall p f original,
         p ∈ prompts session ->
         (mapGet f (originalFileContents p) = Some original <->
          exists pre e post,
            entries = pre ++ e :: post
            /\ editOf 10 entries e = Some (p_messageId p, f, Some original)
            /\ forall e' original', e' ∈ pre ->
                 editOf 10 entries e' <> Some (p_messageId p, f, Some original'))
         /\ (mapGet f (originalFileContents p) = Some original ->
             f ∈ editedFiles p).
Proof.
  intros decode entries.
  assert (exists a, firstPass 10 entries = Some a) as [a Ha]
    by (vm_compute; eauto).
  destruct (first_original_content_wins (H := Posix.ops) "/home/u"
              decode 10 Samples.createdDisk "/log.jsonl"
              {[ "u1"; "w1"; "wr"; "e1"; "er" ]} a)
    as (session & Hparse & Hfirst).
  - reflexivity.
  - vm_compute. discriminate.
  - vm_compute. reflexivity.
  - exact Ha.
  - exists session. split; [exact Hparse|]. split; [|exact Hfirst].
    vm_compute in Hparse. by injection Hparse as <-.
Defined.
